(** * ReefGuard: the entity model, the listing views, the forms and the
    bookmark toggle of [core/models.py], [core/views.py] and [core/forms.py],
    embedded over a small model of the ORM they are written against.

    Tables are finite maps from primary key to row, query sets are lists of
    selected rows with an ordering, views are functions of the request and
    the database that return either a response and the new state or the
    exception they raise. *)

From Stdlib Require Import ZArith QArith String Ascii.
From stdpp Require Import base option list gmap strings pretty sorting.

Local Open Scope string_scope.
Local Open Scope list_scope.
Local Open Scope Z_scope.

(** ** Exceptions and the result of a call *)

Inductive exn :=
  | DoesNotExist
  | MultipleObjectsReturned
  | IntegrityError
  | FieldError
  | ValueError
  | OverflowError
  | AttributeError
  | Http404.

Inductive result (A : Type) :=
  | Ok (a : A)
  | Raise (e : exn).
Arguments Ok {A} a.
Arguments Raise {A} e.

#[global] Instance result_ret : MRet result := λ A a, Ok a.
#[global] Instance result_bind : MBind result := λ A B k r,
  match r with
  | Ok a => k a
  | Raise e => Raise e
  end.

Definition is_ok {A} (r : result A) : bool :=
  match r with Ok _ => true | Raise _ => false end.

#[global] Instance result_fmap : FMap result := λ A B f r,
  match r with
  | Ok a => Ok (f a)
  | Raise e => Raise e
  end.

(** ** models.py *)

(** [FloatField] values are the finite doubles the database stores; they are
    embedded in the rationals, where their order is the one ORDER BY uses.
    [DateTimeField] values are instants counted from an epoch, [DateField]
    values are calendar dates. A nullable [ForeignKey] is an [option] of the
    key. *)

Module Reef.
Record t := {
  name : string;
  region : string;
  country : string;
  latitude : Q;
  longitude : Q;
  description : string;
  area_km2 : Q;
  depth_meters : Q;
  health_status : string;
  created_at : Z;
  updated_at : Z;
  created_by : option Z
}.
Definition REGION_CHOICES : list (string * string) :=
  [("caribbean", "Caribbean"); ("pacific", "Pacific");
   ("indian", "Indian Ocean"); ("red_sea", "Red Sea");
   ("atlantic", "Atlantic")].
End Reef.

Record date := { year : Z; month : Z; day : Z }.

Module Event.
Record t := {
  reef : Z;
  event_type : string;
  title : string;
  description : string;
  severity : string;
  event_date : date;
  reported_by : option Z;
  created_at : Z;
  updated_at : Z;
  resolved : bool;
  notes : string
}.
Definition EVENT_TYPE_CHOICES : list (string * string) :=
  [("pollution", "Pollution Report"); ("sighting", "Coral Sighting");
   ("bleaching", "Coral Bleaching"); ("restoration", "Restoration Activity");
   ("monitoring", "Monitoring Survey"); ("damage", "Physical Damage")].
Definition SEVERITY_CHOICES : list (string * string) :=
  [("low", "Low"); ("medium", "Medium"); ("high", "High");
   ("critical", "Critical")].
End Event.

Module Article.
Record t := {
  title : string;
  slug : string;
  category : string;
  content : string;
  excerpt : string;
  author : option Z;
  published : bool;
  featured : bool;
  created_at : Z;
  updated_at : Z
}.
End Article.

Module ImageGallery.
Record t := {
  reef : option Z;
  event : option Z;
  media_type : string;
  title : string;
  description : string;
  file : string;
  uploaded_by : option Z;
  uploaded_at : Z
}.
Definition MEDIA_TYPE_CHOICES : list (string * string) :=
  [("photo", "Photo"); ("video", "Video")].
End ImageGallery.

Module ReefBookmark.
Record t := {
  user : Z;
  reef : Z;
  created_at : Z;
  notes : string
}.
End ReefBookmark.

(** The database: one table per model, keyed by primary key, and the
    sequences that hand out the keys of the tables this code inserts into. *)
Record Database := {
  Reef_objects : gmap Z Reef.t;
  Event_objects : gmap Z Event.t;
  Article_objects : gmap Z Article.t;
  ImageGallery_objects : gmap Z ImageGallery.t;
  ReefBookmark_objects : gmap Z ReefBookmark.t;
  Event_seq : Z;
  ImageGallery_seq : Z;
  ReefBookmark_seq : Z
}.

(** ** The ORM the views are written against *)

Section orm.
Context {row : Type}.

(** One term of an ordering: a three-way comparison of two objects (key
    and row). *)
Definition order_term := Z * row → Z * row → comparison.

Definition descending (c : order_term) : order_term := λ a b, CompOpp (c a b).

Fixpoint lex_compare (cs : list order_term) (a b : Z * row) : comparison :=
  match cs with
  | [] => Eq
  | c :: cs' =>
      match c a b with
      | Eq => lex_compare cs' a b
      | r => r
      end
  end.

(** [a] may precede [b] under the ordering [cs]. *)
Definition order_le (cs : list order_term) (a b : Z * row) : Prop :=
  lex_compare cs a b ≠ Gt.

#[global] Instance order_le_dec cs a b : Decision (order_le cs a b).
Proof. unfold order_le. apply _. Defined.

(** A query set: the selected objects (key and row) and the ordering the
    rows come back in when the query is run. *)
Record QuerySet := {
  qs_rows : list (Z * row);
  qs_order : list order_term
}.

(** [Model.objects.all()], with the model's [Meta.ordering]. *)
Definition objects_all (ordering : list order_term) (table : gmap Z row)
  : QuerySet :=
  {| qs_rows := map_to_list table; qs_order := ordering |}.

(** [queryset.filter(...)]. *)
Definition qs_filter (P : Z * row → Prop) `{!∀ o, Decision (P o)}
    (qs : QuerySet) : QuerySet :=
  {| qs_rows := filter P (qs_rows qs); qs_order := qs_order qs |}.

(** [queryset.order_by(field)]: a leading minus sign asks for descending
    order; the model resolves the field name, and an unknown name is a
    [FieldError]. The new ordering replaces the old one. *)
Definition order_by (fields : string → option order_term) (field : string)
    (qs : QuerySet) : result QuerySet :=
  let '(desc, fname) :=
    match field with
    | String "-" rest => (true, rest)
    | _ => (false, field)
    end in
  match fields fname with
  | Some c =>
      Ok {| qs_rows := qs_rows qs;
            qs_order := [if desc then descending c else c] |}
  | None => Raise FieldError
  end.

(** Running the query. The database is free in how it breaks ties; the
    model sorts the selected rows by merge sort. *)
Definition evaluate (qs : QuerySet) : list (Z * row) :=
  merge_sort (order_le (qs_order qs)) (qs_rows qs).

(** [queryset.get()]. *)
Definition qs_get (qs : QuerySet) : result (Z * row) :=
  match qs_rows qs with
  | [] => Raise DoesNotExist
  | [o] => Ok o
  | _ => Raise MultipleObjectsReturned
  end.

(** [get_object_or_404(Model, pk=pk)]. *)
Definition get_object_or_404 (table : gmap Z row) (pk : Z) : result (Z * row) :=
  match qs_get (qs_filter (λ o, o.1 = pk) (objects_all [] table)) with
  | Ok o => Ok o
  | Raise DoesNotExist => Raise Http404
  | Raise e => Raise e
  end.
End orm.
Arguments QuerySet : clear implicits.
Arguments order_term : clear implicits.

(** ** Text *)

(** Strings are byte strings. [lower] is [str.lower] on ASCII text, which is
    also how the database folds case for [icontains]. *)
Definition lower_ascii (c : ascii) : ascii :=
  let n := nat_of_ascii c in
  if ((65 <=? n) && (n <=? 90))%nat then ascii_of_nat (n + 32) else c.

Fixpoint lower (s : string) : string :=
  match s with
  | EmptyString => EmptyString
  | String c s' => String (lower_ascii c) (lower s')
  end.

(** [needle in hay]. *)
Fixpoint contains (needle hay : string) : bool :=
  String.prefix needle hay ||
  match hay with
  | EmptyString => false
  | String _ hay' => contains needle hay'
  end.

(** The [field__icontains=query] lookup. *)
Definition icontains (field query : string) : Prop :=
  contains (lower query) (lower field) = true.

#[global] Instance icontains_dec field query : Decision (icontains field query).
Proof. unfold icontains. apply _. Defined.

(** [s.split('.')[-1]]: what follows the last dot, the whole string when it
    has none. *)
Fixpoint split_last (acc s : string) : string :=
  match s with
  | EmptyString => acc
  | String c s' =>
      if Ascii.eqb c "." then split_last s' s' else split_last acc s'
  end.

Definition is_space (c : ascii) : bool :=
  let n := nat_of_ascii c in
  ((n =? 32) || ((9 <=? n) && (n <=? 13)) || ((28 <=? n) && (n <=? 31)))%nat.

Fixpoint lstrip (s : string) : string :=
  match s with
  | String c s' => if is_space c then lstrip s' else s
  | EmptyString => EmptyString
  end.

Fixpoint rstrip (s : string) : string :=
  match s with
  | EmptyString => EmptyString
  | String c s' =>
      match rstrip s' with
      | EmptyString => if is_space c then EmptyString else String c EmptyString
      | r => String c r
      end
  end.

(** [s.strip()]. *)
Definition strip (s : string) : string := lstrip (rstrip s).

Definition digit_of (c : ascii) : option Z :=
  let n := nat_of_ascii c in
  if ((48 <=? n) && (n <=? 57))%nat then Some (Z.of_nat n - 48) else None.

(** The digits of a decimal literal; single underscores may separate them. *)
Fixpoint int_digits (acc : Z) (after_digit : bool) (s : string) : option Z :=
  match s with
  | EmptyString => if after_digit then Some acc else None
  | String c s' =>
      match digit_of c with
      | Some d => int_digits (10 * acc + d) true s'
      | None =>
          if Ascii.eqb c "_" && after_digit then int_digits acc false s'
          else None
      end
  end.

(** [int(s)] on ASCII text; [None] where Python raises [ValueError]. *)
Definition python_int (s : string) : option Z :=
  match strip s with
  | String "-" ds => Z.opp <$> int_digits 0 false ds
  | String "+" ds => int_digits 0 false ds
  | ds => int_digits 0 false ds
  end.

(** ** Requests, sessions and responses *)

Inductive User :=
  | AnonymousUser
  | CustomUser (pk : Z).

Definition is_authenticated (u : User) : bool :=
  match u with
  | AnonymousUser => false
  | CustomUser _ => true
  end.

(** What this code keeps in the session dict: the list of viewed reef ids
    and the dict of the last reef filters. *)
Inductive session_value :=
  | SList (l : list Z)
  | SDict (d : gmap string string).

Record UploadedFile := {
  file_name : string;
  file_size : Z;
  content_type : string
}.

(** The request. [GET], [POST] and [FILES] are the submitted dictionaries,
    [session] and [messages] are the per-visitor stores the views write to,
    [now] is the time the request is served at. *)
Record HttpRequest := {
  user : User;
  GET : gmap string string;
  POST : gmap string string;
  FILES : gmap string UploadedFile;
  session : gmap string session_value;
  session_modified : bool;
  messages : list (Z * string);
  now : Z
}.

Definition set_session (s : gmap string session_value) (m : bool)
    (r : HttpRequest) : HttpRequest :=
  {| user := user r; GET := GET r; POST := POST r; FILES := FILES r;
     session := s; session_modified := m;
     messages := messages r; now := now r |}.

Definition SUCCESS : Z := 25.

(** [messages.success(request, message)]. *)
Definition messages_success (message : string) (r : HttpRequest) : HttpRequest :=
  {| user := user r; GET := GET r; POST := POST r; FILES := FILES r;
     session := session r; session_modified := session_modified r;
     messages := (messages r ++ [(SUCCESS, message)])%list; now := now r |}.

(** [request.GET.get(key, default)]. *)
Definition QueryDict_get (q : gmap string string) (key dflt : string) : string :=
  default dflt (q !! key).

Inductive json :=
  | JBool (b : bool)
  | JString (s : string).

Record JsonResponse := {
  status : Z;
  body : list (string * json)
}.

(** ** views.py: bookmark_toggle *)

Definition set_bookmarks (t : gmap Z ReefBookmark.t) (seq : Z) (db : Database)
    : Database :=
  {| Reef_objects := Reef_objects db; Event_objects := Event_objects db;
     Article_objects := Article_objects db;
     ImageGallery_objects := ImageGallery_objects db;
     ReefBookmark_objects := t;
     Event_seq := Event_seq db; ImageGallery_seq := ImageGallery_seq db;
     ReefBookmark_seq := seq |}.

(** The pair that [unique_together = ['user', 'reef']] keeps unique. *)
Definition same_pair (u r : Z) (o : Z * ReefBookmark.t) : Prop :=
  ReefBookmark.user o.2 = u ∧ ReefBookmark.reef o.2 = r.

#[global] Instance same_pair_dec u r o : Decision (same_pair u r o).
Proof. unfold same_pair. apply _. Defined.

Definition ReefBookmark_ordering : list (order_term ReefBookmark.t) :=
  [descending (λ a b, (ReefBookmark.created_at a.2 ?= ReefBookmark.created_at b.2)%Z)].

(** [ReefBookmark.objects.get(user=u, reef=r)]. *)
Definition ReefBookmark_get (u r : Z) (db : Database)
    : result (Z * ReefBookmark.t) :=
  qs_get (qs_filter (same_pair u r)
            (objects_all ReefBookmark_ordering (ReefBookmark_objects db))).

(** [ReefBookmark.objects.create(user=u, reef=r)]: the row takes the next
    key of the sequence, the creation time and empty notes; the database
    refuses the insert when the key is taken or when a row with the same
    (user, reef) pair is there. *)
Definition ReefBookmark_create (u r now : Z) (db : Database)
    : result (Z * ReefBookmark.t * Database) :=
  let pk := ReefBookmark_seq db in
  let table := ReefBookmark_objects db in
  let b := {| ReefBookmark.user := u; ReefBookmark.reef := r;
              ReefBookmark.created_at := now; ReefBookmark.notes := "" |} in
  match table !! pk, filter (same_pair u r) (map_to_list table) with
  | None, [] => Ok (pk, b, set_bookmarks (<[pk := b]> table) (pk + 1) db)
  | _, _ => Raise IntegrityError
  end.

(** [ReefBookmark.objects.get_or_create(user=u, reef=r)]. *)
Definition ReefBookmark_get_or_create (u r now : Z) (db : Database)
    : result (Z * ReefBookmark.t * bool * Database) :=
  match ReefBookmark_get u r db with
  | Ok o => Ok (o, false, db)
  | Raise DoesNotExist =>
      match ReefBookmark_create u r now db with
      | Ok (o, db') => Ok (o, true, db')
      | Raise IntegrityError =>
          match ReefBookmark_get u r db with
          | Ok o => Ok (o, false, db)
          | Raise _ => Raise IntegrityError
          end
      | Raise e => Raise e
      end
  | Raise e => Raise e
  end.

(** [bookmark.delete()]: no model refers to a bookmark, only its row goes. *)
Definition ReefBookmark_delete (pk : Z) (db : Database) : Database :=
  set_bookmarks (delete pk (ReefBookmark_objects db)) (ReefBookmark_seq db) db.

(** [bookmark_toggle(request, reef_id)]. [request.user.is_authenticated] is
    false for the anonymous user alone. Nothing is written before the two
    places that can raise, so a call that raises leaves the database as it
    was. *)
Definition bookmark_toggle (request : HttpRequest) (reef_id : Z) (db : Database)
    : result (JsonResponse * HttpRequest * Database) :=
  match user request with
  | AnonymousUser =>
      Ok ({| status := 401;
             body := [("error", JString "Authentication required")] |},
          request, db)
  | CustomUser u =>
      reef ← get_object_or_404 (Reef_objects db) reef_id;
      '(bookmark, created, db) ←
        ReefBookmark_get_or_create u reef.1 (now request) db;
      let '(bookmarked, message, db) :=
        if negb created then
          (false, "Removed " +:+ Reef.name reef.2 +:+ " from bookmarks",
           ReefBookmark_delete bookmark.1 db)
        else
          (true, "Added " +:+ Reef.name reef.2 +:+ " to bookmarks", db) in
      let request := messages_success message request in
      Ok ({| status := 200;
             body := [("bookmarked", JBool bookmarked);
                      ("message", JString message)] |},
          request, db)
  end.

(** ** Orderings of the models *)

Definition by_key {row K} (cmp : K → K → comparison) (key : row → K)
    : order_term row :=
  λ a b, cmp (key a.2) (key b.2).

Definition by_pk {row} : order_term row := λ a b, (a.1 ?= b.1)%Z.

Definition date_compare (a b : date) : comparison :=
  match (year a ?= year b)%Z with
  | Eq =>
      match (month a ?= month b)%Z with
      | Eq => (day a ?= day b)%Z
      | r => r
      end
  | r => r
  end.

Definition bool_compare (a b : bool) : comparison :=
  match a, b with
  | false, true => Lt
  | true, false => Gt
  | _, _ => Eq
  end.

Fixpoint assoc {A} (k : string) (l : list (string * A)) : option A :=
  match l with
  | [] => None
  | (k', a) :: l' => if String.eqb k k' then Some a else assoc k l'
  end.

(** The columns a query on each model can be ordered by. Text compares byte
    by byte. Nullable foreign keys are left out: where NULL sorts is the
    database's choice, and no view orders by them. *)
Definition Reef_fields (f : string) : option (order_term Reef.t) :=
  assoc f
    [("id", by_pk); ("pk", by_pk);
     ("name", by_key String.compare Reef.name);
     ("region", by_key String.compare Reef.region);
     ("country", by_key String.compare Reef.country);
     ("latitude", by_key Qcompare Reef.latitude);
     ("longitude", by_key Qcompare Reef.longitude);
     ("description", by_key String.compare Reef.description);
     ("area_km2", by_key Qcompare Reef.area_km2);
     ("depth_meters", by_key Qcompare Reef.depth_meters);
     ("health_status", by_key String.compare Reef.health_status);
     ("created_at", by_key Z.compare Reef.created_at);
     ("updated_at", by_key Z.compare Reef.updated_at)].

Definition Event_fields (f : string) : option (order_term Event.t) :=
  assoc f
    [("id", by_pk); ("pk", by_pk);
     ("reef", by_key Z.compare Event.reef);
     ("reef_id", by_key Z.compare Event.reef);
     ("event_type", by_key String.compare Event.event_type);
     ("title", by_key String.compare Event.title);
     ("description", by_key String.compare Event.description);
     ("severity", by_key String.compare Event.severity);
     ("event_date", by_key date_compare Event.event_date);
     ("created_at", by_key Z.compare Event.created_at);
     ("updated_at", by_key Z.compare Event.updated_at);
     ("resolved", by_key bool_compare Event.resolved);
     ("notes", by_key String.compare Event.notes)].

Definition Article_fields (f : string) : option (order_term Article.t) :=
  assoc f
    [("id", by_pk); ("pk", by_pk);
     ("title", by_key String.compare Article.title);
     ("slug", by_key String.compare Article.slug);
     ("category", by_key String.compare Article.category);
     ("content", by_key String.compare Article.content);
     ("excerpt", by_key String.compare Article.excerpt);
     ("published", by_key bool_compare Article.published);
     ("featured", by_key bool_compare Article.featured);
     ("created_at", by_key Z.compare Article.created_at);
     ("updated_at", by_key Z.compare Article.updated_at)].

(** [Meta.ordering] of each model. *)
Definition Reef_ordering : list (order_term Reef.t) :=
  [descending (by_key Z.compare Reef.created_at)].

Definition Event_ordering : list (order_term Event.t) :=
  [descending (by_key date_compare Event.event_date);
   descending (by_key Z.compare Event.created_at)].

Definition Article_ordering : list (order_term Article.t) :=
  [descending (by_key Z.compare Article.created_at)].

Definition ImageGallery_ordering : list (order_term ImageGallery.t) :=
  [descending (by_key Z.compare ImageGallery.uploaded_at)].

(** ** views.py: the listings *)

Definition Reef_search (q : string) (o : Z * Reef.t) : Prop :=
  icontains (Reef.name o.2) q ∨ icontains (Reef.country o.2) q ∨
  icontains (Reef.description o.2) q.

#[global] Instance Reef_search_dec q o : Decision (Reef_search q o).
Proof. unfold Reef_search. apply _. Defined.

(** The allow-list of [ReefListView.get_queryset]. *)
Definition Reef_sort_keys : list string :=
  ["name"; "-name"; "area_km2"; "-area_km2"; "health_status";
   "-health_status"; "created_at"; "-created_at"].

(** [ReefListView.get_queryset]: the filters in the order of the source,
    the sort, and the filters remembered in the session. *)
Definition ReefListView_get_queryset (request : HttpRequest) (db : Database)
    : result (QuerySet Reef.t * HttpRequest) :=
  let queryset := objects_all Reef_ordering (Reef_objects db) in
  let search_query := QueryDict_get (GET request) "search" "" in
  let queryset :=
    if bool_decide (search_query ≠ "")
    then qs_filter (Reef_search search_query) queryset
    else queryset in
  let region := QueryDict_get (GET request) "region" "" in
  let queryset :=
    if bool_decide (region ≠ "")
    then qs_filter (λ o, Reef.region o.2 = region) queryset
    else queryset in
  let health := QueryDict_get (GET request) "health" "" in
  let queryset :=
    if bool_decide (health ≠ "")
    then qs_filter (λ o, Reef.health_status o.2 = health) queryset
    else queryset in
  let sort := QueryDict_get (GET request) "sort" "-created_at" in
  queryset ←
    (if bool_decide (sort ∈ Reef_sort_keys)
     then order_by Reef_fields sort queryset
     else Ok queryset);
  let filters : gmap string string :=
    <["health" := health]> (<["region" := region]>
      (<["search" := search_query]> ∅)) in
  Ok (queryset,
      set_session (<["last_reef_filters" := SDict filters]> (session request))
        true request).

(** The object list of the reef listing, which the paginator then slices. *)
Definition ReefListView_object_list (request : HttpRequest) (db : Database)
    : result (list (Z * Reef.t)) :=
  '(queryset, _) ← ReefListView_get_queryset request db;
  Ok (evaluate queryset).

Definition Article_search (q : string) (o : Z * Article.t) : Prop :=
  icontains (Article.title o.2) q ∨ icontains (Article.content o.2) q ∨
  icontains (Article.excerpt o.2) q.

#[global] Instance Article_search_dec q o : Decision (Article_search q o).
Proof. unfold Article_search. apply _. Defined.

(** The allow-list of [ArticleListView.get_queryset]. *)
Definition Article_sort_keys : list string :=
  ["title"; "-title"; "created_at"; "-created_at"].

(** [ArticleListView.get_queryset]. *)
Definition ArticleListView_get_queryset (request : HttpRequest) (db : Database)
    : result (QuerySet Article.t) :=
  let queryset :=
    qs_filter (λ o, Article.published o.2 = true)
      (objects_all Article_ordering (Article_objects db)) in
  let search_query := QueryDict_get (GET request) "search" "" in
  let queryset :=
    if bool_decide (search_query ≠ "")
    then qs_filter (Article_search search_query) queryset
    else queryset in
  let category := QueryDict_get (GET request) "category" "" in
  let queryset :=
    if bool_decide (category ≠ "")
    then qs_filter (λ o, Article.category o.2 = category) queryset
    else queryset in
  let sort := QueryDict_get (GET request) "sort" "-created_at" in
  if bool_decide (sort ∈ Article_sort_keys)
  then order_by Article_fields sort queryset
  else Ok queryset.

Definition ArticleListView_object_list (request : HttpRequest) (db : Database)
    : result (list (Z * Article.t)) :=
  queryset ← ArticleListView_get_queryset request db;
  Ok (evaluate queryset).

(** The [event_date__year=value] lookup. The value is coerced with [int],
    and the year must be one a date can have. *)
Definition filter_event_date_year (value : string) (qs : QuerySet Event.t)
    : result (QuerySet Event.t) :=
  match python_int value with
  | None => Raise ValueError
  | Some y =>
      if bool_decide (1 ≤ y ≤ 9999)%Z
      then Ok (qs_filter (λ o, year (Event.event_date o.2) = y) qs)
      else if bool_decide (- 2 ^ 31 ≤ y < 2 ^ 31)%Z then Raise ValueError
      else Raise OverflowError
  end.

(** The allow-list of [EventListView.get_queryset]. *)
Definition Event_sort_keys : list string :=
  ["event_date"; "-event_date"; "severity"; "-severity"; "created_at";
   "-created_at"].

(** [EventListView.get_queryset]. [select_related] changes how the rows are
    fetched, not which rows. *)
Definition EventListView_get_queryset (request : HttpRequest) (db : Database)
    : result (QuerySet Event.t) :=
  let queryset := objects_all Event_ordering (Event_objects db) in
  let event_type := QueryDict_get (GET request) "event_type" "" in
  let queryset :=
    if bool_decide (event_type ≠ "")
    then qs_filter (λ o, Event.event_type o.2 = event_type) queryset
    else queryset in
  let severity := QueryDict_get (GET request) "severity" "" in
  let queryset :=
    if bool_decide (severity ≠ "")
    then qs_filter (λ o, Event.severity o.2 = severity) queryset
    else queryset in
  let year := QueryDict_get (GET request) "year" "" in
  queryset ←
    (if bool_decide (year ≠ "")
     then filter_event_date_year year queryset
     else Ok queryset);
  let resolved := QueryDict_get (GET request) "resolved" "" in
  let queryset :=
    if bool_decide (resolved ∈ ["true"; "false"])
    then qs_filter
           (λ o, Event.resolved o.2 = bool_decide (resolved = "true")) queryset
    else queryset in
  let sort := QueryDict_get (GET request) "sort" "-event_date" in
  if bool_decide (sort ∈ Event_sort_keys)
  then order_by Event_fields sort queryset
  else Ok queryset.

Definition EventListView_object_list (request : HttpRequest) (db : Database)
    : result (list (Z * Event.t)) :=
  queryset ← EventListView_get_queryset request db;
  Ok (evaluate queryset).

(** ** views.py: the detail views *)

(** [DetailView.get_object()]: the object is looked up by the [pk] of the
    URL, or by its [slug] when the URL has no [pk]; a model without a slug
    column cannot be asked by slug. *)
Definition get_object {row} (slug_of : option (row → string))
    (queryset : QuerySet row) (pk : option Z) (slug : option string)
    : result (Z * row) :=
  let queryset :=
    match pk with
    | Some k => qs_filter (λ o, o.1 = k) queryset
    | None => queryset
    end in
  queryset ←
    match pk, slug with
    | None, None => Raise AttributeError
    | None, Some s =>
        match slug_of with
        | Some f => Ok (qs_filter (λ o, f o.2 = s) queryset)
        | None => Raise FieldError
        end
    | Some _, _ => Ok queryset
    end;
  match qs_get queryset with
  | Ok o => Ok o
  | Raise DoesNotExist => Raise Http404
  | Raise e => Raise e
  end.

Definition ArticleDetailView_get_queryset (db : Database) : QuerySet Article.t :=
  qs_filter (λ o, Article.published o.2 = true)
    (objects_all Article_ordering (Article_objects db)).

Definition ArticleDetailView_get_object (pk : option Z) (slug : option string)
    (db : Database) : result (Z * Article.t) :=
  get_object (Some Article.slug) (ArticleDetailView_get_queryset db) pk slug.

(** [lst.remove(x)]: the first occurrence goes; [ValueError] without one. *)
Fixpoint list_remove (x : Z) (l : list Z) : result (list Z) :=
  match l with
  | [] => Raise ValueError
  | y :: l' =>
      if bool_decide (x = y) then Ok l'
      else l'' ← list_remove x l'; Ok (y :: l'')
  end.

Record ReefDetailContext := {
  context_reef : Z * Reef.t;
  context_events : list (Z * Event.t);
  context_gallery_items : list (Z * ImageGallery.t)
}.

(** The session bookkeeping of [ReefDetailView.get_context_data]. The list
    that [remove] and [insert] change in place is the one the session
    holds; the key is then bound to the first ten entries of it. *)
Definition track_viewed_reef (reef_id : Z) (request : HttpRequest)
    : result HttpRequest :=
  let request :=
    if bool_decide (is_Some (session request !! "viewed_reefs")) then request
    else set_session (<["viewed_reefs" := SList []]> (session request))
           true request in
  match session request !! "viewed_reefs" with
  | Some (SList viewed_reefs) =>
      viewed_reefs ←
        (if bool_decide (reef_id ∈ viewed_reefs)
         then list_remove reef_id viewed_reefs
         else Ok viewed_reefs);
      let viewed_reefs := reef_id :: viewed_reefs in
      Ok (set_session
            (<["viewed_reefs" := SList (take 10 viewed_reefs)]> (session request))
            true request)
  | _ => Raise AttributeError
  end.

(** [ReefDetailView.get_context_data]: the reef of the URL, its first ten
    events and first eight gallery items, and the session bookkeeping. *)
Definition ReefDetailView_get_context_data (request : HttpRequest)
    (pk : option Z) (slug : option string) (db : Database)
    : result (ReefDetailContext * HttpRequest) :=
  reef ← get_object None (objects_all Reef_ordering (Reef_objects db)) pk slug;
  let events :=
    take 10 (evaluate (qs_filter (λ o, Event.reef o.2 = reef.1)
                         (objects_all Event_ordering (Event_objects db)))) in
  let gallery_items :=
    take 8 (evaluate (qs_filter (λ o, ImageGallery.reef o.2 = Some reef.1)
                        (objects_all ImageGallery_ordering
                           (ImageGallery_objects db)))) in
  request ← track_viewed_reef reef.1 request;
  Ok ({| context_reef := reef; context_events := events;
         context_gallery_items := gallery_items |}, request).

(** The value of [session['viewed_reefs']] after a request. *)
Definition viewed_reefs (request : HttpRequest) : list Z :=
  match session request !! "viewed_reefs" with
  | Some (SList l) => l
  | _ => []
  end.

(** A visitor opening reef detail pages one after the other: a page that
    is not found leaves the session as it was. *)
Definition view_reef (db : Database) (request : HttpRequest) (pk : Z)
    : HttpRequest :=
  match ReefDetailView_get_context_data request (Some pk) None db with
  | Ok (_, request') => request'
  | Raise _ => request
  end.

Definition view_reefs (db : Database) (request : HttpRequest) (pks : list Z)
    : HttpRequest :=
  foldl (view_reef db) request pks.

(** ** forms.py *)

(** The values a cleaned form field or a model attribute holds. A foreign
    key holds the key of the object it points to. *)
Inductive value :=
  | VNone
  | VStr (s : string)
  | VKey (k : Z)
  | VDate (d : date)
  | VBool (b : bool)
  | VFile (f : UploadedFile).

(** Python's truth value of what [cleaned_data.get] returns; a file is true
    when it has a name. *)
Definition truthy (v : option value) : bool :=
  match v with
  | None | Some VNone => false
  | Some (VStr s) => bool_decide (s ≠ "")
  | Some (VFile f) => bool_decide (file_name f ≠ "")
  | Some (VBool b) => b
  | Some (VKey _) | Some (VDate _) => true
  end.

Inductive cleaned (A : Type) :=
  | Cleaned (a : A)
  | Invalid (message : string).
Arguments Cleaned {A} a.
Arguments Invalid {A} message.

(** The form fields a [ModelForm] derives from the model's columns. A
    [ModelChoiceField] carries the keys of its queryset. *)
Inductive Field :=
  | CharField (required : bool) (max_length : option nat)
  | ChoiceField (required : bool) (choices : list (string * string))
  | ModelChoiceField (required : bool) (queryset : gset Z)
  | DateField (required : bool)
  | FileField (required : bool) (validators : list (UploadedFile → option string)).

(** The first complaint of a list of validators. *)
Fixpoint run_validators (vs : list (UploadedFile → option string))
    (f : UploadedFile) : option string :=
  match vs with
  | [] => None
  | v :: vs' =>
      match v f with
      | Some message => Some message
      | None => run_validators vs' f
      end
  end.

Definition required_message : string := "This field is required.".

Definition invalid_choice : string :=
  "Select a valid choice. That choice is not one of the available choices.".

Section forms.
(** What the forms take from outside these files: how a date field reads a
    date, the validator of [core/validators.py] (the message it rejects a
    file with, if it does), and the name the storage gives an upload made
    at some time. *)
Variable strptime_date : string → option date.
Variable FileValidator : UploadedFile → option string.
Variable generate_filename : Z → string → string.

(** [field.clean(value)]: conversion, the required check, validators. *)
Definition Field_clean (field : Field) (data : option string)
    (file : option UploadedFile) : cleaned value :=
  match field with
  | CharField required max_length =>
      let s := strip (default "" data) in
      if required && bool_decide (s = "") then Invalid required_message
      else
        match max_length with
        | Some n =>
            if bool_decide (n < String.length s)%nat
            then Invalid ("Ensure this value has at most " +:+ pretty n +:+
                          " characters (it has " +:+
                          pretty (String.length s) +:+ ").")
            else Cleaned (VStr s)
        | None => Cleaned (VStr s)
        end
  | ChoiceField required choices =>
      let s := default "" data in
      if bool_decide (s = "") then
        if required then Invalid required_message else Cleaned (VStr "")
      else if bool_decide (s ∈ choices.*1) then Cleaned (VStr s)
      else Invalid ("Select a valid choice. " +:+ s +:+
                    " is not one of the available choices.")
  | ModelChoiceField required queryset =>
      let s := default "" data in
      if bool_decide (s = "") then
        if required then Invalid required_message else Cleaned VNone
      else
        match python_int s with
        | Some k =>
            if bool_decide (k ∈ queryset) then Cleaned (VKey k)
            else Invalid invalid_choice
        | None => Invalid invalid_choice
        end
  | DateField required =>
      let s := strip (default "" data) in
      if bool_decide (s = "") then
        if required then Invalid required_message else Cleaned VNone
      else
        match strptime_date s with
        | Some d => Cleaned (VDate d)
        | None => Invalid "Enter a valid date."
        end
  | FileField required validators =>
      match file with
      | None =>
          if required then Invalid required_message else Cleaned VNone
      | Some f =>
          if bool_decide (file_name f = "")
          then Invalid "No file was submitted. Check the encoding type on the form."
          else if bool_decide (file_size f = 0)
          then Invalid "The submitted file is empty."
          else
            match run_validators validators f with
            | Some message => Invalid message
            | None => Cleaned (VFile f)
            end
      end
  end.

(** A bound form after [full_clean]: the model instance it builds (its
    attributes by name), the cleaned data, and the errors by field name,
    ["__all__"] for those of the form as a whole. *)
Record Form := {
  instance : gmap string value;
  cleaned_data : gmap string value;
  errors : list (string * string)
}.

Definition is_valid (form : Form) : bool := bool_decide (errors form = []).

(** [_clean_fields]: a field that fails leaves an error and no entry in
    [cleaned_data]. *)
Definition clean_field (data : gmap string string)
    (files : gmap string UploadedFile)
    (acc : gmap string value * list (string * string)) (nf : string * Field)
    : gmap string value * list (string * string) :=
  match Field_clean nf.2 (data !! nf.1) (files !! nf.1) with
  | Cleaned v => (<[nf.1 := v]> acc.1, acc.2)
  | Invalid message => (acc.1, (acc.2 ++ [(nf.1, message)])%list)
  end.

Definition clean_fields (fields : list (string * Field))
    (data : gmap string string) (files : gmap string UploadedFile)
    : gmap string value * list (string * string) :=
  foldl (clean_field data files) (∅, []) fields.

(** [construct_instance]: the attributes of the form's fields that were
    cleaned are set on the instance; nothing else of it is touched. *)
Definition construct_instance (fields : list (string * Field))
    (cleaned_data : gmap string value) (instance : gmap string value)
    : gmap string value :=
  foldl
    (λ inst nf,
       match cleaned_data !! nf.1 with
       | Some v => <[nf.1 := v]> inst
       | None => inst
       end)
    instance fields.

(** [full_clean]: the fields, then the form's [clean], then the instance.
    The model's own validation of the instance repeats the checks of the
    form's fields and skips the fields the form does not have. *)
Definition full_clean (fields : list (string * Field))
    (clean : gmap string value → cleaned (gmap string value))
    (instance : gmap string value)
    (data : gmap string string) (files : gmap string UploadedFile) : Form :=
  let '(cleaned_data, errors) := clean_fields fields data files in
  let '(cleaned_data, errors) :=
    match clean cleaned_data with
    | Cleaned cd => (cd, errors)
    | Invalid message =>
        (cleaned_data, (errors ++ [("__all__", message)])%list)
    end in
  {| instance := construct_instance fields cleaned_data instance;
     cleaned_data := cleaned_data;
     errors := errors |}.

Definition setattr (name : string) (v : value) (form : Form) : Form :=
  {| instance := <[name := v]> (instance form);
     cleaned_data := cleaned_data form;
     errors := errors form |}.

(** [Event()]: the attributes of a fresh instance, with the defaults of
    the model. *)
Definition Event_new : gmap string value :=
  list_to_map
    [("reef", VNone); ("event_type", VStr ""); ("title", VStr "");
     ("description", VStr ""); ("severity", VStr "medium");
     ("event_date", VNone); ("reported_by", VNone);
     ("resolved", VBool false); ("notes", VStr "")].

Definition ImageGallery_new : gmap string value :=
  list_to_map
    [("reef", VNone); ("event", VNone); ("media_type", VStr "");
     ("title", VStr ""); ("description", VStr ""); ("file", VNone);
     ("uploaded_by", VNone)].

Definition as_str (v : value) : option string :=
  match v with VStr s => Some s | _ => None end.
Definition as_key (v : value) : option Z :=
  match v with VKey k => Some k | _ => None end.
Definition as_nullable_key (v : value) : option (option Z) :=
  match v with VKey k => Some (Some k) | VNone => Some None | _ => None end.
Definition as_date (v : value) : option date :=
  match v with VDate d => Some d | _ => None end.
Definition as_bool (v : value) : option bool :=
  match v with VBool b => Some b | _ => None end.
Definition as_file (v : value) : option UploadedFile :=
  match v with VFile f => Some f | _ => None end.

(** The row an instance is stored as; [None] when a column that must not
    be NULL has no value. *)
Definition Event_row (now : Z) (inst : gmap string value) : option Event.t :=
  reef ← inst !! "reef" ≫= as_key;
  event_type ← inst !! "event_type" ≫= as_str;
  title ← inst !! "title" ≫= as_str;
  description ← inst !! "description" ≫= as_str;
  severity ← inst !! "severity" ≫= as_str;
  event_date ← inst !! "event_date" ≫= as_date;
  reported_by ← inst !! "reported_by" ≫= as_nullable_key;
  resolved ← inst !! "resolved" ≫= as_bool;
  notes ← inst !! "notes" ≫= as_str;
  Some {| Event.reef := reef; Event.event_type := event_type;
          Event.title := title; Event.description := description;
          Event.severity := severity; Event.event_date := event_date;
          Event.reported_by := reported_by; Event.created_at := now;
          Event.updated_at := now; Event.resolved := resolved;
          Event.notes := notes |}.

Definition ImageGallery_row (now : Z) (inst : gmap string value)
    : option ImageGallery.t :=
  reef ← inst !! "reef" ≫= as_nullable_key;
  event ← inst !! "event" ≫= as_nullable_key;
  media_type ← inst !! "media_type" ≫= as_str;
  title ← inst !! "title" ≫= as_str;
  description ← inst !! "description" ≫= as_str;
  file ← inst !! "file" ≫= as_file;
  uploaded_by ← inst !! "uploaded_by" ≫= as_nullable_key;
  Some {| ImageGallery.reef := reef; ImageGallery.event := event;
          ImageGallery.media_type := media_type;
          ImageGallery.title := title;
          ImageGallery.description := description;
          ImageGallery.file := generate_filename now (file_name file);
          ImageGallery.uploaded_by := uploaded_by;
          ImageGallery.uploaded_at := now |}.

Definition set_events (t : gmap Z Event.t) (seq : Z) (db : Database)
    : Database :=
  {| Reef_objects := Reef_objects db; Event_objects := t;
     Article_objects := Article_objects db;
     ImageGallery_objects := ImageGallery_objects db;
     ReefBookmark_objects := ReefBookmark_objects db;
     Event_seq := seq; ImageGallery_seq := ImageGallery_seq db;
     ReefBookmark_seq := ReefBookmark_seq db |}.

Definition set_gallery (t : gmap Z ImageGallery.t) (seq : Z) (db : Database)
    : Database :=
  {| Reef_objects := Reef_objects db; Event_objects := Event_objects db;
     Article_objects := Article_objects db;
     ImageGallery_objects := t;
     ReefBookmark_objects := ReefBookmark_objects db;
     Event_seq := Event_seq db; ImageGallery_seq := seq;
     ReefBookmark_seq := ReefBookmark_seq db |}.

(** [form.save()] of a form on [Event]: a form with errors cannot be
    saved; otherwise the instance is inserted under the next key. *)
Definition Event_form_save (form : Form) (now : Z) (db : Database)
    : result (Z * Event.t * Database) :=
  if negb (is_valid form) then Raise ValueError
  else
    let pk := Event_seq db in
    match Event_row now (instance form), Event_objects db !! pk with
    | Some e, None =>
        Ok (pk, e, set_events (<[pk := e]> (Event_objects db)) (pk + 1) db)
    | _, _ => Raise IntegrityError
    end.

Definition ImageGallery_form_save (form : Form) (now : Z) (db : Database)
    : result (Z * ImageGallery.t * Database) :=
  if negb (is_valid form) then Raise ValueError
  else
    let pk := ImageGallery_seq db in
    match ImageGallery_row now (instance form), ImageGallery_objects db !! pk with
    | Some g, None =>
        Ok (pk, g,
            set_gallery (<[pk := g]> (ImageGallery_objects db)) (pk + 1) db)
    | _, _ => Raise IntegrityError
    end.

Definition no_clean (cleaned_data : gmap string value)
    : cleaned (gmap string value) :=
  Cleaned cleaned_data.

(** [PollutionReportForm]: [Meta.fields], and [__init__] setting the
    event type on the instance before the data is cleaned. *)
Definition PollutionReportForm_fields (db : Database) : list (string * Field) :=
  [("reef", ModelChoiceField true (dom (Reef_objects db)));
   ("title", CharField true (Some 200%nat));
   ("description", CharField true None);
   ("severity", ChoiceField true Event.SEVERITY_CHOICES);
   ("event_date", DateField true);
   ("notes", CharField false None)].

Definition PollutionReportForm (data : gmap string string)
    (files : gmap string UploadedFile) (db : Database) : Form :=
  let instance := <["event_type" := VStr "pollution"]> Event_new in
  full_clean (PollutionReportForm_fields db) no_clean instance data files.

(** [CoralSightingForm]: no severity field; [__init__] sets the event type
    and the severity. *)
Definition CoralSightingForm_fields (db : Database) : list (string * Field) :=
  [("reef", ModelChoiceField true (dom (Reef_objects db)));
   ("title", CharField true (Some 200%nat));
   ("description", CharField true None);
   ("event_date", DateField true);
   ("notes", CharField false None)].

Definition CoralSightingForm (data : gmap string string)
    (files : gmap string UploadedFile) (db : Database) : Form :=
  let instance :=
    <["severity" := VStr "low"]> (<["event_type" := VStr "sighting"]> Event_new) in
  full_clean (CoralSightingForm_fields db) no_clean instance data files.

(** [ImageUploadForm]: the declared [file] field with its validator, the
    fields of [Meta.fields], [reef] and [event] made optional by
    [__init__], and [clean]. *)
Definition ImageUploadForm_fields (db : Database) : list (string * Field) :=
  [("reef", ModelChoiceField false (dom (Reef_objects db)));
   ("event", ModelChoiceField false (dom (Event_objects db)));
   ("media_type", ChoiceField true ImageGallery.MEDIA_TYPE_CHOICES);
   ("title", CharField true (Some 200%nat));
   ("description", CharField false None);
   ("file", FileField true [FileValidator])].

Definition quoted (s : string) : string :=
  String (ascii_of_nat 34) s +:+ String (ascii_of_nat 34) EmptyString.

Definition photo_but_video : string :=
  "You selected " +:+ quoted "Photo" +:+
  " but uploaded a video file. Please select " +:+ quoted "Video" +:+
  " as media type.".

Definition video_but_photo : string :=
  "You selected " +:+ quoted "Video" +:+
  " but uploaded an image file. Please select " +:+ quoted "Photo" +:+
  " as media type.".

Definition ImageUploadForm_clean (cleaned_data : gmap string value)
    : cleaned (gmap string value) :=
  let media_type := cleaned_data !! "media_type" in
  let file := cleaned_data !! "file" in
  if truthy file && truthy media_type then
    match file, media_type with
    | Some (VFile f), Some (VStr media_type) =>
        let file_ext := lower (split_last (file_name f) (file_name f)) in
        if bool_decide (media_type = "photo") &&
           bool_decide (file_ext ∈ ["mp4"; "mov"; "avi"; "mkv"; "webm"])
        then Invalid photo_but_video
        else if bool_decide (media_type = "video") &&
                bool_decide (file_ext ∈ ["jpg"; "jpeg"; "png"; "gif"; "bmp"; "webp"])
        then Invalid video_but_photo
        else Cleaned cleaned_data
    | _, _ => Cleaned cleaned_data
    end
  else Cleaned cleaned_data.

Definition ImageUploadForm (data : gmap string string)
    (files : gmap string UploadedFile) (db : Database) : Form :=
  full_clean (ImageUploadForm_fields db) ImageUploadForm_clean
    ImageGallery_new data files.

(** ** views.py: PollutionReportCreateView *)

Inductive HttpResponse :=
  | RedirectToLogin
  | HttpResponseRedirect (url_name : string)
  | TemplateResponse (template_name : string) (form : Form).

Definition PollutionReportCreateView_form_valid (request : HttpRequest)
    (form : Form) (db : Database)
    : result (HttpResponse * HttpRequest * Database) :=
  let reported_by :=
    match user request with
    | CustomUser u => VKey u
    | AnonymousUser => VNone
    end in
  let form := setattr "reported_by" reported_by form in
  let form := setattr "event_type" (VStr "pollution") form in
  let request :=
    messages_success "Pollution report submitted successfully. Thank you!"
      request in
  '(_, _, db) ← Event_form_save form (now request) db;
  Ok (HttpResponseRedirect "event_list", request, db).

(** A POST to the view: [LoginRequiredMixin] turns an anonymous visitor
    away; a form that does not validate is shown again with its errors
    and nothing is saved. *)
Definition PollutionReportCreateView_post (request : HttpRequest)
    (db : Database) : result (HttpResponse * HttpRequest * Database) :=
  if negb (is_authenticated (user request)) then Ok (RedirectToLogin, request, db)
  else
    let form := PollutionReportForm (POST request) (FILES request) db in
    if is_valid form
    then PollutionReportCreateView_form_valid request form db
    else Ok (TemplateResponse "core/pollution_report_form.html" form,
             request, db).
End forms.

(** ** models.py: what deleting a reef takes with it *)

(** [reef.delete()]. The collector follows every foreign key declared with
    [on_delete=models.CASCADE]: [Event.reef], [ImageGallery.reef],
    [ReefBookmark.reef], and from the events collected, [ImageGallery.event]. *)
Definition event_of_reef (pk : Z) (o : Z * Event.t) : Prop :=
  Event.reef o.2 = pk.

Definition gallery_of_reef (events : gmap Z Event.t) (pk : Z)
    (o : Z * ImageGallery.t) : Prop :=
  ImageGallery.reef o.2 = Some pk ∨
  ∃ e ev, ImageGallery.event o.2 = Some e ∧ events !! e = Some ev ∧
          Event.reef ev = pk.

#[global] Instance event_of_reef_dec pk o : Decision (event_of_reef pk o).
Proof. unfold event_of_reef. apply _. Defined.

#[global] Instance gallery_of_reef_dec events pk o
  : Decision (gallery_of_reef events pk o).
Proof.
  unfold gallery_of_reef.
  destruct (ImageGallery.event o.2) as [e|] eqn:He.
  - destruct (events !! e) as [ev|] eqn:Hev.
    + destruct (decide (Event.reef ev = pk)) as [Hr|Hr].
      * left. right. exists e, ev. done.
      * destruct (decide (ImageGallery.reef o.2 = Some pk)) as [H|H].
        -- left. by left.
        -- right. intros [?|(e' & ev' & ? & ? & ?)]; [done|]. congruence.
    + destruct (decide (ImageGallery.reef o.2 = Some pk)) as [H|H].
      * left. by left.
      * right. intros [?|(e' & ev' & ? & ? & ?)]; [done|]. congruence.
  - destruct (decide (ImageGallery.reef o.2 = Some pk)) as [H|H].
    + left. by left.
    + right. intros [?|(e' & ev' & ? & ? & ?)]; [done|]. congruence.
Defined.

Definition Reef_delete (pk : Z) (db : Database) : Database :=
  {| Reef_objects := delete pk (Reef_objects db);
     Event_objects := filter (λ o, ¬ event_of_reef pk o) (Event_objects db);
     Article_objects := Article_objects db;
     ImageGallery_objects :=
       filter (λ o, ¬ gallery_of_reef (Event_objects db) pk o)
         (ImageGallery_objects db);
     ReefBookmark_objects :=
       filter (λ o : Z * ReefBookmark.t, ReefBookmark.reef o.2 ≠ pk)
         (ReefBookmark_objects db);
     Event_seq := Event_seq db; ImageGallery_seq := ImageGallery_seq db;
     ReefBookmark_seq := ReefBookmark_seq db |}.

(** ** views.py: the views that only read *)

(** [queryset.count()]. *)
Definition qs_count {row} (qs : QuerySet row) : nat := length (qs_rows qs).

(** What [LoginRequiredMixin] makes of a request: the anonymous visitor is
    sent to the login page before the view runs. *)
Inductive dispatched (A : Type) :=
  | LoginRedirect
  | Handled (a : A).
Arguments LoginRedirect {A}.
Arguments Handled {A} a.

Record HomeContext := {
  featured_articles : list (Z * Article.t);
  recent_events : list (Z * Event.t);
  reef_count : nat;
  event_count : nat
}.

(** [HomeView.get_context_data]: what the method adds to the context. A
    slice of a query set is the first rows of the query as it is ordered. *)
Definition HomeView_get_context_data (db : Database) : HomeContext :=
  {| featured_articles :=
       take 3 (evaluate
                 (qs_filter (λ o, Article.published o.2 = true ∧
                                  Article.featured o.2 = true)
                    (objects_all Article_ordering (Article_objects db))));
     recent_events :=
       take 5 (evaluate (objects_all Event_ordering (Event_objects db)));
     reef_count := qs_count (objects_all Reef_ordering (Reef_objects db));
     event_count := qs_count (objects_all Event_ordering (Event_objects db)) |}.

Record EventDetailContext := {
  context_event : Z * Event.t;
  event_gallery_items : list (Z * ImageGallery.t)
}.

(** [EventDetailView.get_context_data]: the event of the URL and all the
    gallery items that point at it. *)
Definition EventDetailView_get_context_data (pk : option Z)
    (slug : option string) (db : Database) : result EventDetailContext :=
  event ← get_object None (objects_all Event_ordering (Event_objects db))
             pk slug;
  Ok {| context_event := event;
        event_gallery_items :=
          evaluate (qs_filter (λ o, ImageGallery.event o.2 = Some event.1)
                      (objects_all ImageGallery_ordering
                         (ImageGallery_objects db))) |}.

Record ReefListContext := {
  regions : list (string * string);
  health_statuses : list (string * string);
  current_filters : gmap string string;
  current_sort : string;
  recently_viewed : option (list (Z * Reef.t))
}.

(** The [id__in=ids] lookup for the ids a session value holds: the entries
    of a list, the keys of a dict, each key coerced with [int]. *)
Definition ids_of (v : session_value) : result (list Z) :=
  match v with
  | SList l => Ok l
  | SDict d =>
      match mapM python_int (map_to_list d).*1 with
      | Some l => Ok l
      | None => Raise ValueError
      end
  end.

(** Python's truth value of a list or a dict. *)
Definition nonempty (v : session_value) : bool :=
  match v with
  | SList l => bool_decide (l ≠ [])
  | SDict d => bool_decide (d ≠ ∅)
  end.

(** [ReefListView.get_context_data]: what the method adds to the context.
    The panel of recently viewed reefs is there only when the session has
    viewed reefs, and holds the first five of them as [Reef] orders them. *)
Definition ReefListView_get_context_data (request : HttpRequest)
    (db : Database) : result ReefListContext :=
  let viewed_reef_ids := default (SList []) (session request !! "viewed_reefs") in
  recently_viewed ←
    (if nonempty viewed_reef_ids then
       ids ← ids_of viewed_reef_ids;
       Ok (Some (take 5 (evaluate
                           (qs_filter (λ o, o.1 ∈ ids)
                              (objects_all Reef_ordering (Reef_objects db))))))
     else Ok None);
  Ok {| regions := Reef.REGION_CHOICES;
        health_statuses :=
          [("excellent", "Excellent"); ("good", "Good"); ("fair", "Fair");
           ("poor", "Poor"); ("critical", "Critical")];
        current_filters := GET request;
        current_sort := QueryDict_get (GET request) "sort" "-created_at";
        recently_viewed := recently_viewed |}.

(** [Event.objects.dates('event_date', 'year', order='DESC')] and the list
    comprehension over it: the distinct years of the events, latest
    first. *)
Definition later_year (a b : Z) : Prop := b ≤ a.

#[global] Instance later_year_dec a b : Decision (later_year a b).
Proof. unfold later_year. apply _. Defined.

Definition Event_years (db : Database) : list Z :=
  merge_sort later_year
    (remove_dups
       ((λ o : Z * Event.t, year (Event.event_date o.2)) <$>
          map_to_list (Event_objects db))).

Record EventListContext := {
  event_types : list (string * string);
  severities : list (string * string);
  years : list Z;
  event_current_filters : gmap string string;
  event_current_sort : string
}.

Definition EventListView_get_context_data (request : HttpRequest)
    (db : Database) : EventListContext :=
  {| event_types := Event.EVENT_TYPE_CHOICES;
     severities := Event.SEVERITY_CHOICES;
     years := Event_years db;
     event_current_filters := GET request;
     event_current_sort := QueryDict_get (GET request) "sort" "-event_date" |}.

(** [BookmarkListView.get_queryset], for the logged-in user with key [u]. *)
Definition BookmarkListView_get_queryset (u : Z) (db : Database)
    : QuerySet ReefBookmark.t :=
  qs_filter (λ o, ReefBookmark.user o.2 = u)
    (objects_all ReefBookmark_ordering (ReefBookmark_objects db)).

(** The object list of [BookmarkListView], behind [LoginRequiredMixin]. *)
Definition BookmarkListView_object_list (request : HttpRequest)
    (db : Database) : dispatched (list (Z * ReefBookmark.t)) :=
  match user request with
  | AnonymousUser => LoginRedirect
  | CustomUser u => Handled (evaluate (BookmarkListView_get_queryset u db))
  end.

(** ** models.py: what deleting a user does *)

(** A foreign key to a user declared with [on_delete=models.SET_NULL]. *)
Definition set_null (u : Z) (fk : option Z) : option Z :=
  if bool_decide (fk = Some u) then None else fk.

Definition Reef_set_created_by (v : option Z) (r : Reef.t) : Reef.t :=
  {| Reef.name := Reef.name r; Reef.region := Reef.region r;
     Reef.country := Reef.country r; Reef.latitude := Reef.latitude r;
     Reef.longitude := Reef.longitude r;
     Reef.description := Reef.description r;
     Reef.area_km2 := Reef.area_km2 r;
     Reef.depth_meters := Reef.depth_meters r;
     Reef.health_status := Reef.health_status r;
     Reef.created_at := Reef.created_at r;
     Reef.updated_at := Reef.updated_at r; Reef.created_by := v |}.

Definition Event_set_reported_by (v : option Z) (e : Event.t) : Event.t :=
  {| Event.reef := Event.reef e; Event.event_type := Event.event_type e;
     Event.title := Event.title e; Event.description := Event.description e;
     Event.severity := Event.severity e;
     Event.event_date := Event.event_date e; Event.reported_by := v;
     Event.created_at := Event.created_at e;
     Event.updated_at := Event.updated_at e;
     Event.resolved := Event.resolved e; Event.notes := Event.notes e |}.

Definition Article_set_author (v : option Z) (a : Article.t) : Article.t :=
  {| Article.title := Article.title a; Article.slug := Article.slug a;
     Article.category := Article.category a;
     Article.content := Article.content a;
     Article.excerpt := Article.excerpt a; Article.author := v;
     Article.published := Article.published a;
     Article.featured := Article.featured a;
     Article.created_at := Article.created_at a;
     Article.updated_at := Article.updated_at a |}.

Definition ImageGallery_set_uploaded_by (v : option Z) (g : ImageGallery.t)
    : ImageGallery.t :=
  {| ImageGallery.reef := ImageGallery.reef g;
     ImageGallery.event := ImageGallery.event g;
     ImageGallery.media_type := ImageGallery.media_type g;
     ImageGallery.title := ImageGallery.title g;
     ImageGallery.description := ImageGallery.description g;
     ImageGallery.file := ImageGallery.file g;
     ImageGallery.uploaded_by := v;
     ImageGallery.uploaded_at := ImageGallery.uploaded_at g |}.

(** [user.delete()]: the bookmarks of the user go with it
    ([ReefBookmark.user] is declared with [CASCADE]); the reefs, events,
    articles and gallery items the user made stay and lose their author
    ([created_by], [reported_by], [author], [uploaded_by] are declared with
    [SET_NULL]). *)
Definition CustomUser_delete (u : Z) (db : Database) : Database :=
  {| Reef_objects :=
       (λ r, Reef_set_created_by (set_null u (Reef.created_by r)) r)
         <$> Reef_objects db;
     Event_objects :=
       (λ e, Event_set_reported_by (set_null u (Event.reported_by e)) e)
         <$> Event_objects db;
     Article_objects :=
       (λ a, Article_set_author (set_null u (Article.author a)) a)
         <$> Article_objects db;
     ImageGallery_objects :=
       (λ g, ImageGallery_set_uploaded_by
               (set_null u (ImageGallery.uploaded_by g)) g)
         <$> ImageGallery_objects db;
     ReefBookmark_objects :=
       filter (λ o : Z * ReefBookmark.t, ReefBookmark.user o.2 ≠ u)
         (ReefBookmark_objects db);
     Event_seq := Event_seq db; ImageGallery_seq := ImageGallery_seq db;
     ReefBookmark_seq := ReefBookmark_seq db |}.

(** ** Properties the statements are written with *)

(** User [u] has a bookmark on reef [r]. *)
Definition bookmarked (u r : Z) (db : Database) : Prop :=
  ∃ k b, ReefBookmark_objects db !! k = Some b ∧ same_pair u r (k, b).

(** No two rows of the bookmark table have the same (user, reef) pair. *)
Definition unique_together (t : gmap Z ReefBookmark.t) : Prop :=
  ∀ k1 k2 b1 b2,
    t !! k1 = Some b1 → t !! k2 = Some b2 →
    ReefBookmark.user b1 = ReefBookmark.user b2 →
    ReefBookmark.reef b1 = ReefBookmark.reef b2 → k1 = k2.

(** The sequence of the bookmark table is ahead of every key in use. *)
Definition keys_below_seq (db : Database) : Prop :=
  ∀ k, is_Some (ReefBookmark_objects db !! k) → (k < ReefBookmark_seq db)%Z.

(** The database after a call of the toggle endpoint; a call that raises
    (the reef is not found) has written nothing. *)
Definition toggle_step (db : Database) (call : HttpRequest * Z) : Database :=
  match bookmark_toggle call.1 call.2 db with
  | Ok (_, _, db') => db'
  | Raise _ => db
  end.

Definition toggle_all (db : Database) (calls : list (HttpRequest * Z))
    : Database :=
  foldl toggle_step db calls.

Definition toggle_response (bookmarked : bool) (message : string)
    : JsonResponse :=
  {| status := 200;
     body := [("bookmarked", JBool bookmarked); ("message", JString message)] |}.

Definition new_bookmark (u r now : Z) : ReefBookmark.t :=
  {| ReefBookmark.user := u; ReefBookmark.reef := r;
     ReefBookmark.created_at := now; ReefBookmark.notes := "" |}.

(** [l] without the first occurrence of [x], if it has one. *)
Fixpoint remove_first (x : Z) (l : list Z) : list Z :=
  match l with
  | [] => []
  | y :: l' => if bool_decide (x = y) then l' else y :: remove_first x l'
  end.

(** The reef ids among [pks] whose detail page exists. *)
Definition existing_reefs (db : Database) (pks : list Z) : list Z :=
  filter (λ pk, is_Some (Reef_objects db !! pk)) pks.

(** The ordering term [order_by] builds from a sort key, if the field
    exists. *)
Definition sort_key {row} (fields : string → option (order_term row))
    (sort : string) : option (order_term row) :=
  match sort with
  | String "-" rest => descending <$> fields rest
  | _ => fields sort
  end.

(** Swapping the arguments of an ordering term mirrors its answer. *)
Definition antisym_term {row} (c : order_term row) : Prop :=
  ∀ a b, c b a = CompOpp (c a b).

(** The year parameter of an event listing is absent, empty, or a year a
    date can have. *)
Definition year_accepted (request : HttpRequest) : Prop :=
  let y := QueryDict_get (GET request) "year" "" in
  y = "" ∨ ∃ n, python_int y = Some n ∧ 1 ≤ n ≤ 9999.

(** [field] contains [query] when case is ignored. *)
Definition contains_ignoring_case (field query : string) : Prop :=
  ∃ before after, lower field = before +:+ lower query +:+ after.

(** Every gallery item that names an event names one of the table. *)
Definition gallery_events_exist (db : Database) : Prop :=
  ∀ k g e,
    ImageGallery_objects db !! k = Some g → ImageGallery.event g = Some e →
    is_Some (Event_objects db !! e).

Definition video_extensions : list string :=
  ["mp4"; "mov"; "avi"; "mkv"; "webm"].

Definition image_extensions : list string :=
  ["jpg"; "jpeg"; "png"; "gif"; "bmp"; "webp"].

(** The extension [clean] looks at. *)
Definition file_ext (f : UploadedFile) : string :=
  lower (split_last (file_name f) (file_name f)).

(** The session does not hold a dict where the views keep the list of
    viewed reefs. *)
Definition not_a_dict (request : HttpRequest) : Prop :=
  ∀ d, session request !! "viewed_reefs" ≠ Some (SDict d).


(** The rows each listing selects, whatever order they come in. *)
Definition Reef_selected (request : HttpRequest) (db : Database)
    (o : Z * Reef.t) : Prop :=
  let search := QueryDict_get (GET request) "search" "" in
  let region := QueryDict_get (GET request) "region" "" in
  let health := QueryDict_get (GET request) "health" "" in
  Reef_objects db !! o.1 = Some o.2 ∧
  (search ≠ "" → Reef_search search o) ∧
  (region ≠ "" → Reef.region o.2 = region) ∧
  (health ≠ "" → Reef.health_status o.2 = health).

Definition Article_selected (request : HttpRequest) (db : Database)
    (o : Z * Article.t) : Prop :=
  let search := QueryDict_get (GET request) "search" "" in
  let category := QueryDict_get (GET request) "category" "" in
  Article_objects db !! o.1 = Some o.2 ∧
  Article.published o.2 = true ∧
  (search ≠ "" → Article_search search o) ∧
  (category ≠ "" → Article.category o.2 = category).

Definition Event_selected (request : HttpRequest) (db : Database)
    (o : Z * Event.t) : Prop :=
  let event_type := QueryDict_get (GET request) "event_type" "" in
  let severity := QueryDict_get (GET request) "severity" "" in
  let y := QueryDict_get (GET request) "year" "" in
  let resolved := QueryDict_get (GET request) "resolved" "" in
  Event_objects db !! o.1 = Some o.2 ∧
  (event_type ≠ "" → Event.event_type o.2 = event_type) ∧
  (severity ≠ "" → Event.severity o.2 = severity) ∧
  (y ≠ "" → python_int y = Some (year (Event.event_date o.2))) ∧
  (resolved ∈ ["true"; "false"] →
   Event.resolved o.2 = bool_decide (resolved = "true")).

(** ** A small database and a few requests to run the code on *)

Definition example_reef (name region health : string) (created_at : Z) : Reef.t :=
  {| Reef.name := name; Reef.region := region; Reef.country := "Australia";
     Reef.latitude := (-18)%Q; Reef.longitude := 147%Q;
     Reef.description := "A reef of the outer shelf";
     Reef.area_km2 := 12%Q; Reef.depth_meters := 35%Q;
     Reef.health_status := health; Reef.created_at := created_at;
     Reef.updated_at := created_at; Reef.created_by := None |}.

Definition example_reefs : gmap Z Reef.t :=
  <[1 := example_reef "Ribbon Reef" "pacific" "good" 10]>
    (<[2 := example_reef "Osprey Reef" "pacific" "fair" 20]>
       (<[3 := example_reef "Shaab Rumi" "red_sea" "good" 30]> ∅)).

Definition example_db : Database :=
  {| Reef_objects := example_reefs; Event_objects := ∅; Article_objects := ∅;
     ImageGallery_objects := ∅; ReefBookmark_objects := ∅;
     Event_seq := 1; ImageGallery_seq := 1; ReefBookmark_seq := 1 |}.

(** The same database where user 7 keeps a bookmark with notes on reef 1. *)
Definition example_db_bookmarked : Database :=
  set_bookmarks
    {[ 1 := {| ReefBookmark.user := 7; ReefBookmark.reef := 1;
               ReefBookmark.created_at := 50;
               ReefBookmark.notes := "dive at dawn" |} ]}
    2 example_db.

Definition example_request (u : User) (get post : list (string * string))
    : HttpRequest :=
  {| user := u; GET := list_to_map get; POST := list_to_map post; FILES := ∅;
     session := ∅; session_modified := false; messages := []; now := 100 |}.

Definition example_article (title slug : string) (published : bool) : Article.t :=
  {| Article.title := title; Article.slug := slug;
     Article.category := "research"; Article.content := "Corals and heat";
     Article.excerpt := "Heat"; Article.author := None;
     Article.published := published; Article.featured := false;
     Article.created_at := 40; Article.updated_at := 40 |}.

(** The example database with a published article and a draft. *)
Definition example_db_articles : Database :=
  {| Reef_objects := example_reefs; Event_objects := ∅;
     Article_objects :=
       <[1 := example_article "Bleaching" "bleaching" true]>
         (<[2 := example_article "Draft" "draft" false]> ∅);
     ImageGallery_objects := ∅; ReefBookmark_objects := ∅;
     Event_seq := 1; ImageGallery_seq := 1; ReefBookmark_seq := 1 |}.

Definition example_event (reef : Z) (event_type severity : string) (y : Z)
    : Event.t :=
  {| Event.reef := reef; Event.event_type := event_type;
     Event.title := "Survey"; Event.description := "Transect along the crest";
     Event.severity := severity;
     Event.event_date := {| year := y; month := 3; day := 14 |};
     Event.reported_by := None; Event.created_at := 60;
     Event.updated_at := 60; Event.resolved := false; Event.notes := "" |}.

Definition example_item (reef event : option Z) : ImageGallery.t :=
  {| ImageGallery.reef := reef; ImageGallery.event := event;
     ImageGallery.media_type := "photo"; ImageGallery.title := "Crest";
     ImageGallery.description := ""; ImageGallery.file := "uploads/crest.jpg";
     ImageGallery.uploaded_by := None; ImageGallery.uploaded_at := 70 |}.

(** The example database with an event on reef 1 and one on reef 2, and
    three gallery items: one on reef 1, one on the event of reef 1, one on
    reef 2 and its event. *)
Definition example_db_events : Database :=
  {| Reef_objects := example_reefs;
     Event_objects :=
       <[1 := example_event 1 "bleaching" "high" 2024]>
         (<[2 := example_event 2 "monitoring" "low" 2023]> ∅);
     Article_objects := ∅;
     ImageGallery_objects :=
       <[1 := example_item (Some 1) None]>
         (<[2 := example_item None (Some 1)]>
            (<[3 := example_item (Some 2) (Some 2)]> ∅));
     ReefBookmark_objects := ∅;
     Event_seq := 3; ImageGallery_seq := 4; ReefBookmark_seq := 1 |}.

(** A date parser to run the forms with: it reads one date. *)
Definition example_strptime (s : string) : option date :=
  if String.eqb s "2024-03-14"
  then Some {| year := 2024; month := 3; day := 14 |}
  else None.

(** A report that also posts an event type and, for the sighting form, a
    severity. *)
Definition example_report : list (string * string) :=
  [("reef", "1"); ("title", "Oil sheen"); ("description", "Sheen on the lagoon");
   ("severity", "high"); ("event_date", "2024-03-14");
   ("event_type", "damage")].

Definition example_upload (name : string) (size : Z) : gmap string UploadedFile :=
  {[ "file" := {| file_name := name; file_size := size;
                  content_type := "application/octet-stream" |} ]}.

Definition example_media (media_type : string) : gmap string string :=
  list_to_map [("media_type", media_type); ("title", "Crest at low tide")].

(** A validator that accepts every file. *)
Definition accept_all (f : UploadedFile) : option string := None.

Definition example_filename (now : Z) (name : string) : string :=
  "uploads/" +:+ name.

(** An ordering term that compares like a total preorder: mirrored when the
    arguments are swapped, and transitive, with ties only between ties. *)
Definition preorder_term {row} (c : order_term row) : Prop :=
  antisym_term c ∧
  ∀ a b d, c a b ≠ Gt → c b d ≠ Gt →
           c a d ≠ Gt ∧ (c a d = Eq → c a b = Eq ∧ c b d = Eq).

(** A visitor going through reef listings and reef pages with one session:
    each request comes with its own query string, the session is the one
    the request before left. Of a listing request it is [get_queryset]
    that writes the session; [get_context_data] only reads it. *)
Inductive page :=
  | ReefList (get : gmap string string)
  | ReefDetail (pk : Z).

Definition with_GET (get : gmap string string) (r : HttpRequest) : HttpRequest :=
  {| user := user r; GET := get; POST := POST r; FILES := FILES r;
     session := session r; session_modified := session_modified r;
     messages := messages r; now := now r |}.

Definition visit (db : Database) (request : HttpRequest) (p : page)
    : HttpRequest :=
  match p with
  | ReefList get =>
      match ReefListView_get_queryset (with_GET get request) db with
      | Ok (_, request') => request'
      | Raise _ => with_GET get request
      end
  | ReefDetail pk => view_reef db request pk
  end.

Definition browse (db : Database) (request : HttpRequest) (pages : list page)
    : HttpRequest :=
  foldl (visit db) request pages.

(** The reef pages and the query strings of the listings among [pages]. *)
Definition detail_pks (pages : list page) : list Z :=
  omap (λ p, match p with ReefDetail pk => Some pk | ReefList _ => None end)
    pages.

Definition listing_queries (pages : list page) : list (gmap string string) :=
  omap (λ p, match p with ReefList get => Some get | ReefDetail _ => None end)
    pages.

(** The three filters of a query string, an absent one as the empty
    string. *)
Definition reef_filters (get : gmap string string) : gmap string string :=
  list_to_map [("search", QueryDict_get get "search" "");
               ("region", QueryDict_get get "region" "");
               ("health", QueryDict_get get "health" "")].

(** Table [t'] is table [t] with the author column (read with [author],
    written with [set_author]) set to NULL in the rows of user [u] and
    nothing else changed: no row added, removed or moved. *)
Definition nulled_author {row} (author : row → option Z)
    (set_author : option Z → row → row) (u : Z) (t t' : gmap Z row) : Prop :=
  ∀ k,
    match t !! k with
    | None => t' !! k = None
    | Some r =>
        ∃ r', t' !! k = Some r' ∧ author r' ≠ Some u ∧
              if decide (author r = Some u)
              then author r' = None ∧ set_author (Some u) r' = r
              else r' = r
    end.

(** * Proofs *)

(** ** Queries on a table *)

Section orm_facts.
Context {row : Type}.
Implicit Types (t : gmap Z row) (o : Z * row).

Lemma filter_map_to_list_nil (P : Z * row → Prop) `{!∀ o, Decision (P o)} t :
  filter P (map_to_list t) = [] ↔ ∀ k r, t !! k = Some r → ¬ P (k, r).
Proof.
  split.
  - intros Hnil k r Hk HP.
    assert ((k, r) ∈ filter P (map_to_list t)) as Hin.
    { apply list_elem_of_filter. split; [done|]. by apply elem_of_map_to_list. }
    rewrite Hnil in Hin. by apply elem_of_nil in Hin.
  - intros Hno. apply elem_of_nil_inv. intros [k r] Hin.
    apply list_elem_of_filter in Hin as [HP Hin].
    apply elem_of_map_to_list in Hin. by eapply Hno.
Qed.

Lemma filter_map_to_list_elem (P : Z * row → Prop) `{!∀ o, Decision (P o)} t o :
  o ∈ filter P (map_to_list t) ↔ t !! o.1 = Some o.2 ∧ P o.
Proof.
  rewrite list_elem_of_filter. destruct o as [k r]; simpl.
  rewrite elem_of_map_to_list. tauto.
Qed.

Lemma NoDup_filter_map_to_list (P : Z * row → Prop) `{!∀ o, Decision (P o)} t :
  NoDup (filter P (map_to_list t)).
Proof. apply NoDup_filter, NoDup_map_to_list. Qed.

Lemma filter_pk_map_to_list t k :
  filter (λ o, o.1 = k) (map_to_list t) =
    match t !! k with Some r => [(k, r)] | None => [] end.
Proof.
  destruct (t !! k) as [r|] eqn:Hk.
  - pose proof (NoDup_filter_map_to_list (λ o, o.1 = k) t) as Hnd.
    assert ((k, r) ∈ filter (λ o, o.1 = k) (map_to_list t)) as Hin
      by by apply filter_map_to_list_elem.
    assert (∀ o, o ∈ filter (λ o, o.1 = k) (map_to_list t) → o = (k, r)) as Hall.
    { intros [k' r'] Ho. apply filter_map_to_list_elem in Ho as [Ho Hk'].
      simpl in *. subst k'. congruence. }
    destruct (filter (λ o, o.1 = k) (map_to_list t)) as [|o1 [|o2 l]].
    + by apply elem_of_nil in Hin.
    + f_equal. apply Hall. left.
    + exfalso. apply NoDup_cons in Hnd as [Hnot _]. apply Hnot.
      rewrite (Hall o1) by left. rewrite (Hall o2) by (right; left). left.
  - apply filter_map_to_list_nil. intros k' r' Hk' Heq. simpl in Heq.
    subst k'. congruence.
Qed.

Lemma get_object_or_404_lookup t k :
  get_object_or_404 t k =
    match t !! k with Some r => Ok (k, r) | None => Raise Http404 end.
Proof.
  unfold get_object_or_404, qs_get, qs_filter, objects_all. simpl.
  rewrite filter_pk_map_to_list. by destruct (t !! k).
Qed.
End orm_facts.

(** ** The bookmark table *)

Lemma ReefBookmark_get_missing u r db :
  ¬ bookmarked u r db → ReefBookmark_get u r db = Raise DoesNotExist.
Proof.
  intros Hno. unfold ReefBookmark_get, qs_get, qs_filter, objects_all. simpl.
  assert (filter (same_pair u r) (map_to_list (ReefBookmark_objects db)) = [])
    as ->; [|done].
  apply filter_map_to_list_nil. intros k b Hk HP. apply Hno. by exists k, b.
Qed.

Lemma ReefBookmark_get_found u r db k b :
  unique_together (ReefBookmark_objects db) →
  ReefBookmark_objects db !! k = Some b → same_pair u r (k, b) →
  ReefBookmark_get u r db = Ok (k, b).
Proof.
  intros Huniq Hk HP.
  unfold ReefBookmark_get, qs_get, qs_filter, objects_all. simpl.
  set (l := filter (same_pair u r) (map_to_list (ReefBookmark_objects db))).
  assert ((k, b) ∈ l) as Hin by by apply filter_map_to_list_elem.
  assert (∀ o, o ∈ l → o = (k, b)) as Hall.
  { intros [k' b'] Ho. apply filter_map_to_list_elem in Ho as [Hk' HP'].
    simpl in Hk'. destruct HP as [Hu Hr], HP' as [Hu' Hr']. simpl in *.
    assert (k' = k) as -> by (eapply Huniq; eauto; congruence).
    congruence. }
  pose proof (NoDup_filter_map_to_list (same_pair u r) (ReefBookmark_objects db))
    as Hnd. fold l in Hnd.
  destruct l as [|o1 [|o2 l']].
  - by apply elem_of_nil in Hin.
  - f_equal. apply Hall. left.
  - exfalso. apply NoDup_cons in Hnd as [Hnot _]. apply Hnot.
    rewrite (Hall o1) by left. rewrite (Hall o2) by (right; left). left.
Qed.

Lemma ReefBookmark_create_fresh u r now db :
  ¬ bookmarked u r db →
  ReefBookmark_objects db !! ReefBookmark_seq db = None →
  ReefBookmark_create u r now db =
    Ok (ReefBookmark_seq db, new_bookmark u r now,
        set_bookmarks
          (<[ReefBookmark_seq db := new_bookmark u r now]> (ReefBookmark_objects db))
          (ReefBookmark_seq db + 1) db).
Proof.
  intros Hno Hseq. unfold ReefBookmark_create. rewrite Hseq.
  assert (filter (same_pair u r) (map_to_list (ReefBookmark_objects db)) = [])
    as ->; [|done].
  apply filter_map_to_list_nil. intros k b Hk HP. apply Hno. by exists k, b.
Qed.

(** An insert goes through only where it keeps the pairs unique. *)
Lemma ReefBookmark_create_unique u r now db o db' :
  unique_together (ReefBookmark_objects db) →
  ReefBookmark_create u r now db = Ok (o, db') →
  unique_together (ReefBookmark_objects db').
Proof.
  intros Huniq. unfold ReefBookmark_create.
  destruct (ReefBookmark_objects db !! ReefBookmark_seq db) eqn:Hseq; [done|].
  destruct (filter _ _) eqn:Hf; [|done].
  intros [= <- <-]. simpl.
  pose proof (proj1 (filter_map_to_list_nil (same_pair u r) _) Hf) as Hno.
  intros k1 k2 b1 b2 H1 H2 Hu Hr.
  apply lookup_insert_Some in H1 as [[<- <-]|[Hne1 H1]];
    apply lookup_insert_Some in H2 as [[<- <-]|[Hne2 H2]]; simpl in *.
  - done.
  - exfalso. apply (Hno k2 b2 H2). by split.
  - exfalso. apply (Hno k1 b1 H1). by split.
  - by eapply Huniq.
Qed.

Lemma unique_together_delete k t :
  unique_together t → unique_together (delete k t).
Proof.
  intros Huniq k1 k2 b1 b2 H1 H2.
  apply lookup_delete_Some in H1 as [_ H1].
  apply lookup_delete_Some in H2 as [_ H2]. by eapply Huniq.
Qed.

Lemma ReefBookmark_get_or_create_unique u r now db o created db' :
  unique_together (ReefBookmark_objects db) →
  ReefBookmark_get_or_create u r now db = Ok (o, created, db') →
  unique_together (ReefBookmark_objects db').
Proof.
  intros Huniq. unfold ReefBookmark_get_or_create.
  destruct (ReefBookmark_get u r db) as [o1|e]; [by intros [= <- <- <-]|].
  destruct e; try done.
  destruct (ReefBookmark_create u r now db) as [[o2 db2]|e] eqn:Hc.
  - intros [= <- <- <-]. by eapply ReefBookmark_create_unique.
  - by destruct e.
Qed.

Lemma bookmark_toggle_unique request reef_id db resp request' db' :
  unique_together (ReefBookmark_objects db) →
  bookmark_toggle request reef_id db = Ok (resp, request', db') →
  unique_together (ReefBookmark_objects db').
Proof.
  intros Huniq. unfold bookmark_toggle.
  destruct (user request) as [|u]; [by intros [= <- <- <-]|].
  destruct (get_object_or_404 _ _) as [reef|]; [|done]. simpl.
  destruct (ReefBookmark_get_or_create _ _ _ _) as [[[o created] db1]|] eqn:Hg;
    [|done].
  simpl. apply ReefBookmark_get_or_create_unique in Hg; [|done].
  destruct created; simpl; intros [= <- <- <-]; [done|].
  by apply unique_together_delete.
Qed.

Lemma toggle_step_unique db call :
  unique_together (ReefBookmark_objects db) →
  unique_together (ReefBookmark_objects (toggle_step db call)).
Proof.
  intros Huniq. unfold toggle_step.
  destruct (bookmark_toggle _ _ _) as [[[resp request'] db']|] eqn:Ht; [|done].
  by eapply bookmark_toggle_unique.
Qed.

(** The two transitions of the toggle. *)
Lemma bookmark_toggle_existing request u reef_id reef db k b :
  user request = CustomUser u →
  Reef_objects db !! reef_id = Some reef →
  unique_together (ReefBookmark_objects db) →
  ReefBookmark_objects db !! k = Some b → same_pair u reef_id (k, b) →
  bookmark_toggle request reef_id db =
    Ok (toggle_response false ("Removed " +:+ Reef.name reef +:+ " from bookmarks"),
        messages_success ("Removed " +:+ Reef.name reef +:+ " from bookmarks") request,
        ReefBookmark_delete k db).
Proof.
  intros Hu Hreef Huniq Hk HP. unfold bookmark_toggle. rewrite Hu.
  rewrite get_object_or_404_lookup, Hreef. simpl.
  unfold ReefBookmark_get_or_create.
  by rewrite (ReefBookmark_get_found _ _ _ _ _ Huniq Hk HP).
Qed.

Lemma bookmark_toggle_absent request u reef_id reef db :
  user request = CustomUser u →
  Reef_objects db !! reef_id = Some reef →
  ¬ bookmarked u reef_id db →
  ReefBookmark_objects db !! ReefBookmark_seq db = None →
  bookmark_toggle request reef_id db =
    Ok (toggle_response true ("Added " +:+ Reef.name reef +:+ " to bookmarks"),
        messages_success ("Added " +:+ Reef.name reef +:+ " to bookmarks") request,
        set_bookmarks
          (<[ReefBookmark_seq db := new_bookmark u reef_id (now request)]>
             (ReefBookmark_objects db))
          (ReefBookmark_seq db + 1) db).
Proof.
  intros Hu Hreef Hno Hseq. unfold bookmark_toggle. rewrite Hu.
  rewrite get_object_or_404_lookup, Hreef. simpl.
  unfold ReefBookmark_get_or_create.
  rewrite (ReefBookmark_get_missing _ _ _ Hno).
  by rewrite (ReefBookmark_create_fresh _ _ _ _ Hno Hseq).
Qed.

Lemma keys_below_seq_fresh db :
  keys_below_seq db → ReefBookmark_objects db !! ReefBookmark_seq db = None.
Proof.
  intros Hb. destruct (_ !! _) eqn:Hk; [|done].
  assert (ReefBookmark_seq db < ReefBookmark_seq db); [|lia].
  apply Hb. by rewrite Hk.
Qed.

(** The sequence stays ahead of the keys through every call. *)
Lemma bookmark_toggle_keys_below_seq request reef_id db resp request' db' :
  keys_below_seq db →
  bookmark_toggle request reef_id db = Ok (resp, request', db') →
  keys_below_seq db'.
Proof.
  intros Hseq. unfold bookmark_toggle.
  destruct (user request) as [|u]; [by intros [= <- <- <-]|].
  destruct (get_object_or_404 _ _) as [reef|]; [|done]. simpl.
  assert (∀ o created db1,
            ReefBookmark_get_or_create u reef.1 (now request) db
            = Ok (o, created, db1) → keys_below_seq db1) as Hcreate.
  { intros o created db1. unfold ReefBookmark_get_or_create.
    destruct (ReefBookmark_get u reef.1 db) as [o1|e]; [by intros [= <- <- <-]|].
    destruct e; try done. unfold ReefBookmark_create.
    destruct (ReefBookmark_objects db !! ReefBookmark_seq db) eqn:Hfree; [done|].
    destruct (filter _ _); [|done]. intros [= <- <- <-].
    intros k [b Hk]. simpl in *.
    apply lookup_insert_Some in Hk as [[<- _]|[_ Hk]]; [lia|].
    assert (k < ReefBookmark_seq db) by (apply Hseq; by rewrite Hk). lia. }
  destruct (ReefBookmark_get_or_create _ _ _ _) as [[[o created] db1]|] eqn:Hg;
    [|done].
  simpl. specialize (Hcreate _ _ _ eq_refl).
  destruct created; simpl; intros [= <- <- <-]; [done|].
  intros k [b Hk]. simpl in Hk. apply lookup_delete_Some in Hk as [_ Hk].
  apply Hcreate. by rewrite Hk.
Qed.

Lemma toggle_all_keys_below_seq db calls :
  keys_below_seq db → keys_below_seq (toggle_all db calls).
Proof.
  revert db. induction calls as [|call calls IH]; intros db Hseq; [done|].
  simpl. apply IH. unfold toggle_step.
  destruct (bookmark_toggle _ _ _) as [[[resp request'] db']|] eqn:Ht; [|done].
  by eapply bookmark_toggle_keys_below_seq.
Qed.

Lemma bookmarked_delete u r k b db :
  unique_together (ReefBookmark_objects db) →
  ReefBookmark_objects db !! k = Some b → same_pair u r (k, b) →
  ¬ bookmarked u r (ReefBookmark_delete k db).
Proof.
  intros Huniq Hk [Hu Hr] (k' & b' & Hk' & Hu' & Hr'). simpl in *.
  apply lookup_delete_Some in Hk' as [Hne Hk'].
  apply Hne. eapply Huniq; eauto; congruence.
Qed.

Lemma toggle_step_existing request u reef_id reef db k b :
  user request = CustomUser u →
  Reef_objects db !! reef_id = Some reef →
  unique_together (ReefBookmark_objects db) →
  ReefBookmark_objects db !! k = Some b → same_pair u reef_id (k, b) →
  toggle_step db (request, reef_id) = ReefBookmark_delete k db.
Proof.
  intros. unfold toggle_step. simpl.
  by erewrite bookmark_toggle_existing.
Qed.

Lemma toggle_step_absent request u reef_id reef db :
  user request = CustomUser u →
  Reef_objects db !! reef_id = Some reef →
  ¬ bookmarked u reef_id db → keys_below_seq db →
  toggle_step db (request, reef_id) =
    set_bookmarks
      (<[ReefBookmark_seq db := new_bookmark u reef_id (now request)]>
         (ReefBookmark_objects db))
      (ReefBookmark_seq db + 1) db.
Proof.
  intros ???? . unfold toggle_step. simpl.
  erewrite bookmark_toggle_absent; eauto using keys_below_seq_fresh.
Qed.

(** C1 (as amended). For an authenticated user [u] and an existing reef, in
    a database whose bookmark pairs are unique and whose bookmark sequence
    is ahead of the keys in use: when a bookmark for the pair exists the
    toggle deletes it and reports [bookmarked = false]; when none exists it
    creates exactly one and reports [bookmarked = true]; toggling twice from
    a state without a bookmark for the pair gives back the rows of the
    bookmark table as they were; toggling twice from any state leaves the
    set of bookmarked (user, reef) pairs as it was. *)
Theorem bookmark_toggle_transitions request1 request2 u reef_id reef db :
  user request1 = CustomUser u → user request2 = CustomUser u →
  Reef_objects db !! reef_id = Some reef →
  unique_together (ReefBookmark_objects db) → keys_below_seq db →
  let twice := toggle_all db [(request1, reef_id); (request2, reef_id)] in
  let seq := ReefBookmark_seq db in
  let new := new_bookmark u reef_id (now request1) in
  (bookmarked u reef_id db →
     ∃ k b,
       ReefBookmark_objects db !! k = Some b ∧ same_pair u reef_id (k, b) ∧
       bookmark_toggle request1 reef_id db =
         Ok (toggle_response false
               ("Removed " +:+ Reef.name reef +:+ " from bookmarks"),
             messages_success
               ("Removed " +:+ Reef.name reef +:+ " from bookmarks") request1,
             ReefBookmark_delete k db) ∧
       ¬ bookmarked u reef_id (ReefBookmark_delete k db)) ∧
  (¬ bookmarked u reef_id db →
     bookmark_toggle request1 reef_id db =
       Ok (toggle_response true
             ("Added " +:+ Reef.name reef +:+ " to bookmarks"),
           messages_success
             ("Added " +:+ Reef.name reef +:+ " to bookmarks") request1,
           set_bookmarks (<[seq := new]> (ReefBookmark_objects db)) (seq + 1) db) ∧
     ReefBookmark_objects db !! seq = None ∧
     ∀ k b, <[seq := new]> (ReefBookmark_objects db) !! k = Some b →
            same_pair u reef_id (k, b) → k = seq) ∧
  (¬ bookmarked u reef_id db →
     ReefBookmark_objects twice = ReefBookmark_objects db) ∧
  (∀ u' r', bookmarked u' r' twice ↔ bookmarked u' r' db).
Proof.
  intros Hu1 Hu2 Hreef Huniq Hseq twice seq new.
  pose proof (keys_below_seq_fresh _ Hseq) as Hfresh.
  assert (¬ bookmarked u reef_id db →
          ReefBookmark_objects twice = ReefBookmark_objects db) as Habsent.
  { intros Hno. unfold twice, toggle_all. simpl.
    rewrite (toggle_step_absent _ _ _ _ _ Hu1 Hreef Hno Hseq).
    erewrite (toggle_step_existing request2 u reef_id reef _ seq new); eauto.
    - simpl. rewrite delete_insert_eq. by apply delete_id.
    - simpl. intros k1 k2 b1 b2 H1 H2 Hu Hr.
      apply lookup_insert_Some in H1 as [[<- <-]|[Hne1 H1]];
        apply lookup_insert_Some in H2 as [[<- <-]|[Hne2 H2]]; simpl in *.
      + done.
      + exfalso. apply Hno. exists k2, b2. by repeat split.
      + exfalso. apply Hno. exists k1, b1. by repeat split.
      + by eapply Huniq.
    - simpl. by rewrite lookup_insert_eq.
    - by split. }
  split; [|split; [|split]].
  - intros (k & b & Hk & HP). exists k, b. split; [done|]. split; [done|].
    split; [by eapply bookmark_toggle_existing|by eapply bookmarked_delete].
  - intros Hno. split; [by eapply bookmark_toggle_absent|]. split; [done|].
    intros k b Hk HP. apply lookup_insert_Some in Hk as [[<- _]|[_ Hk]]; [done|].
    exfalso. apply Hno. by exists k, b.
  - done.
  - intros u' r'.
    destruct (decide (bookmarked u reef_id db)) as [(k & b & Hk & HP)|Hno].
    2:{ unfold bookmarked. by rewrite Habsent. }
    unfold twice, toggle_all. simpl.
    rewrite (toggle_step_existing _ _ _ _ _ _ _ Hu1 Hreef Huniq Hk HP).
    assert (keys_below_seq (ReefBookmark_delete k db)) as Hseq'.
    { intros k' [b' Hk']. simpl in *. apply lookup_delete_Some in Hk' as [_ Hk'].
      apply Hseq. by rewrite Hk'. }
    rewrite (toggle_step_absent request2 u reef_id reef); try done.
    2:{ by eapply bookmarked_delete. }
    unfold bookmarked. simpl. fold seq. split.
    + intros (k' & b' & Hk' & HP').
      apply lookup_insert_Some in Hk' as [[<- <-]|[Hne Hk']].
      * exists k, b. split; [done|]. destruct HP, HP'. simpl in *.
        split; simpl; congruence.
      * apply lookup_delete_Some in Hk' as [_ Hk']. by exists k', b'.
    + intros (k' & b' & Hk' & HP').
      destruct (decide (k' = k)) as [->|Hne].
      * exists seq, (new_bookmark u reef_id (now request2)).
        rewrite lookup_insert_eq. split; [done|].
        assert (b' = b) as -> by congruence.
        destruct HP, HP'. simpl in *. split; simpl; congruence.
      * exists k', b'. split; [|done].
        assert (k' < seq) by (apply Hseq; by rewrite Hk').
        rewrite lookup_insert_ne by lia. by rewrite lookup_delete_ne.
Qed.

Lemma unique_together_empty : unique_together ∅.
Proof. intros k1 k2 b1 b2 H. by rewrite lookup_empty in H. Qed.

Lemma unique_together_singleton k b : unique_together {[ k := b ]}.
Proof.
  intros k1 k2 b1 b2 H1 H2 _ _.
  apply lookup_singleton_Some in H1 as [<- _].
  by apply lookup_singleton_Some in H2 as [<- _].
Qed.

Lemma bookmark_toggle_transitions_witness :
  bookmarked 7 1 example_db_bookmarked ∧
  (∀ u' r',
     bookmarked u' r'
       (toggle_all example_db_bookmarked
          [(example_request (CustomUser 7) [] [], 1);
           (example_request (CustomUser 7) [] [], 1)]) ↔
     bookmarked u' r' example_db_bookmarked).
Proof.
  split.
  - eexists 1, _. split; [reflexivity|]. by split.
  - apply (bookmark_toggle_transitions
             (example_request (CustomUser 7) [] [])
             (example_request (CustomUser 7) [] []) 7 1
             (example_reef "Ribbon Reef" "pacific" "good" 10)
             example_db_bookmarked).
    + reflexivity.
    + reflexivity.
    + reflexivity.
    + apply unique_together_singleton.
    + intros k [b Hk]. simpl in Hk.
      apply lookup_singleton_Some in Hk as [<- _]. reflexivity.
Defined.

(** C1 as the claim has it fails: toggling twice from a state where the
    bookmark exists does not give back the bookmark table. The bookmark of
    user 7 on reef 1, stored under key 1 with notes, comes back under key 2
    with empty notes. *)
Lemma bookmark_toggle_twice_not_identity :
  unique_together (ReefBookmark_objects example_db_bookmarked) ∧
  keys_below_seq example_db_bookmarked ∧
  ReefBookmark_objects
    (toggle_all example_db_bookmarked
       [(example_request (CustomUser 7) [] [], 1);
        (example_request (CustomUser 7) [] [], 1)])
  ≠ ReefBookmark_objects example_db_bookmarked.
Proof.
  split; [apply unique_together_singleton|]. split.
  - intros k [b Hk]. simpl in Hk.
    apply lookup_singleton_Some in Hk as [<- _]. reflexivity.
  - intros Heq. apply (f_equal (λ t, ReefBookmark.notes <$> t !! 2)) in Heq.
    vm_compute in Heq. discriminate.
Qed.

(** C2. No sequence of calls of the toggle endpoint, by whatever users and
    on whatever reef ids, takes a bookmark table without a duplicate
    (user, reef) pair to one with a duplicate: the lookup finds the row of
    the pair if there is one, and the insert is refused when the pair is
    already there. *)
Theorem toggle_all_unique_together db calls :
  unique_together (ReefBookmark_objects db) →
  unique_together (ReefBookmark_objects (toggle_all db calls)).
Proof.
  revert db. induction calls as [|call calls IH]; intros db Huniq; [done|].
  simpl. apply IH. by apply toggle_step_unique.
Qed.

Lemma toggle_all_unique_together_witness :
  unique_together
    (ReefBookmark_objects
       (toggle_all example_db_bookmarked
          [(example_request (CustomUser 7) [] [], 1);
           (example_request (CustomUser 8) [] [], 1);
           (example_request AnonymousUser [] [], 2);
           (example_request (CustomUser 7) [] [], 1);
           (example_request (CustomUser 8) [] [], 9)])).
Proof.
  apply (toggle_all_unique_together example_db_bookmarked).
  apply unique_together_singleton.
Defined.

(** C3. An unauthenticated call changes nothing and answers 401 with the
    body [{error: ...}]; an authenticated call on an existing reef answers
    with the body [{bookmarked: bool, message: string}], in any database
    that keeps the declared uniqueness of the pair and whose sequence is
    ahead of the keys in use. *)
Theorem bookmark_toggle_responses request reef_id db :
  (is_authenticated (user request) = false →
     bookmark_toggle request reef_id db =
       Ok ({| status := 401;
              body := [("error", JString "Authentication required")] |},
           request, db)) ∧
  (is_authenticated (user request) = true →
   is_Some (Reef_objects db !! reef_id) →
   unique_together (ReefBookmark_objects db) → keys_below_seq db →
     ∃ flag message request' db',
       bookmark_toggle request reef_id db =
         Ok ({| status := 200;
                body := [("bookmarked", JBool flag);
                         ("message", JString message)] |},
             request', db')).
Proof.
  split.
  - intros Hanon. unfold bookmark_toggle. by destruct (user request).
  - intros Hauth [reef Hreef] Huniq Hseq.
    destruct (user request) as [|u] eqn:Hu; [done|].
    destruct (decide (bookmarked u reef_id db)) as [(k & b & Hk & HP)|Hno].
    + eexists _, _, _, _. by eapply bookmark_toggle_existing.
    + eexists _, _, _, _.
      eapply bookmark_toggle_absent; eauto using keys_below_seq_fresh.
Qed.

Lemma bookmark_toggle_responses_witness :
  bookmark_toggle (example_request AnonymousUser [] []) 1 example_db_bookmarked =
    Ok ({| status := 401;
           body := [("error", JString "Authentication required")] |},
        example_request AnonymousUser [] [], example_db_bookmarked) ∧
  ∃ flag message request' db',
    bookmark_toggle (example_request (CustomUser 7) [] []) 1
      example_db_bookmarked =
      Ok ({| status := 200;
             body := [("bookmarked", JBool flag); ("message", JString message)] |},
          request', db').
Proof.
  split.
  - apply (bookmark_toggle_responses (example_request AnonymousUser [] []) 1
             example_db_bookmarked). reflexivity.
  - apply (bookmark_toggle_responses (example_request (CustomUser 7) [] []) 1
             example_db_bookmarked).
    + reflexivity.
    + by eexists.
    + apply unique_together_singleton.
    + intros k [b Hk]. simpl in Hk.
      apply lookup_singleton_Some in Hk as [<- _]. reflexivity.
Defined.

(** ** The recently viewed reefs *)

Lemma list_remove_remove_first x l :
  x ∈ l → list_remove x l = Ok (remove_first x l).
Proof.
  induction l as [|y l IH]; intros Hin; [by apply elem_of_nil in Hin|].
  simpl. case_bool_decide as Hxy; [done|].
  apply elem_of_cons in Hin as [?|Hin]; [done|]. by rewrite IH.
Qed.

Lemma remove_first_notin x l : x ∉ l → remove_first x l = l.
Proof.
  induction l as [|y l IH]; intros Hnot; [done|].
  apply not_elem_of_cons in Hnot as [Hne Hnot].
  simpl. rewrite bool_decide_eq_false_2 by done. by rewrite IH.
Qed.

Lemma remove_first_filter x l :
  NoDup l → remove_first x l = filter (λ y, y ≠ x) l.
Proof.
  induction 1 as [|y l Hy Hnd IH]; [done|].
  simpl. rewrite filter_cons. case_bool_decide as Hxy.
  - subst y. rewrite decide_False by (intros H; by apply H).
    rewrite <- IH. symmetry. by apply remove_first_notin.
  - rewrite decide_True by congruence. by rewrite IH.
Qed.

Lemma remove_first_split x l :
  x ∈ l →
  ∃ l1 l2, l = l1 ++ x :: l2 ∧ (x ∉ l1) ∧ remove_first x l = l1 ++ l2.
Proof.
  induction l as [|y l IH]; intros Hin; [by apply elem_of_nil in Hin|].
  simpl. case_bool_decide as Hxy.
  - subst y. exists [], l. split; [done|]. split; [apply not_elem_of_nil|done].
  - apply elem_of_cons in Hin as [?|Hin]; [done|].
    destruct (IH Hin) as (l1 & l2 & -> & Hnot & ->).
    exists (y :: l1), l2. split; [done|]. split; [|done].
    apply not_elem_of_cons. by split.
Qed.

Lemma take_remove_first x n l :
  take n (remove_first x (take (S n) l)) = take n (remove_first x l).
Proof.
  revert n. induction l as [|y l IH]; intros n; [done|].
  simpl. case_bool_decide as Hxy.
  - by rewrite take_take, Nat.min_id.
  - destruct n as [|n]; [done|]. simpl. by rewrite IH.
Qed.

Lemma remove_dups_snoc (x : Z) l :
  remove_dups (l ++ [x]) = filter (λ y, y ≠ x) (remove_dups l) ++ [x].
Proof.
  induction l as [|y l IH]; [done|].
  simpl. rewrite IH.
  destruct (decide_rel elem_of y (l ++ [x])) as [Hin|Hnot];
    destruct (decide_rel elem_of y l) as [Hin'|Hnot']; try done.
  - apply elem_of_app in Hin as [?|Hx%list_elem_of_singleton]; [done|].
    subst y. rewrite filter_cons, decide_False; [done|]. intros H; by apply H.
  - exfalso. apply Hnot, elem_of_app. by left.
  - rewrite filter_cons, decide_True; [done|].
    intros ->. apply Hnot, elem_of_app. right. left.
Qed.

(** What one tracked view does to the list. *)
Lemma track_viewed_reef_spec x request :
  not_a_dict request →
  ∃ request',
    track_viewed_reef x request = Ok request' ∧
    session request' !! "viewed_reefs" =
      Some (SList (take 10 (x :: remove_first x (viewed_reefs request)))).
Proof.
  intros Hok. unfold track_viewed_reef, viewed_reefs.
  destruct (session request !! "viewed_reefs") as [[l|d]|] eqn:Hs.
  - rewrite bool_decide_eq_true_2 by by eexists. rewrite Hs.
    case_bool_decide as Hin.
    + rewrite list_remove_remove_first by done. simpl.
      eexists. split; [done|]. simpl. by rewrite lookup_insert_eq.
    + simpl. eexists. split; [done|]. simpl.
      rewrite lookup_insert_eq. by rewrite remove_first_notin.
  - by destruct (Hok d).
  - rewrite bool_decide_eq_false_2 by (intros [? ?]; done). simpl.
    rewrite lookup_insert_eq. rewrite bool_decide_eq_false_2 by apply not_elem_of_nil.
    simpl. eexists. split; [done|]. simpl. by rewrite lookup_insert_eq.
Qed.

Lemma get_object_pk {row} (ordering : list (order_term row)) (t : gmap Z row) k :
  get_object None (objects_all ordering t) (Some k) None =
    match t !! k with Some r => Ok (k, r) | None => Raise Http404 end.
Proof.
  unfold get_object, qs_get, qs_filter, objects_all. simpl.
  rewrite filter_pk_map_to_list. by destruct (t !! k).
Qed.

Lemma view_reef_spec db request pk :
  not_a_dict request →
  not_a_dict (view_reef db request pk) ∧
  viewed_reefs (view_reef db request pk) =
    if bool_decide (is_Some (Reef_objects db !! pk))
    then take 10 (pk :: remove_first pk (viewed_reefs request))
    else viewed_reefs request.
Proof.
  intros Hok. unfold view_reef, ReefDetailView_get_context_data.
  rewrite get_object_pk.
  destruct (Reef_objects db !! pk) as [reef|] eqn:Hreef; simpl.
  - destruct (track_viewed_reef_spec pk request Hok) as (request' & -> & Hs).
    simpl. unfold not_a_dict, viewed_reefs at 1. rewrite Hs. done.
  - done.
Qed.

Lemma view_reefs_snoc db request pks pk :
  view_reefs db request (pks ++ [pk]) = view_reef db (view_reefs db request pks) pk.
Proof. unfold view_reefs. by rewrite foldl_snoc. Qed.

Lemma view_reefs_spec db request pks :
  session request !! "viewed_reefs" = None →
  not_a_dict (view_reefs db request pks) ∧
  viewed_reefs (view_reefs db request pks) =
    take 10 (reverse (remove_dups (existing_reefs db pks))).
Proof.
  intros Hfresh. induction pks as [|pk pks [IHok IH]] using rev_ind.
  - simpl. split; [intros d; by rewrite Hfresh|].
    unfold viewed_reefs. by rewrite Hfresh.
  - rewrite view_reefs_snoc.
    destruct (view_reef_spec db (view_reefs db request pks) pk IHok) as [Hok ->].
    split; [done|]. unfold existing_reefs in *. rewrite filter_app, filter_cons.
    rewrite IH. case_bool_decide as Hreef.
    + rewrite decide_True by done. simpl.
      rewrite remove_dups_snoc, reverse_snoc. simpl. f_equal.
      rewrite take_remove_first. f_equal.
      rewrite remove_first_filter.
      * by rewrite filter_reverse.
      * rewrite reverse_Permutation. apply NoDup_remove_dups.
    + rewrite decide_False by done. simpl. by rewrite app_nil_r.
Qed.

(** C4. In a session that starts without the list, after any sequence of
    reef detail requests the recently viewed list holds at most ten reef
    ids, no id twice, and is the list of the distinct reefs viewed, the most
    recently viewed first, cut to ten. One view of a reef that is in the
    list moves it to the front; one view of a reef that is not prepends it
    and cuts the list to ten. Viewing three distinct reefs in the order R1,
    R2, R1, R3 leaves [R3, R1, R2]. *)
Theorem viewed_reefs_most_recent_first db request pks :
  session request !! "viewed_reefs" = None →
  let l := viewed_reefs (view_reefs db request pks) in
  (length l ≤ 10)%nat ∧ NoDup l ∧
  l = take 10 (reverse (remove_dups (existing_reefs db pks))) ∧
  (∀ request0 pk,
     not_a_dict request0 → is_Some (Reef_objects db !! pk) →
     let old := viewed_reefs request0 in
     let new := viewed_reefs (view_reef db request0 pk) in
     (pk ∈ old → (length old ≤ 10)%nat →
        ∃ l1 l2, old = l1 ++ pk :: l2 ∧ (pk ∉ l1) ∧ new = pk :: l1 ++ l2) ∧
     (pk ∉ old → new = take 10 (pk :: old))) ∧
  (∀ r1 r2 r3,
     r1 ≠ r2 → r1 ≠ r3 → r2 ≠ r3 →
     is_Some (Reef_objects db !! r1) → is_Some (Reef_objects db !! r2) →
     is_Some (Reef_objects db !! r3) →
     viewed_reefs (view_reefs db request [r1; r2; r1; r3]) = [r3; r1; r2]).
Proof.
  intros Hfresh l.
  assert (∀ pks', viewed_reefs (view_reefs db request pks') =
                  take 10 (reverse (remove_dups (existing_reefs db pks')))) as Hl.
  { intros pks'. by apply view_reefs_spec. }
  split; [|split; [|split; [|split]]].
  - unfold l. rewrite Hl, length_take. lia.
  - unfold l. rewrite Hl. eapply sublist_NoDup; [|apply sublist_take].
    rewrite reverse_Permutation. apply NoDup_remove_dups.
  - apply Hl.
  - intros request0 pk Hok Hreef old new.
    destruct (view_reef_spec db request0 pk Hok) as [_ Hnew].
    rewrite bool_decide_eq_true_2 in Hnew by done. fold old new in Hnew.
    split.
    + intros Hin Hlen.
      destruct (remove_first_split pk old Hin) as (l1 & l2 & Hold & Hnot & Hrm).
      exists l1, l2. split; [done|]. split; [done|].
      rewrite Hnew, Hrm. simpl. f_equal. apply take_ge.
      rewrite Hold in Hlen. rewrite length_app in *. simpl in Hlen. lia.
    + intros Hnot. by rewrite Hnew, remove_first_notin.
  - intros r1 r2 r3 H12 H13 H23 Hr1 Hr2 Hr3. rewrite Hl.
    unfold existing_reefs.
    rewrite !filter_cons, filter_nil, !decide_True by done. simpl.
    clear Hl.
    repeat match goal with
           | |- context [decide_rel elem_of ?x ?k] =>
               destruct (decide_rel elem_of x k) as [?|?]
           end;
      rewrite ?elem_of_cons, ?elem_of_nil in *;
      first [done | exfalso; intuition congruence].
Qed.

Lemma viewed_reefs_most_recent_first_witness :
  viewed_reefs
    (view_reefs example_db (example_request AnonymousUser [] []) [1; 2; 1; 3])
  = [3; 1; 2].
Proof.
  apply (viewed_reefs_most_recent_first example_db
           (example_request AnonymousUser [] []) [1; 2; 1; 3]).
  - reflexivity.
  - lia.
  - lia.
  - lia.
  - by eexists.
  - by eexists.
  - by eexists.
Defined.

(** ** Orderings and listings *)

Section ordering_facts.
Context {row : Type}.
Implicit Types (c : order_term row) (cs : list (order_term row)).

Lemma lex_compare_antisym cs a b :
  Forall antisym_term cs → lex_compare cs b a = CompOpp (lex_compare cs a b).
Proof.
  induction 1 as [|c cs Hc _ IH]; [done|].
  simpl. rewrite (Hc a b). destruct (c a b); simpl; done.
Qed.

Lemma order_le_total cs : Forall antisym_term cs → Total (order_le cs).
Proof.
  intros Hcs a b. unfold order_le.
  rewrite (lex_compare_antisym cs a b Hcs).
  destruct (lex_compare cs a b); simpl; auto.
Qed.

Lemma antisym_descending c : antisym_term c → antisym_term (descending c).
Proof. intros Hc a b. unfold descending. by rewrite (Hc a b). Qed.

Lemma evaluate_Sorted (qs : QuerySet row) :
  Forall antisym_term (qs_order qs) →
  Sorted (order_le (qs_order qs)) (evaluate qs).
Proof.
  intros Hcs. unfold evaluate.
  apply (@Sorted_merge_sort _ (order_le (qs_order qs)) _ (order_le_total _ Hcs)).
Qed.

Lemma evaluate_Permutation (qs : QuerySet row) : evaluate qs ≡ₚ qs_rows qs.
Proof. apply merge_sort_Permutation. Qed.

Lemma elem_of_evaluate (qs : QuerySet row) o : o ∈ evaluate qs ↔ o ∈ qs_rows qs.
Proof. by rewrite evaluate_Permutation. Qed.

Lemma order_by_sort_key fields sort (qs : QuerySet row) :
  order_by fields sort qs =
    match sort_key fields sort with
    | Some c => Ok {| qs_rows := qs_rows qs; qs_order := [c] |}
    | None => Raise FieldError
    end.
Proof.
  unfold order_by, sort_key.
  destruct sort as [|[[] [] [] [] [] [] [] []] rest]; simpl;
    try by destruct (fields _).
Qed.

Lemma order_le_first c cs a b : order_le (c :: cs) a b → order_le [c] a b.
Proof.
  unfold order_le. simpl. destruct (c a b); try done.
Qed.


Lemma antisym_by_pk : antisym_term (@by_pk row).
Proof. intros a b. unfold by_pk. apply Z.compare_antisym. Qed.

Lemma antisym_by_key {K} (cmp : K → K → comparison) (key : row → K) :
  (∀ x y, cmp y x = CompOpp (cmp x y)) → antisym_term (by_key cmp key).
Proof. intros Hcmp a b. unfold by_key. apply Hcmp. Qed.
End ordering_facts.

Lemma String_compare_antisym x y : String.compare y x = CompOpp (String.compare x y).
Proof. apply String.compare_antisym. Qed.

Lemma Qcompare_antisym' x y : Qcompare y x = CompOpp (Qcompare x y).
Proof. symmetry. apply Qcompare_antisym. Qed.

Lemma bool_compare_antisym x y : bool_compare y x = CompOpp (bool_compare x y).
Proof. by destruct x, y. Qed.

Lemma date_compare_antisym x y : date_compare y x = CompOpp (date_compare x y).
Proof.
  unfold date_compare.
  rewrite (Z.compare_antisym (year x) (year y)),
          (Z.compare_antisym (month x) (month y)),
          (Z.compare_antisym (day x) (day y)).
  destruct (year x ?= year y); simpl; try done.
  destruct (month x ?= month y); simpl; done.
Qed.

Create HintDb antisym.

#[local] Hint Resolve antisym_by_pk antisym_by_key antisym_descending
  String_compare_antisym Qcompare_antisym' bool_compare_antisym
  date_compare_antisym Z.compare_antisym : antisym.









(** Every key of an allow-list names a column of its model. *)
Lemma Reef_sort_keys_resolve sort :
  sort ∈ Reef_sort_keys → is_Some (sort_key Reef_fields sort).
Proof.
  unfold Reef_sort_keys. rewrite !elem_of_cons, elem_of_nil.
  intros H. repeat (destruct H as [->|H]; [by eexists|]). done.
Qed.

Lemma Event_sort_keys_resolve sort :
  sort ∈ Event_sort_keys → is_Some (sort_key Event_fields sort).
Proof.
  unfold Event_sort_keys. rewrite !elem_of_cons, elem_of_nil.
  intros H. repeat (destruct H as [->|H]; [by eexists|]). done.
Qed.

Lemma Article_sort_keys_resolve sort :
  sort ∈ Article_sort_keys → is_Some (sort_key Article_fields sort).
Proof.
  unfold Article_sort_keys. rewrite !elem_of_cons, elem_of_nil.
  intros H. repeat (destruct H as [->|H]; [by eexists|]). done.
Qed.

Section query_facts.
Context {row : Type}.
Implicit Types (qs : QuerySet row) (o : Z * row).

Lemma elem_of_objects_all (ordering : list (order_term row)) (t : gmap Z row) o :
  o ∈ qs_rows (objects_all ordering t) ↔ t !! o.1 = Some o.2.
Proof. destruct o. apply elem_of_map_to_list. Qed.

(** A filter applied only when its parameter is given. *)
Lemma elem_of_optional_filter (b : bool) (P : Z * row → Prop)
    `{!∀ o, Decision (P o)} qs o :
  o ∈ qs_rows (if b then qs_filter P qs else qs) ↔
  (b = true → P o) ∧ o ∈ qs_rows qs.
Proof.
  destruct b; simpl.
  - rewrite list_elem_of_filter. split; [intros [? ?]; by split|].
    intros [HP ?]. split; [by apply HP|done].
  - split; [by split|by intros [_ ?]].
Qed.

Lemma qs_order_optional_filter (b : bool) (P : Z * row → Prop)
    `{!∀ o, Decision (P o)} qs :
  qs_order (if b then qs_filter P qs else qs) = qs_order qs.
Proof. by destruct b. Qed.

(** The sort step of the listings: it cannot fail on a key that resolves,
    and it leaves the selected rows alone. *)
Lemma optional_order_by fields (keys : list string) sort qs :
  (∀ s, s ∈ keys → is_Some (sort_key fields s)) →
  ∃ qs',
    (if bool_decide (sort ∈ keys) then order_by fields sort qs else Ok qs)
      = Ok qs' ∧
    qs_rows qs' = qs_rows qs ∧
    (sort ∈ keys →
       ∃ c, sort_key fields sort = Some c ∧ qs_order qs' = [c]) ∧
    (sort ∉ keys → qs_order qs' = qs_order qs).
Proof.
  intros Hkeys. case_bool_decide as Hin.
  - destruct (Hkeys sort Hin) as [c Hc]. rewrite order_by_sort_key, Hc.
    eexists. split; [done|]. split; [done|]. split; [by exists c|done].
  - exists qs. split; [done|]. split; [done|]. split; done.
Qed.
End query_facts.

Lemma prefix_spec p s : String.prefix p s = true ↔ ∃ after, s = p +:+ after.
Proof.
  revert s. induction p as [|a p IH]; intros [|b s]; simpl.
  - split; [by exists ""|done].
  - split; [by exists (String b s)|done].
  - split; [done|]. intros [after H]. discriminate.
  - destruct (Ascii.ascii_dec a b) as [->|Hne].
    + rewrite IH. split; intros [after H]; exists after.
      * simpl. by rewrite H.
      * simpl in H. by injection H.
    + split; [done|]. intros [after H]. simpl in H.
      injection H as Hab _. by destruct Hne.
Qed.

Lemma contains_spec needle hay :
  contains needle hay = true ↔ ∃ before after, hay = before +:+ needle +:+ after.
Proof.
  induction hay as [|a hay IH].
  - change (contains needle "") with (String.prefix needle "" || false).
    rewrite orb_false_r, prefix_spec. split.
    + intros [after H]. by exists "", after.
    + intros ([|? ?] & after & H); [by exists after|done].
  - change (contains needle (String a hay))
      with (String.prefix needle (String a hay) || contains needle hay).
    rewrite orb_true_iff, prefix_spec, IH. split.
    + intros [[after H]|(before & after & H)].
      * by exists "", after.
      * exists (String a before), after. simpl. by rewrite H.
    + intros ([|b before] & after & H).
      * left. by exists after.
      * right. simpl in H. injection H as _ H. by exists before, after.
Qed.

Lemma icontains_spec field query :
  icontains field query ↔ contains_ignoring_case field query.
Proof. apply contains_spec. Qed.

(** What the reef listing selects and how it orders it. *)
Lemma ReefListView_get_queryset_spec request db :
  let search := QueryDict_get (GET request) "search" "" in
  let region := QueryDict_get (GET request) "region" "" in
  let health := QueryDict_get (GET request) "health" "" in
  let sort := QueryDict_get (GET request) "sort" "-created_at" in
  ∃ qs request',
    ReefListView_get_queryset request db = Ok (qs, request') ∧
    (∀ o, o ∈ qs_rows qs ↔
          Reef_objects db !! o.1 = Some o.2 ∧
          (search ≠ "" → Reef_search search o) ∧
          (region ≠ "" → Reef.region o.2 = region) ∧
          (health ≠ "" → Reef.health_status o.2 = health)) ∧
    (sort ∈ Reef_sort_keys →
       ∃ c, sort_key Reef_fields sort = Some c ∧ qs_order qs = [c]) ∧
    (sort ∉ Reef_sort_keys → qs_order qs = Reef_ordering).
Proof.
  intros search region health sort. unfold ReefListView_get_queryset.
  fold search region health sort.
  match goal with
  | |- context [if bool_decide (sort ∈ _) then order_by _ _ ?q else _] =>
      destruct (optional_order_by Reef_fields Reef_sort_keys sort q
                  Reef_sort_keys_resolve) as (qs' & -> & Hrows & Hin & Hout)
  end.
  simpl. eexists _, _. split; [done|]. split; [|split].
  - intros o. rewrite Hrows. rewrite !elem_of_optional_filter.
    rewrite elem_of_objects_all, !bool_decide_eq_true. tauto.
  - done.
  - intros Hnot. rewrite (Hout Hnot).
    by rewrite !qs_order_optional_filter.
Qed.

(** C8. A reef listing request that carries a region and a health value
    selects exactly the reefs of the table with that region and that health
    status, and, when it also carries a search text, only those whose name,
    country or description contains the text, case ignored. *)
Theorem ReefListView_filters request db region health :
  GET request !! "region" = Some region → region ≠ "" →
  GET request !! "health" = Some health → health ≠ "" →
  let search := QueryDict_get (GET request) "search" "" in
  ∃ rows,
    ReefListView_object_list request db = Ok rows ∧
    ∀ k reef,
      (k, reef) ∈ rows ↔
      Reef_objects db !! k = Some reef ∧
      Reef.region reef = region ∧ Reef.health_status reef = health ∧
      (search ≠ "" →
         contains_ignoring_case (Reef.name reef) search ∨
         contains_ignoring_case (Reef.country reef) search ∨
         contains_ignoring_case (Reef.description reef) search).
Proof.
  intros Hregion Hr Hhealth Hh search.
  destruct (ReefListView_get_queryset_spec request db)
    as (qs & request' & Hqs & Hrows & _).
  unfold ReefListView_object_list. rewrite Hqs. simpl.
  eexists. split; [done|]. intros k reef.
  assert (QueryDict_get (GET request) "region" "" = region) as Er
    by (unfold QueryDict_get; by rewrite Hregion).
  assert (QueryDict_get (GET request) "health" "" = health) as Eh
    by (unfold QueryDict_get; by rewrite Hhealth).
  rewrite elem_of_evaluate, Hrows, Er, Eh. fold search.
  unfold Reef_search. simpl. rewrite !icontains_spec. tauto.
Qed.

Lemma ReefListView_filters_witness :
  ∃ rows,
    ReefListView_object_list
      (example_request AnonymousUser
         [("region", "pacific"); ("health", "good"); ("search", "RIBBON")] [])
      example_db = Ok rows ∧
    ∀ k reef,
      (k, reef) ∈ rows ↔
      Reef_objects example_db !! k = Some reef ∧
      Reef.region reef = "pacific" ∧ Reef.health_status reef = "good" ∧
      ("RIBBON" ≠ "" →
         contains_ignoring_case (Reef.name reef) "RIBBON" ∨
         contains_ignoring_case (Reef.country reef) "RIBBON" ∨
         contains_ignoring_case (Reef.description reef) "RIBBON").
Proof.
  apply (ReefListView_filters
           (example_request AnonymousUser
              [("region", "pacific"); ("health", "good"); ("search", "RIBBON")] [])
           example_db "pacific" "good").
  - reflexivity.
  - discriminate.
  - reflexivity.
  - discriminate.
Defined.



Lemma ArticleListView_get_queryset_spec request db :
  let search := QueryDict_get (GET request) "search" "" in
  let category := QueryDict_get (GET request) "category" "" in
  let sort := QueryDict_get (GET request) "sort" "-created_at" in
  ∃ qs,
    ArticleListView_get_queryset request db = Ok qs ∧
    (∀ o, o ∈ qs_rows qs ↔
          Article_objects db !! o.1 = Some o.2 ∧
          Article.published o.2 = true ∧
          (search ≠ "" → Article_search search o) ∧
          (category ≠ "" → Article.category o.2 = category)) ∧
    (sort ∈ Article_sort_keys →
       ∃ c, sort_key Article_fields sort = Some c ∧ qs_order qs = [c]) ∧
    (sort ∉ Article_sort_keys → qs_order qs = Article_ordering).
Proof.
  intros search category sort. unfold ArticleListView_get_queryset.
  fold search category sort.
  match goal with
  | |- context [if bool_decide (sort ∈ _) then order_by _ _ ?q else _] =>
      destruct (optional_order_by Article_fields Article_sort_keys sort q
                  Article_sort_keys_resolve) as (qs' & -> & Hrows & Hin & Hout)
  end.
  eexists. split; [done|]. split; [|split].
  - intros o. rewrite Hrows. rewrite !elem_of_optional_filter. simpl.
    rewrite list_elem_of_filter, elem_of_map_to_list', !bool_decide_eq_true.
    tauto.
  - done.
  - intros Hnot. rewrite (Hout Hnot).
    by rewrite !qs_order_optional_filter.
Qed.


Lemma filter_event_date_year_is_ok value (qs : QuerySet Event.t) :
  is_ok (filter_event_date_year value qs) = true ↔
  ∃ n, python_int value = Some n ∧ 1 ≤ n ≤ 9999.
Proof.
  unfold filter_event_date_year.
  destruct (python_int value) as [n|]; simpl.
  - case_bool_decide as Hn; simpl.
    + split; [by exists n|done].
    + split; [by case_bool_decide|]. intros (n' & [= <-] & ?). done.
  - split; [done|by intros (? & ? & ?)].
Qed.

(** The event listing fails exactly when the year parameter is given and is
    not a year; the sort parameter has no part in it. *)
Lemma EventListView_is_ok request db :
  is_ok (EventListView_object_list request db) = true ↔ year_accepted request.
Proof.
  unfold EventListView_object_list, EventListView_get_queryset, year_accepted.
  set (y := QueryDict_get (GET request) "year" "").
  set (sort := QueryDict_get (GET request) "sort" "-event_date").
  match goal with
  | |- context [if bool_decide (y ≠ "") then filter_event_date_year y ?q else _] =>
      set (q0 := q)
  end.
  destruct (bool_decide_reflect (y ≠ "")) as [Hy|Hy]; simpl.
  - pose proof (filter_event_date_year_is_ok y q0) as Hok.
    destruct (filter_event_date_year y q0) as [q1|e]; simpl in *.
    + match goal with
      | |- context [if bool_decide (sort ∈ _) then order_by _ _ ?q else _] =>
          destruct (optional_order_by Event_fields Event_sort_keys sort q
                      Event_sort_keys_resolve) as (qs' & -> & _)
      end.
      simpl. split; [intros _; right; by apply Hok|done].
    + split; [done|]. intros [?|H]; [done|]. by apply Hok.
  - match goal with
    | |- context [if bool_decide (sort ∈ _) then order_by _ _ ?q else _] =>
        destruct (optional_order_by Event_fields Event_sort_keys sort q
                    Event_sort_keys_resolve) as (qs' & -> & _)
    end.
    simpl. split; [intros _; left|done].
    destruct (decide (y = "")); [done|]. by destruct Hy.
Qed.


Section rows_facts.
Context {row : Type}.
Implicit Types (qs : QuerySet row).

Lemma NoDup_objects_all (ordering : list (order_term row)) (t : gmap Z row) :
  NoDup (qs_rows (objects_all ordering t)).
Proof. apply NoDup_map_to_list. Qed.

Lemma NoDup_optional_filter (b : bool) (P : Z * row → Prop)
    `{!∀ o, Decision (P o)} qs :
  NoDup (qs_rows qs) → NoDup (qs_rows (if b then qs_filter P qs else qs)).
Proof. destruct b; [apply NoDup_filter|done]. Qed.

Lemma evaluate_NoDup qs : NoDup (qs_rows qs) → NoDup (evaluate qs).
Proof. intros Hnd. by rewrite evaluate_Permutation. Qed.
End rows_facts.


Lemma ReefListView_object_list_rows request db rows :
  ReefListView_object_list request db = Ok rows →
  NoDup rows ∧ ∀ o, o ∈ rows ↔ Reef_selected request db o.
Proof.
  unfold ReefListView_object_list, ReefListView_get_queryset.
  match goal with
  | |- context [if bool_decide (?s ∈ _) then order_by _ _ ?q else _] =>
      destruct (optional_order_by Reef_fields Reef_sort_keys s q
                  Reef_sort_keys_resolve) as (qs' & -> & Hrows & _)
  end.
  simpl. intros [= <-]. split.
  - apply evaluate_NoDup. rewrite Hrows.
    repeat apply NoDup_optional_filter. apply NoDup_objects_all.
  - intros o. rewrite elem_of_evaluate, Hrows, !elem_of_optional_filter.
    rewrite elem_of_objects_all, !bool_decide_eq_true.
    unfold Reef_selected. tauto.
Qed.

Lemma ArticleListView_object_list_rows request db rows :
  ArticleListView_object_list request db = Ok rows →
  NoDup rows ∧ ∀ o, o ∈ rows ↔ Article_selected request db o.
Proof.
  unfold ArticleListView_object_list, ArticleListView_get_queryset.
  match goal with
  | |- context [if bool_decide (?s ∈ _) then order_by _ _ ?q else _] =>
      destruct (optional_order_by Article_fields Article_sort_keys s q
                  Article_sort_keys_resolve) as (qs' & -> & Hrows & _)
  end.
  simpl. intros [= <-]. split.
  - apply evaluate_NoDup. rewrite Hrows.
    repeat apply NoDup_optional_filter. apply NoDup_filter, NoDup_map_to_list.
  - intros o. rewrite elem_of_evaluate, Hrows, !elem_of_optional_filter. simpl.
    rewrite list_elem_of_filter, elem_of_map_to_list', !bool_decide_eq_true.
    unfold Article_selected. tauto.
Qed.

Lemma EventListView_object_list_rows request db rows :
  EventListView_object_list request db = Ok rows →
  NoDup rows ∧ ∀ o, o ∈ rows ↔ Event_selected request db o.
Proof.
  unfold EventListView_object_list, EventListView_get_queryset, Event_selected.
  set (y := QueryDict_get (GET request) "year" "").
  match goal with
  | |- context [if bool_decide (y ≠ "") then filter_event_date_year y ?q else _] =>
      set (q0 := q)
  end.
  assert (NoDup (qs_rows q0)) as Hnd0.
  { unfold q0. repeat apply NoDup_optional_filter. apply NoDup_objects_all. }
  assert (∀ o, o ∈ qs_rows q0 ↔
               Event_objects db !! o.1 = Some o.2 ∧
               (QueryDict_get (GET request) "event_type" "" ≠ "" →
                Event.event_type o.2 = QueryDict_get (GET request) "event_type" "") ∧
               (QueryDict_get (GET request) "severity" "" ≠ "" →
                Event.severity o.2 = QueryDict_get (GET request) "severity" ""))
    as Hin0.
  { intros o. unfold q0. rewrite !elem_of_optional_filter.
    rewrite elem_of_objects_all, !bool_decide_eq_true. tauto. }
  clearbody q0.
  assert (∀ q1, (if bool_decide (y ≠ "") then filter_event_date_year y q0
                 else Ok q0) = Ok q1 →
                NoDup (qs_rows q1) ∧
                ∀ o, o ∈ qs_rows q1 ↔
                     o ∈ qs_rows q0 ∧
                     (y ≠ "" → python_int y = Some (year (Event.event_date o.2))))
    as Hyear.
  { intros q1. destruct (bool_decide_reflect (y ≠ "")) as [Hy|Hy].
    - unfold filter_event_date_year.
      destruct (python_int y) as [n|]; [|done].
      case_bool_decide; [|by case_bool_decide].
      intros [= <-]. split; [by apply NoDup_filter|].
      intros o. simpl. rewrite list_elem_of_filter.
      split.
      + intros [-> ?]. by split.
      + intros [? Hn]. split; [|done]. specialize (Hn Hy). congruence.
    - intros [= <-]. split; [done|]. intros o. tauto. }
  destruct (if bool_decide (y ≠ "") then filter_event_date_year y q0 else Ok q0)
    as [q1|e] eqn:Hq1; [|done].
  destruct (Hyear q1 eq_refl) as [Hnd1 Hin1]. simpl.
  match goal with
  | |- context [if bool_decide (?s ∈ _) then order_by _ _ ?q else _] =>
      destruct (optional_order_by Event_fields Event_sort_keys s q
                  Event_sort_keys_resolve) as (qs' & -> & Hrows & _)
  end.
  simpl. intros [= <-]. split.
  - apply evaluate_NoDup. rewrite Hrows. by apply NoDup_optional_filter.
  - intros o. rewrite elem_of_evaluate, Hrows, elem_of_optional_filter.
    rewrite Hin1, Hin0, bool_decide_eq_true. tauto.
Qed.






Lemma order_le_single {row} (c : order_term row) a b :
  order_le [c] a b ↔ c a b ≠ Gt.
Proof. unfold order_le. simpl. by destruct (c a b). Qed.




(** ** Articles *)

Lemma qs_get_Ok {row} (qs : QuerySet row) o : qs_get qs = Ok o → o ∈ qs_rows qs.
Proof.
  unfold qs_get. destruct (qs_rows qs) as [|o1 [|o2 l]]; try done.
  intros [= <-]. left.
Qed.

Lemma qs_get_none {row} (qs : QuerySet row) :
  (∀ o, o ∉ qs_rows qs) → qs_get qs = Raise DoesNotExist.
Proof.
  intros Hno. unfold qs_get. by rewrite (elem_of_nil_inv _ Hno).
Qed.

Lemma elem_of_ArticleDetailView_get_queryset db o :
  o ∈ qs_rows (ArticleDetailView_get_queryset db) ↔
  Article_objects db !! o.1 = Some o.2 ∧ Article.published o.2 = true.
Proof.
  unfold ArticleDetailView_get_queryset. simpl.
  rewrite list_elem_of_filter, elem_of_map_to_list'. tauto.
Qed.

Lemma get_object_Ok {row} slug_of (qs : QuerySet row) pk slug o :
  get_object slug_of qs pk slug = Ok o → o ∈ qs_rows qs.
Proof.
  unfold get_object.
  destruct pk as [k|]; simpl.
  - destruct (qs_get _) as [o'|e] eqn:Hget; [|by destruct e].
    intros [= <-]. apply qs_get_Ok in Hget. simpl in Hget.
    by apply list_elem_of_filter in Hget as [_ ?].
  - destruct slug as [s|]; [|done]. destruct slug_of as [f|]; [|done]. simpl.
    destruct (qs_get _) as [o'|e] eqn:Hget; [|by destruct e].
    intros [= <-]. apply qs_get_Ok in Hget. simpl in Hget.
    by apply list_elem_of_filter in Hget as [_ ?].
Qed.

(** C10. Whatever the search, category and sort parameters, the article
    listing answers and lists only published articles of the table; the
    detail view returns only published articles, and the detail page of an
    unpublished article, asked by its key or by its slug, is not found. *)
Theorem articles_published_only request db :
  (∃ rows,
     ArticleListView_object_list request db = Ok rows ∧
     ∀ o, o ∈ rows →
          Article_objects db !! o.1 = Some o.2 ∧ Article.published o.2 = true) ∧
  (∀ pk slug o,
     ArticleDetailView_get_object pk slug db = Ok o →
     Article_objects db !! o.1 = Some o.2 ∧ Article.published o.2 = true) ∧
  (∀ k a,
     Article_objects db !! k = Some a → Article.published a = false →
     (∀ slug, ArticleDetailView_get_object (Some k) slug db = Raise Http404) ∧
     ((∀ k' a', Article_objects db !! k' = Some a' →
                Article.slug a' = Article.slug a → k' = k) →
      ArticleDetailView_get_object None (Some (Article.slug a)) db
      = Raise Http404)).
Proof.
  split; [|split].
  - destruct (ArticleListView_get_queryset_spec request db)
      as (qs & Hqs & Hrows & _).
    unfold ArticleListView_object_list. rewrite Hqs. simpl.
    eexists. split; [done|]. intros o Ho.
    apply elem_of_evaluate, Hrows in Ho. tauto.
  - intros pk slug o Hget. apply get_object_Ok in Hget.
    by apply elem_of_ArticleDetailView_get_queryset.
  - intros k a Hk Hunpublished. split.
    + intros slug. unfold ArticleDetailView_get_object, get_object. simpl.
      rewrite qs_get_none; [done|]. intros [k' a'] Ho. simpl in Ho.
      apply list_elem_of_filter in Ho as [Hk' Ho]. simpl in Hk'. subst k'.
      apply elem_of_ArticleDetailView_get_queryset in Ho as [Ho Hpub].
      simpl in *. congruence.
    + intros Hslug. unfold ArticleDetailView_get_object, get_object. simpl.
      rewrite qs_get_none; [done|]. intros [k' a'] Ho. simpl in Ho.
      apply list_elem_of_filter in Ho as [Hs Ho]. simpl in Hs.
      apply elem_of_ArticleDetailView_get_queryset in Ho as [Ho Hpub].
      simpl in *. assert (k' = k) as -> by by eapply Hslug. congruence.
Qed.

Lemma articles_published_only_witness :
  ArticleDetailView_get_object (Some 2) None example_db_articles
  = Raise Http404 ∧
  ArticleDetailView_get_object None (Some "draft") example_db_articles
  = Raise Http404.
Proof.
  destruct (articles_published_only (example_request AnonymousUser [] [])
              example_db_articles) as (_ & _ & H).
  destruct (H 2 (example_article "Draft" "draft" false)) as [Hpk Hslug].
  - reflexivity.
  - reflexivity.
  - split; [apply Hpk|]. apply Hslug.
    intros k' a' Hk' Hs. unfold example_db_articles in Hk'. simpl in Hk'.
    apply lookup_insert_Some in Hk' as [[<- <-]|[_ Hk']]; [discriminate|].
    by apply lookup_insert_Some in Hk' as [[<- _]|[_ ?]].
Defined.

(** The listings run on the example database. *)
Example sort_key_name :
  sort_key Reef_fields "name" = Some (by_key String.compare Reef.name).
Proof. reflexivity. Qed.

Example sort_key_area_descending :
  sort_key Reef_fields "-area_km2"
  = Some (descending (by_key Qcompare Reef.area_km2)).
Proof. reflexivity. Qed.

Example sort_key_event_date_descending :
  sort_key Event_fields "-event_date"
  = Some (descending (by_key date_compare Event.event_date)).
Proof. reflexivity. Qed.

Example reefs_by_name :
  (λ rows : list (Z * Reef.t), rows.*1) <$>
    (ReefListView_object_list
       (example_request AnonymousUser [("sort", "name")] []) example_db)
  = Ok [2; 1; 3].
Proof. by vm_compute. Qed.

Example reefs_newest_first :
  (λ rows : list (Z * Reef.t), rows.*1) <$>
    (ReefListView_object_list (example_request AnonymousUser [] []) example_db)
  = Ok [3; 2; 1].
Proof. by vm_compute. Qed.

Example reefs_unknown_sort :
  (λ rows : list (Z * Reef.t), rows.*1) <$>
    (ReefListView_object_list
       (example_request AnonymousUser [("sort", "password")] []) example_db)
  = Ok [3; 2; 1].
Proof. by vm_compute. Qed.

Example events_of_2024 :
  (λ rows : list (Z * Event.t), rows.*1) <$>
    (EventListView_object_list
       (example_request AnonymousUser [("year", "2024")] []) example_db_events)
  = Ok [1].
Proof. by vm_compute. Qed.

(** ** Deleting a reef *)

(** C9. After [reef.delete()] the reef is gone, the events left are exactly
    those of other reefs, and the gallery items left are exactly those that
    were linked neither to the reef nor to one of its events; so no event
    and no gallery item that referred to the reef, directly or through one
    of its events, remains, and no gallery item is left pointing at an event
    that went. *)
Theorem Reef_delete_cascade pk db :
  let db' := Reef_delete pk db in
  Reef_objects db' !! pk = None ∧
  (∀ k e,
     Event_objects db' !! k = Some e ↔
     Event_objects db !! k = Some e ∧ Event.reef e ≠ pk) ∧
  (∀ k g,
     ImageGallery_objects db' !! k = Some g ↔
     ImageGallery_objects db !! k = Some g ∧
     ImageGallery.reef g ≠ Some pk ∧
     ∀ e ev, ImageGallery.event g = Some e → Event_objects db !! e = Some ev →
             Event.reef ev ≠ pk) ∧
  (gallery_events_exist db → gallery_events_exist db').
Proof.
  intros db'.
  assert (∀ k e, Event_objects db' !! k = Some e ↔
                 Event_objects db !! k = Some e ∧ Event.reef e ≠ pk) as Hevents.
  { intros k e. unfold db', Reef_delete. simpl.
    rewrite map_lookup_filter_Some. unfold event_of_reef. simpl. tauto. }
  assert (∀ k g, ImageGallery_objects db' !! k = Some g ↔
                 ImageGallery_objects db !! k = Some g ∧
                 ImageGallery.reef g ≠ Some pk ∧
                 ∀ e ev, ImageGallery.event g = Some e →
                         Event_objects db !! e = Some ev → Event.reef ev ≠ pk)
    as Hgallery.
  { intros k g. unfold db', Reef_delete. simpl.
    rewrite map_lookup_filter_Some. unfold gallery_of_reef. simpl.
    split.
    - intros [Hk Hnot]. split; [done|]. split.
      + intros Hr. apply Hnot. by left.
      + intros e ev He Hev Hr. apply Hnot. right. by exists e, ev.
    - intros (Hk & Hr & Hev). split; [done|].
      intros [?|(e & ev & He & Hev' & Hr')]; [done|]. by eapply Hev. }
  split; [|split; [|split]].
  - unfold db', Reef_delete. simpl. apply lookup_delete_eq.
  - done.
  - done.
  - intros Hint k g e Hk He.
    apply Hgallery in Hk as (Hk & _ & Hev).
    destruct (Hint k g e Hk He) as [ev Hev'].
    exists ev. apply Hevents. split; [done|]. by eapply Hev.
Qed.

Lemma Reef_delete_cascade_witness :
  gallery_events_exist example_db_events ∧
  gallery_events_exist (Reef_delete 1 example_db_events).
Proof.
  assert (gallery_events_exist example_db_events) as Hint.
  { intros k g e Hk He. unfold example_db_events in *. simpl in *.
    repeat (apply lookup_insert_Some in Hk as [[<- <-]|[_ Hk]];
            [simpl in He; try discriminate; injection He as <-; by eexists|]).
    by rewrite lookup_empty in Hk. }
  split; [exact Hint|].
  by apply (Reef_delete_cascade 1 example_db_events).
Defined.

Example Reef_delete_example :
  let db' := Reef_delete 1 example_db_events in
  (map_to_list (Reef_objects db')).*1 ≡ₚ [2; 3] ∧
  (map_to_list (Event_objects db')).*1 = [2] ∧
  (map_to_list (ImageGallery_objects db')).*1 = [3].
Proof.
  split; [|split]; [|reflexivity..].
  apply (bool_decide_unpack _). by vm_compute.
Qed.

(** ** Forms *)

Lemma as_str_Some v s : as_str v = Some s → v = VStr s.
Proof. destruct v; simpl; congruence. Qed.

Lemma Event_row_Some now inst e :
  Event_row now inst = Some e →
  inst !! "event_type" = Some (VStr (Event.event_type e)) ∧
  inst !! "severity" = Some (VStr (Event.severity e)) ∧
  Event.created_at e = now.
Proof.
  unfold Event_row. intros H.
  destruct (inst !! "reef" ≫= as_key) as [reef|]; [|done]. simpl in H.
  destruct (inst !! "event_type") as [v1|] eqn:H1; [|done]. simpl in H.
  destruct (as_str v1) as [event_type|] eqn:Hv1; [|done]. simpl in H.
  apply as_str_Some in Hv1 as ->.
  destruct (inst !! "title" ≫= as_str) as [title|]; [|done]. simpl in H.
  destruct (inst !! "description" ≫= as_str) as [description|]; [|done].
  simpl in H.
  destruct (inst !! "severity") as [v2|] eqn:H2; [|done]. simpl in H.
  destruct (as_str v2) as [severity|] eqn:Hv2; [|done]. simpl in H.
  apply as_str_Some in Hv2 as ->.
  destruct (inst !! "event_date" ≫= as_date) as [event_date|]; [|done].
  simpl in H.
  destruct (inst !! "reported_by" ≫= as_nullable_key) as [reported_by|];
    [|done]. simpl in H.
  destruct (inst !! "resolved" ≫= as_bool) as [resolved|]; [|done]. simpl in H.
  destruct (inst !! "notes" ≫= as_str) as [notes|]; [|done]. simpl in H.
  by injection H as <-.
Qed.

Section forms_facts.
Variable strptime_date : string → option date.

(** The instance keeps the attributes the form has no field for. *)
Lemma construct_instance_other fields cd inst name :
  name ∉ fields.*1 → construct_instance fields cd inst !! name = inst !! name.
Proof.
  unfold construct_instance. revert inst.
  induction fields as [|[n f] fields IH]; intros inst Hnot; [done|].
  simpl in *. apply not_elem_of_cons in Hnot as [Hne Hnot].
  rewrite IH by done. destruct (cd !! n); [|done].
  by rewrite lookup_insert_ne.
Qed.

Lemma clean_fields_other fields data files acc name :
  name ∉ fields.*1 →
  (foldl (clean_field strptime_date data files) acc fields).1 !! name
  = acc.1 !! name.
Proof.
  revert acc. induction fields as [|[n f] fields IH]; intros acc Hnot; [done|].
  simpl in *. apply not_elem_of_cons in Hnot as [Hne Hnot].
  rewrite IH by done. unfold clean_field. simpl.
  destruct (Field_clean _ _ _ _); simpl; [|done].
  by rewrite lookup_insert_ne.
Qed.


(** What [cleaned_data] holds for a field of the form. *)
Lemma clean_fields_lookup fields data files name field :
  NoDup fields.*1 → (name, field) ∈ fields →
  (clean_fields strptime_date fields data files).1 !! name =
    match Field_clean strptime_date field (data !! name) (files !! name) with
    | Cleaned v => Some v
    | Invalid _ => None
    end.
Proof.
  unfold clean_fields.
  assert ((∅ : gmap string value, [] : list (string * string)).1 !! name = None)
    as Hacc by done.
  revert Hacc. generalize (∅ : gmap string value, [] : list (string * string)).
  induction fields as [|[n f] fields IH]; intros acc Hacc Hnd Hin.
  { by apply elem_of_nil in Hin. }
  simpl in *. apply NoDup_cons in Hnd as [Hn Hnd].
  apply elem_of_cons in Hin as [[= <- <-]|Hin].
  - rewrite clean_fields_other by done. unfold clean_field. simpl.
    destruct (Field_clean _ _ _ _); simpl; [by rewrite lookup_insert_eq|done].
  - apply IH; [|done..]. unfold clean_field. simpl.
    destruct (Field_clean strptime_date f _ _); simpl; [|done].
    rewrite lookup_insert_ne; [done|]. intros ->. apply Hn.
    apply list_elem_of_fmap. by exists (name, field).
Qed.

(** The errors of a form: those of its fields, then that of [clean]. *)
Lemma full_clean_errors fields clean inst data files :
  errors (full_clean strptime_date fields clean inst data files) =
    (clean_fields strptime_date fields data files).2 ++
    match clean (clean_fields strptime_date fields data files).1 with
    | Cleaned _ => []
    | Invalid message => [("__all__", message)]
    end.
Proof.
  unfold full_clean. destruct (clean_fields _ _ _ _) as [cd errs]. simpl.
  destruct (clean cd); simpl; [by rewrite app_nil_r|done].
Qed.

Lemma full_clean_instance_other fields clean inst data files name :
  name ∉ fields.*1 →
  instance (full_clean strptime_date fields clean inst data files) !! name
  = inst !! name.
Proof.
  intros Hnot. unfold full_clean.
  destruct (clean_fields _ _ _ _) as [cd errs].
  destruct (clean cd); simpl; by apply construct_instance_other.
Qed.

Lemma construct_instance_lookup fields cd inst name v :
  name ∈ fields.*1 → cd !! name = Some v →
  construct_instance fields cd inst !! name = Some v.
Proof.
  unfold construct_instance. revert inst.
  induction fields as [|[n f] fields IH]; intros inst Hin Hcd.
  { by apply elem_of_nil in Hin. }
  simpl in *. destruct (decide (name ∈ fields.*1)) as [Hlater|Hnot].
  - by apply IH.
  - apply elem_of_cons in Hin as [->|?]; [|done].
    rewrite Hcd. fold (construct_instance fields cd (<[n:=v]> inst)).
    rewrite construct_instance_other by done. by rewrite lookup_insert_eq.
Qed.

(** A form without errors has cleaned every one of its fields. *)
Lemma clean_fields_no_errors fields data files acc name field :
  (foldl (clean_field strptime_date data files) acc fields).2 = [] →
  (name, field) ∈ fields →
  ∃ v, Field_clean strptime_date field (data !! name) (files !! name)
       = Cleaned v.
Proof.
  revert acc. induction fields as [|[n f] fields IH]; intros acc Hnil Hin.
  { by apply elem_of_nil in Hin. }
  simpl in *. apply elem_of_cons in Hin as [[= <- <-]|Hin]; [|by eapply IH].
  destruct (Field_clean strptime_date field (data !! name) (files !! name))
    as [v|message] eqn:Hclean; [by exists v|].
  exfalso. clear IH.
  assert (∀ fs a, (foldl (clean_field strptime_date data files) a fs).2 = [] →
                  a.2 = []) as Hgrow.
  { induction fs as [|x fs IHfs]; intros a Ha; [done|].
    simpl in Ha. apply IHfs in Ha. unfold clean_field in Ha.
    destruct (Field_clean strptime_date x.2 _ _); simpl in Ha; [done|].
    by apply app_eq_nil in Ha as [? _]. }
  apply Hgrow in Hnil. unfold clean_field in Hnil. simpl in Hnil.
  rewrite Hclean in Hnil. simpl in Hnil. by apply app_eq_nil in Hnil as [_ ?].
Qed.

Lemma full_clean_valid_field fields inst data files name field :
  NoDup fields.*1 → (name, field) ∈ fields →
  is_valid (full_clean strptime_date fields no_clean inst data files) = true →
  ∃ v, Field_clean strptime_date field (data !! name) (files !! name)
       = Cleaned v ∧
       instance (full_clean strptime_date fields no_clean inst data files)
         !! name = Some v.
Proof.
  intros Hnd Hin Hvalid. unfold is_valid in Hvalid.
  apply bool_decide_eq_true in Hvalid.
  rewrite full_clean_errors in Hvalid. simpl in Hvalid.
  rewrite app_nil_r in Hvalid.
  destruct (clean_fields_no_errors _ _ _ _ _ _ Hvalid Hin) as [v Hv].
  exists v. split; [done|].
  pose proof (clean_fields_lookup _ data files _ _ Hnd Hin) as Hcd.
  rewrite Hv in Hcd. unfold full_clean.
  destruct (clean_fields _ _ _ _) as [cd errs]. simpl in *.
  apply construct_instance_lookup; [|done].
  apply list_elem_of_fmap. by exists (name, field).
Qed.

(** What the kinds of fields of the event forms clean to. *)
Lemma Field_clean_required_key queryset data file v :
  Field_clean strptime_date (ModelChoiceField true queryset) data file
  = Cleaned v → ∃ k, v = VKey k.
Proof.
  simpl. case_bool_decide; [done|].
  destruct (python_int _) as [k|]; [|done].
  case_bool_decide; [|done]. intros [= <-]. by exists k.
Qed.

Lemma Field_clean_char required max_length data file v :
  Field_clean strptime_date (CharField required max_length) data file
  = Cleaned v → ∃ s, v = VStr s.
Proof.
  simpl. destruct (required && _); [done|].
  destruct max_length as [n|].
  - case_bool_decide; [done|]. intros [= <-]. by eexists.
  - intros [= <-]. by eexists.
Qed.

Lemma Field_clean_choice required choices data file v :
  Field_clean strptime_date (ChoiceField required choices) data file
  = Cleaned v → ∃ s, v = VStr s.
Proof.
  simpl. case_bool_decide.
  - destruct required; [done|]. intros [= <-]. by eexists.
  - case_bool_decide; [|done]. intros [= <-]. by eexists.
Qed.

Lemma Field_clean_required_date data file v :
  Field_clean strptime_date (DateField true) data file = Cleaned v →
  ∃ d, v = VDate d.
Proof.
  simpl. case_bool_decide; [done|].
  destruct (strptime_date _) as [d|]; [|done]. intros [= <-]. by exists d.
Qed.
End forms_facts.

Lemma Event_row_total now inst :
  (∃ k, inst !! "reef" = Some (VKey k)) →
  (∃ s, inst !! "event_type" = Some (VStr s)) →
  (∃ s, inst !! "title" = Some (VStr s)) →
  (∃ s, inst !! "description" = Some (VStr s)) →
  (∃ s, inst !! "severity" = Some (VStr s)) →
  (∃ d, inst !! "event_date" = Some (VDate d)) →
  (∃ v r, inst !! "reported_by" = Some v ∧ as_nullable_key v = Some r) →
  (∃ b, inst !! "resolved" = Some (VBool b)) →
  (∃ s, inst !! "notes" = Some (VStr s)) →
  is_Some (Event_row now inst).
Proof.
  intros [? H1] [? H2] [? H3] [? H4] [? H5] [? H6] (? & ? & H7 & H7')
         [? H8] [? H9].
  unfold Event_row.
  rewrite H1, H2, H3, H4, H5, H6, H7, H8, H9. simpl. rewrite H7'. simpl.
  by eexists.
Qed.

Lemma Event_form_save_Ok form now db pk e db' :
  Event_form_save form now db = Ok (pk, e, db') →
  is_valid form = true ∧ pk = Event_seq db ∧
  Event_row now (instance form) = Some e ∧
  Event_objects db !! pk = None ∧
  db' = set_events (<[pk := e]> (Event_objects db)) (pk + 1) db.
Proof.
  unfold Event_form_save. destruct (is_valid form); simpl; [|done].
  destruct (Event_row now (instance form)) as [e'|]; [|done].
  destruct (Event_objects db !! Event_seq db) eqn:Hseq; [done|].
  by intros [= <- <- <-].
Qed.

Lemma Event_form_save_total form now db :
  is_valid form = true → is_Some (Event_row now (instance form)) →
  Event_objects db !! Event_seq db = None →
  ∃ e, Event_form_save form now db =
         Ok (Event_seq db, e,
             set_events (<[Event_seq db := e]> (Event_objects db))
               (Event_seq db + 1) db).
Proof.
  intros Hvalid [e Hrow] Hfree. unfold Event_form_save.
  rewrite Hvalid, Hrow, Hfree. by exists e.
Qed.

Section event_forms.
Variable strptime_date : string → option date.

Lemma PollutionReportForm_fields_NoDup db :
  NoDup (PollutionReportForm_fields db).*1.
Proof. apply (bool_decide_unpack _). by vm_compute. Qed.

Lemma CoralSightingForm_fields_NoDup db :
  NoDup (CoralSightingForm_fields db).*1.
Proof. apply (bool_decide_unpack _). by vm_compute. Qed.

Ltac field_of form_fields_NoDup Hvalid name kind :=
  let v := fresh "v" in
  let Hc := fresh "Hc" in
  let Hi := fresh "Hi" in
  destruct (full_clean_valid_field strptime_date _ _ _ _ name kind
              form_fields_NoDup
              ltac:(unfold PollutionReportForm_fields, CoralSightingForm_fields;
                    rewrite !elem_of_cons; tauto)
              Hvalid) as (v & Hc & Hi).

(** A pollution report that validates can be stored. *)
Lemma PollutionReportForm_row data files db now reported_by r :
  as_nullable_key reported_by = Some r →
  is_valid (PollutionReportForm strptime_date data files db) = true →
  is_Some
    (Event_row now
       (instance
          (setattr "event_type" (VStr "pollution")
             (setattr "reported_by" reported_by
                (PollutionReportForm strptime_date data files db))))).
Proof.
  intros Hr Hvalid. unfold PollutionReportForm in *.
  field_of (PollutionReportForm_fields_NoDup db) Hvalid "reef"
    (ModelChoiceField true (dom (Reef_objects db))).
  apply Field_clean_required_key in Hc as [k ->].
  field_of (PollutionReportForm_fields_NoDup db) Hvalid "title"
    (CharField true (Some 200%nat)).
  apply Field_clean_char in Hc as [title ->].
  field_of (PollutionReportForm_fields_NoDup db) Hvalid "description"
    (CharField true None).
  apply Field_clean_char in Hc as [description ->].
  field_of (PollutionReportForm_fields_NoDup db) Hvalid "severity"
    (ChoiceField true Event.SEVERITY_CHOICES).
  apply Field_clean_choice in Hc as [severity ->].
  field_of (PollutionReportForm_fields_NoDup db) Hvalid "event_date" (DateField true).
  apply Field_clean_required_date in Hc as [d ->].
  field_of (PollutionReportForm_fields_NoDup db) Hvalid "notes" (CharField false None).
  apply Field_clean_char in Hc as [notes ->].
  pose proof (full_clean_instance_other strptime_date
                (PollutionReportForm_fields db) no_clean
                (<["event_type":=VStr "pollution"]> Event_new) data files
                "resolved") as Hresolved.
  set (form := full_clean _ _ _ _ _ _) in *. clearbody form.
  apply Event_row_total; simpl.
  - exists k. by rewrite !lookup_insert_ne.
  - exists "pollution". by rewrite lookup_insert_eq.
  - exists title. by rewrite !lookup_insert_ne.
  - exists description. by rewrite !lookup_insert_ne.
  - exists severity. by rewrite !lookup_insert_ne.
  - exists d. by rewrite !lookup_insert_ne.
  - exists reported_by, r. split; [|done].
    by rewrite lookup_insert_ne, lookup_insert_eq.
  - exists false. rewrite !lookup_insert_ne by done.
    rewrite Hresolved; [done|].
    apply (bool_decide_unpack _). by vm_compute.
  - exists notes. by rewrite !lookup_insert_ne.
Qed.

(** A coral sighting that validates can be stored. *)
Lemma CoralSightingForm_row data files db now :
  is_valid (CoralSightingForm strptime_date data files db) = true →
  is_Some
    (Event_row now (instance (CoralSightingForm strptime_date data files db))).
Proof.
  intros Hvalid. unfold CoralSightingForm in *.
  field_of (CoralSightingForm_fields_NoDup db) Hvalid "reef"
    (ModelChoiceField true (dom (Reef_objects db))).
  apply Field_clean_required_key in Hc as [k ->].
  field_of (CoralSightingForm_fields_NoDup db) Hvalid "title"
    (CharField true (Some 200%nat)).
  apply Field_clean_char in Hc as [title ->].
  field_of (CoralSightingForm_fields_NoDup db) Hvalid "description"
    (CharField true None).
  apply Field_clean_char in Hc as [description ->].
  field_of (CoralSightingForm_fields_NoDup db) Hvalid "event_date" (DateField true).
  apply Field_clean_required_date in Hc as [d ->].
  field_of (CoralSightingForm_fields_NoDup db) Hvalid "notes" (CharField false None).
  apply Field_clean_char in Hc as [notes ->].
  assert (∀ name, name ∉ (CoralSightingForm_fields db).*1 →
            instance
              (full_clean strptime_date (CoralSightingForm_fields db) no_clean
                 (<["severity":=VStr "low"]>
                    (<["event_type":=VStr "sighting"]> Event_new)) data files)
              !! name
            = (<["severity":=VStr "low"]>
                 (<["event_type":=VStr "sighting"]> Event_new)) !! name)
    as Hother by (intros; by apply full_clean_instance_other).
  apply Event_row_total.
  - by exists k.
  - exists "sighting". rewrite Hother; [done|].
    apply (bool_decide_unpack _). by vm_compute.
  - by exists title.
  - by exists description.
  - exists "low". rewrite Hother; [done|].
    apply (bool_decide_unpack _). by vm_compute.
  - by exists d.
  - exists VNone, None. split; [|done]. rewrite Hother; [done|].
    apply (bool_decide_unpack _). by vm_compute.
  - exists false. rewrite Hother; [done|].
    apply (bool_decide_unpack _). by vm_compute.
  - by exists notes.
Qed.
End event_forms.

(** C6. Whatever the client posts, a pollution report of a logged-in
    visitor that validates is stored (the next key being free) as one new
    event of type [pollution], and no call of the view stores an event of
    another type; a coral sighting form that validates is stored as one new
    event of type [sighting] and severity [low]. *)
Theorem submissions_pin_event_type strptime_date request db :
  (∀ resp request' db',
     PollutionReportCreateView_post strptime_date request db
     = Ok (resp, request', db') →
     ∀ k e, Event_objects db' !! k = Some e →
            Event_objects db !! k = Some e ∨ Event.event_type e = "pollution") ∧
  (is_authenticated (user request) = true →
   is_valid (PollutionReportForm strptime_date (POST request)
               (FILES request) db) = true →
   Event_objects db !! Event_seq db = None →
   ∃ e request',
     PollutionReportCreateView_post strptime_date request db
     = Ok (HttpResponseRedirect "event_list", request',
           set_events (<[Event_seq db := e]> (Event_objects db))
             (Event_seq db + 1) db) ∧
     Event.event_type e = "pollution") ∧
  (∀ data files now,
     let form := CoralSightingForm strptime_date data files db in
     (∀ pk e db',
        Event_form_save form now db = Ok (pk, e, db') →
        Event.event_type e = "sighting" ∧ Event.severity e = "low") ∧
     (is_valid form = true → Event_objects db !! Event_seq db = None →
      ∃ e, Event_form_save form now db
           = Ok (Event_seq db, e,
                 set_events (<[Event_seq db := e]> (Event_objects db))
                   (Event_seq db + 1) db) ∧
           Event.event_type e = "sighting" ∧ Event.severity e = "low")).
Proof.
  assert (∀ data files now pk e db',
            Event_form_save (CoralSightingForm strptime_date data files db) now db
            = Ok (pk, e, db') →
            Event.event_type e = "sighting" ∧ Event.severity e = "low")
    as Hsighting.
  { intros data files now pk e db' Hsave.
    apply Event_form_save_Ok in Hsave as (_ & -> & Hrow & Hfree & ->).
    apply Event_row_Some in Hrow as (Htype & Hseverity & _).
    unfold CoralSightingForm in Htype, Hseverity.
    rewrite full_clean_instance_other in Htype, Hseverity;
      try (apply (bool_decide_unpack _); by vm_compute).
    rewrite lookup_insert_ne, lookup_insert_eq in Htype by done.
    rewrite lookup_insert_eq in Hseverity.
    injection Htype as <-. injection Hseverity as <-. done. }
  assert (∀ form now pk e db',
            Event_form_save
              (setattr "event_type" (VStr "pollution") form) now db
            = Ok (pk, e, db') → Event.event_type e = "pollution") as Hpollution.
  { intros form now pk e db' Hsave.
    apply Event_form_save_Ok in Hsave as (_ & _ & Hrow & _).
    apply Event_row_Some in Hrow as (Htype & _). simpl in Htype.
    rewrite lookup_insert_eq in Htype. by injection Htype as <-. }
  split; [|split].
  - intros resp request' db'. unfold PollutionReportCreateView_post.
    destruct (is_authenticated (user request)); simpl.
    2:{ intros [= <- <- <-] k e. by left. }
    destruct (is_valid (PollutionReportForm _ _ _ _)) eqn:Hvalid.
    2:{ intros [= <- <- <-] k e. by left. }
    unfold PollutionReportCreateView_form_valid.
    destruct (Event_form_save _ _ _) as [[[pk e] db1]|] eqn:Hsave; [|done].
    simpl. intros [= <- <- <-] k e' Hk.
    pose proof (Hpollution _ _ _ _ _ Hsave) as Htype.
    apply Event_form_save_Ok in Hsave as (_ & -> & _ & _ & ->).
    simpl in Hk.
    apply lookup_insert_Some in Hk as [[_ <-]|[_ Hk]]; [by right|by left].
  - intros Hauth Hvalid Hfree. unfold PollutionReportCreateView_post.
    rewrite Hauth, Hvalid. simpl.
    unfold PollutionReportCreateView_form_valid.
    destruct (user request) as [|u] eqn:Hu; [done|].
    destruct (Event_form_save_total
                (setattr "event_type" (VStr "pollution")
                   (setattr "reported_by" (VKey u)
                      (PollutionReportForm strptime_date (POST request)
                         (FILES request) db)))
                (now (messages_success
                        "Pollution report submitted successfully. Thank you!"
                        request)) db) as [e Hsave].
    + done.
    + by apply (PollutionReportForm_row _ _ _ _ _ _ (Some u)).
    + done.
    + rewrite Hsave. simpl. eexists e, _. split; [done|].
      by eapply Hpollution.
  - intros data files now form. split; [apply Hsighting|].
    intros Hvalid Hfree.
    destruct (Event_form_save_total form now db Hvalid) as [e Hsave];
      [by apply CoralSightingForm_row|done|].
    exists e. split; [done|]. by eapply Hsighting.
Qed.

Lemma submissions_pin_event_type_witness :
  (∃ e request',
     PollutionReportCreateView_post example_strptime
       (example_request (CustomUser 7) [] example_report) example_db
     = Ok (HttpResponseRedirect "event_list", request',
           set_events (<[1 := e]> ∅) 2 example_db) ∧
     Event.event_type e = "pollution") ∧
  ∃ e,
    Event_form_save
      (CoralSightingForm example_strptime (list_to_map example_report) ∅
         example_db) 100 example_db
    = Ok (1, e, set_events (<[1 := e]> ∅) 2 example_db) ∧
    Event.event_type e = "sighting" ∧ Event.severity e = "low".
Proof.
  destruct (submissions_pin_event_type example_strptime
              (example_request (CustomUser 7) [] example_report) example_db)
    as (_ & Hpollution & Hsighting).
  split.
  - apply Hpollution; reflexivity.
  - apply (Hsighting (list_to_map example_report) ∅ 100); reflexivity.
Defined.

Section upload_facts.
Variable strptime_date : string → option date.
Variable FileValidator : UploadedFile → option string.

Lemma ImageUploadForm_fields_NoDup db :
  NoDup (ImageUploadForm_fields FileValidator db).*1.
Proof. apply (bool_decide_unpack _). by vm_compute. Qed.

(** The file field accepts a named, non-empty file that the validator
    lets through. *)
Lemma ImageUploadForm_cleaned_file data files db f :
  files !! "file" = Some f → file_name f ≠ "" → file_size f ≠ 0 →
  FileValidator f = None →
  (clean_fields strptime_date (ImageUploadForm_fields FileValidator db)
     data files).1 !! "file" = Some (VFile f).
Proof.
  intros Hfile Hname Hsize Hvalid.
  rewrite (clean_fields_lookup _ _ _ _ _ (FileField true [FileValidator])
             (ImageUploadForm_fields_NoDup db)).
  - rewrite Hfile. simpl.
    rewrite !bool_decide_eq_false_2 by done. by rewrite Hvalid.
  - unfold ImageUploadForm_fields. rewrite !elem_of_cons. tauto.
Qed.

Lemma ImageUploadForm_cleaned_media_type data files db media_type :
  data !! "media_type" = Some media_type →
  media_type ∈ ["photo"; "video"] →
  (clean_fields strptime_date (ImageUploadForm_fields FileValidator db)
     data files).1 !! "media_type" = Some (VStr media_type).
Proof.
  intros Hdata Hchoice.
  rewrite (clean_fields_lookup _ _ _ _ _
             (ChoiceField true ImageGallery.MEDIA_TYPE_CHOICES)
             (ImageUploadForm_fields_NoDup db)).
  - rewrite Hdata.
    rewrite !elem_of_cons, elem_of_nil in Hchoice.
    destruct Hchoice as [->|[->|[]]]; reflexivity.
  - unfold ImageUploadForm_fields. rewrite !elem_of_cons. tauto.
Qed.

Lemma ImageUploadForm_clean_photo cd f :
  cd !! "media_type" = Some (VStr "photo") → cd !! "file" = Some (VFile f) →
  file_name f ≠ "" → file_ext f ∈ video_extensions →
  ImageUploadForm_clean cd = Invalid photo_but_video.
Proof.
  intros Hmedia Hfile Hname Hext. unfold ImageUploadForm_clean.
  rewrite Hmedia, Hfile. simpl.
  rewrite (bool_decide_eq_true_2 (file_name f ≠ "")) by done. simpl.
  fold (file_ext f). fold video_extensions.
  by rewrite (bool_decide_eq_true_2 (file_ext f ∈ video_extensions)).
Qed.

Lemma ImageUploadForm_clean_video cd f :
  cd !! "media_type" = Some (VStr "video") → cd !! "file" = Some (VFile f) →
  file_name f ≠ "" → file_ext f ∈ image_extensions →
  ImageUploadForm_clean cd = Invalid video_but_photo.
Proof.
  intros Hmedia Hfile Hname Hext. unfold ImageUploadForm_clean.
  rewrite Hmedia, Hfile. simpl.
  rewrite (bool_decide_eq_true_2 (file_name f ≠ "")) by done. simpl.
  fold (file_ext f). fold image_extensions.
  by rewrite (bool_decide_eq_true_2 (file_ext f ∈ image_extensions)).
Qed.

Lemma form_with_error_not_valid (form : Form) e :
  e ∈ errors form → is_valid form = false.
Proof.
  intros He. unfold is_valid. apply bool_decide_eq_false_2.
  intros Hnil. rewrite Hnil in He. by apply elem_of_nil in He.
Qed.
End upload_facts.

(** C7 (as amended). For an upload whose file passes the file field (it has
    a name, it is not empty, the validator accepts it): with the media type
    [photo] and a video extension the form is rejected with the
    photo-but-video message, with the media type [video] and an image
    extension it is rejected with the other message; the two messages
    differ; a rejected form cannot be saved, so nothing is stored. *)
Theorem ImageUploadForm_type_mismatch strptime_date FileValidator
    generate_filename data files db f now :
  files !! "file" = Some f → file_name f ≠ "" → file_size f ≠ 0 →
  FileValidator f = None →
  let form := ImageUploadForm strptime_date FileValidator data files db in
  (data !! "media_type" = Some "photo" → file_ext f ∈ video_extensions →
     ("__all__", photo_but_video) ∈ errors form ∧ is_valid form = false ∧
     ImageGallery_form_save generate_filename form now db = Raise ValueError) ∧
  (data !! "media_type" = Some "video" → file_ext f ∈ image_extensions →
     ("__all__", video_but_photo) ∈ errors form ∧ is_valid form = false ∧
     ImageGallery_form_save generate_filename form now db = Raise ValueError) ∧
  photo_but_video ≠ video_but_photo.
Proof.
  intros Hfile Hname Hsize Hvalid form.
  pose proof (ImageUploadForm_cleaned_file strptime_date FileValidator
                data files db f Hfile Hname Hsize Hvalid) as Hcf.
  assert (∀ message,
            ImageUploadForm_clean
              (clean_fields strptime_date
                 (ImageUploadForm_fields FileValidator db) data files).1
            = Invalid message →
            ("__all__", message) ∈ errors form ∧ is_valid form = false ∧
            ImageGallery_form_save generate_filename form now db
            = Raise ValueError) as Hrejected.
  { intros message Hclean.
    assert (("__all__", message) ∈ errors form) as Herr.
    { unfold form, ImageUploadForm. rewrite full_clean_errors, Hclean.
      apply elem_of_app. right. left. }
    split; [done|].
    pose proof (form_with_error_not_valid _ _ Herr) as Hinvalid.
    split; [done|]. unfold ImageGallery_form_save. by rewrite Hinvalid. }
  split; [|split].
  - intros Hmedia Hext. apply Hrejected.
    apply (ImageUploadForm_clean_photo _ f); try done.
    apply ImageUploadForm_cleaned_media_type; [done|]. left.
  - intros Hmedia Hext. apply Hrejected.
    apply (ImageUploadForm_clean_video _ f); try done.
    apply ImageUploadForm_cleaned_media_type; [done|]. right. left.
  - by vm_compute.
Qed.

Lemma ImageUploadForm_type_mismatch_witness :
  ("__all__", photo_but_video) ∈
    errors (ImageUploadForm example_strptime accept_all (example_media "photo")
              (example_upload "photo.mp4" 2048) example_db) ∧
  ("__all__", video_but_photo) ∈
    errors (ImageUploadForm example_strptime accept_all (example_media "video")
              (example_upload "clip.jpg" 2048) example_db).
Proof.
  split.
  - apply (ImageUploadForm_type_mismatch example_strptime accept_all
             example_filename (example_media "photo")
             (example_upload "photo.mp4" 2048) example_db
             {| file_name := "photo.mp4"; file_size := 2048;
                content_type := "application/octet-stream" |} 100).
    + reflexivity.
    + discriminate.
    + discriminate.
    + reflexivity.
    + reflexivity.
    + apply (bool_decide_unpack _). by vm_compute.
  - apply (ImageUploadForm_type_mismatch example_strptime accept_all
             example_filename (example_media "video")
             (example_upload "clip.jpg" 2048) example_db
             {| file_name := "clip.jpg"; file_size := 2048;
                content_type := "application/octet-stream" |} 100).
    + reflexivity.
    + discriminate.
    + discriminate.
    + reflexivity.
    + reflexivity.
    + apply (bool_decide_unpack _). by vm_compute.
Defined.

(** C7 as the claim has it fails: a file named [photo.mp4] that is empty,
    declared a photo, is rejected by the file field, and the form's errors
    carry that field's message and not the photo-but-video message. *)
Lemma ImageUploadForm_empty_file_other_message :
  file_ext {| file_name := "photo.mp4"; file_size := 0;
              content_type := "application/octet-stream" |}
    ∈ video_extensions ∧
  errors (ImageUploadForm example_strptime accept_all (example_media "photo")
            (example_upload "photo.mp4" 0) example_db)
  = [("file", "The submitted file is empty.")] ∧
  ("__all__", photo_but_video) ∉
    errors (ImageUploadForm example_strptime accept_all (example_media "photo")
              (example_upload "photo.mp4" 0) example_db).
Proof.
  split; [apply (bool_decide_unpack _); by vm_compute|].
  assert (errors (ImageUploadForm example_strptime accept_all
                    (example_media "photo") (example_upload "photo.mp4" 0)
                    example_db)
          = [("file", "The submitted file is empty.")]) as Herrors
    by by vm_compute.
  split; [exact Herrors|]. rewrite Herrors.
  intros Hin. apply list_elem_of_singleton in Hin. discriminate.
Qed.

(** ** The first rows of an ordered query *)

Lemma Sorted_weaken {A} (R R' : relation A) l :
  (∀ a b, R a b → R' a b) → Sorted R l → Sorted R' l.
Proof.
  intros HR. induction 1 as [|a l _ IH Hhd]; constructor; [done|].
  destruct Hhd; constructor. by apply HR.
Qed.

Section order_trans.
Context {row : Type}.
Implicit Types (c : order_term row) (cs : list (order_term row)).

Lemma lex_compare_trans cs a b d :
  Forall preorder_term cs →
  lex_compare cs a b ≠ Gt → lex_compare cs b d ≠ Gt →
  lex_compare cs a d ≠ Gt.
Proof.
  induction 1 as [|c cs [_ Hc] _ IH]; [done|]. simpl. intros Hab Hbd.
  assert (c a b ≠ Gt) as Hab' by (destruct (c a b); done).
  assert (c b d ≠ Gt) as Hbd' by (destruct (c b d); done).
  destruct (Hc a b d Hab' Hbd') as [Had Heq].
  destruct (c a d) eqn:Ead; [|done..].
  destruct (Heq eq_refl) as [Eab Ebd]. rewrite Eab in Hab. rewrite Ebd in Hbd.
  by apply IH.
Qed.

Lemma order_le_trans cs : Forall preorder_term cs → Transitive (order_le cs).
Proof. intros Hcs a b d. unfold order_le. by apply lex_compare_trans. Qed.

Lemma preorder_terms_antisym cs :
  Forall preorder_term cs → Forall antisym_term cs.
Proof. intros H. eapply Forall_impl; [done|]. by intros c [? _]. Qed.

Lemma preorder_descending c : preorder_term c → preorder_term (descending c).
Proof.
  intros [Ha Ht]. split; [by apply antisym_descending|].
  intros a b d. unfold descending.
  rewrite <- !(Ha _ _). intros Hab Hbd.
  destruct (Ht d b a Hbd Hab) as [Hda Heq]. split; [done|].
  intros E. destruct (Heq E). done.
Qed.

Lemma preorder_by_key {K} (cmp : K → K → comparison) (key : row → K) :
  (∀ x y, cmp y x = CompOpp (cmp x y)) →
  (∀ x y z, cmp x y ≠ Gt → cmp y z ≠ Gt →
            cmp x z ≠ Gt ∧ (cmp x z = Eq → cmp x y = Eq ∧ cmp y z = Eq)) →
  preorder_term (by_key cmp key).
Proof.
  intros Ha Ht. split; [by apply antisym_by_key|].
  intros a b d. unfold by_key. apply Ht.
Qed.

(** A query evaluated under a transitive ordering: no row left out of the
    first [n] may come strictly before one of them. *)
Lemma evaluate_StronglySorted (qs : QuerySet row) :
  Forall preorder_term (qs_order qs) →
  StronglySorted (order_le (qs_order qs)) (evaluate qs).
Proof.
  intros Hcs.
  apply (@Sorted_StronglySorted _ _ (order_le_trans _ Hcs)).
  apply evaluate_Sorted. by apply preorder_terms_antisym.
Qed.

Lemma take_evaluate_first (qs : QuerySet row) n a b :
  Forall preorder_term (qs_order qs) →
  a ∈ take n (evaluate qs) → b ∈ qs_rows qs → b ∉ take n (evaluate qs) →
  order_le (qs_order qs) a b.
Proof.
  intros Hcs Ha Hb Hnot.
  pose proof (evaluate_StronglySorted qs Hcs) as Hsorted.
  rewrite <- (take_drop n (evaluate qs)) in Hsorted.
  eapply StronglySorted_app_1_elem_of; [done..|].
  apply elem_of_evaluate in Hb. rewrite <- (take_drop n (evaluate qs)) in Hb.
  apply elem_of_app in Hb as [?|?]; done.
Qed.

Lemma take_evaluate_elem (qs : QuerySet row) n o :
  o ∈ take n (evaluate qs) → o ∈ qs_rows qs.
Proof. intros Ho. apply elem_of_evaluate. by eapply subseteq_take. Qed.

Lemma take_evaluate_NoDup (qs : QuerySet row) n :
  NoDup (qs_rows qs) → NoDup (take n (evaluate qs)).
Proof.
  intros Hnd. eapply sublist_NoDup; [|apply sublist_take].
  by apply evaluate_NoDup.
Qed.

Lemma take_evaluate_length (qs : QuerySet row) n :
  length (take n (evaluate qs)) = (n `min` length (qs_rows qs))%nat.
Proof. by rewrite length_take, evaluate_Permutation. Qed.
End order_trans.

Lemma Z_compare_preorder x y z :
  (x ?= y) ≠ Gt → (y ?= z) ≠ Gt →
  (x ?= z) ≠ Gt ∧ ((x ?= z) = Eq → (x ?= y) = Eq ∧ (y ?= z) = Eq).
Proof.
  destruct (Z.compare_spec x y), (Z.compare_spec y z), (Z.compare_spec x z);
    try done; try lia; intros _ _; split; try done; intros; lia.
Qed.

Lemma date_compare_Lt a b :
  date_compare a b = Lt ↔
  year a < year b ∨
  (year a = year b ∧ (month a < month b ∨ (month a = month b ∧ day a < day b))).
Proof.
  unfold date_compare.
  destruct (Z.compare_spec (year a) (year b)),
           (Z.compare_spec (month a) (month b)),
           (Z.compare_spec (day a) (day b)); split; try done; lia.
Qed.

Lemma date_compare_Eq a b :
  date_compare a b = Eq ↔ year a = year b ∧ month a = month b ∧ day a = day b.
Proof.
  unfold date_compare.
  destruct (Z.compare_spec (year a) (year b)),
           (Z.compare_spec (month a) (month b)),
           (Z.compare_spec (day a) (day b)); split; try done; lia.
Qed.

Lemma date_compare_not_Gt a b :
  date_compare a b ≠ Gt ↔
  year a < year b ∨
  (year a = year b ∧ (month a < month b ∨ (month a = month b ∧ day a ≤ day b))).
Proof.
  destruct (date_compare a b) eqn:E.
  - apply date_compare_Eq in E. split; [lia|done].
  - apply date_compare_Lt in E. split; [lia|done].
  - split; [done|]. intros H. exfalso.
    assert (date_compare a b = Eq ∨ date_compare a b = Lt) as [E'|E'];
      [|congruence..].
    rewrite date_compare_Eq, date_compare_Lt. lia.
Qed.

Lemma date_compare_preorder x y z :
  date_compare x y ≠ Gt → date_compare y z ≠ Gt →
  date_compare x z ≠ Gt ∧
  (date_compare x z = Eq → date_compare x y = Eq ∧ date_compare y z = Eq).
Proof.
  rewrite !date_compare_not_Gt, !date_compare_Eq. lia.
Qed.

Lemma Reef_ordering_preorder : Forall preorder_term Reef_ordering.
Proof.
  apply Forall_cons. split; [|by apply Forall_nil].
  apply preorder_descending, preorder_by_key;
    [apply Z.compare_antisym|apply Z_compare_preorder].
Qed.

Lemma Article_ordering_preorder : Forall preorder_term Article_ordering.
Proof.
  apply Forall_cons. split; [|by apply Forall_nil].
  apply preorder_descending, preorder_by_key;
    [apply Z.compare_antisym|apply Z_compare_preorder].
Qed.

Lemma Event_ordering_preorder : Forall preorder_term Event_ordering.
Proof.
  apply Forall_cons. split; [|apply Forall_cons; split; [|by apply Forall_nil]].
  - apply preorder_descending, preorder_by_key;
      [apply date_compare_antisym|apply date_compare_preorder].
  - apply preorder_descending, preorder_by_key;
      [apply Z.compare_antisym|apply Z_compare_preorder].
Qed.

Lemma ImageGallery_ordering_preorder : Forall preorder_term ImageGallery_ordering.
Proof.
  apply Forall_cons. split; [|by apply Forall_nil].
  apply preorder_descending, preorder_by_key;
    [apply Z.compare_antisym|apply Z_compare_preorder].
Qed.

(** ** The home page *)

Lemma descending_Z_le {row} (key : row → Z) (a b : Z * row) :
  order_le [descending (by_key Z.compare key)] a b → key b.2 ≤ key a.2.
Proof.
  rewrite order_le_single. unfold descending, by_key.
  destruct (Z.compare_spec (key a.2) (key b.2)); simpl; try done; lia.
Qed.

Lemma descending_date_le {row} (key : row → date) (a b : Z * row) :
  order_le [descending (by_key date_compare key)] a b →
  date_compare (key b.2) (key a.2) ≠ Gt.
Proof.
  rewrite order_le_single. unfold descending, by_key.
  rewrite (date_compare_antisym (key a.2) (key b.2)).
  by destruct (date_compare (key a.2) (key b.2)).
Qed.

(** X1. The home page counts every reef and every event of the tables. It
    shows at most three articles, each published and featured, and no
    published and featured article it leaves out is newer than one it
    shows. It shows the five events (all of them when there are fewer) that
    come first by date: no event it leaves out is dated later than one it
    shows. *)
Theorem HomeView_context db :
  let context := HomeView_get_context_data db in
  reef_count context = size (Reef_objects db) ∧
  event_count context = size (Event_objects db) ∧
  (length (featured_articles context) ≤ 3)%nat ∧
  NoDup (featured_articles context) ∧
  (∀ o, o ∈ featured_articles context →
        Article_objects db !! o.1 = Some o.2 ∧
        Article.published o.2 = true ∧ Article.featured o.2 = true) ∧
  (∀ a k b, a ∈ featured_articles context →
            Article_objects db !! k = Some b →
            Article.published b = true → Article.featured b = true →
            (k, b) ∉ featured_articles context →
            Article.created_at b ≤ Article.created_at a.2) ∧
  length (recent_events context) = (5 `min` size (Event_objects db))%nat ∧
  NoDup (recent_events context) ∧
  (∀ o, o ∈ recent_events context → Event_objects db !! o.1 = Some o.2) ∧
  (∀ a k e, a ∈ recent_events context →
            Event_objects db !! k = Some e →
            (k, e) ∉ recent_events context →
            date_compare (Event.event_date e) (Event.event_date a.2) ≠ Gt).
Proof.
  intros context. unfold context, HomeView_get_context_data. simpl.
  set (featured :=
         qs_filter (λ o : Z * Article.t,
                      Article.published o.2 = true ∧ Article.featured o.2 = true)
           (objects_all Article_ordering (Article_objects db))).
  set (events := objects_all Event_ordering (Event_objects db)).
  assert (∀ o, o ∈ qs_rows featured ↔
               Article_objects db !! o.1 = Some o.2 ∧
               Article.published o.2 = true ∧ Article.featured o.2 = true)
    as Hfeatured.
  { intros o. unfold featured. simpl.
    rewrite list_elem_of_filter, elem_of_map_to_list'. tauto. }
  split; [apply length_map_to_list|]. split; [apply length_map_to_list|].
  split; [rewrite length_take; lia|].
  split; [apply take_evaluate_NoDup, NoDup_filter, NoDup_map_to_list|].
  split.
  { intros o Ho. by apply Hfeatured, (take_evaluate_elem featured 3). }
  split.
  { intros a k b Ha Hk Hp Hf Hout.
    apply (descending_Z_le Article.created_at a (k, b)).
    apply (take_evaluate_first featured 3 a (k, b)); try done.
    - apply Article_ordering_preorder.
    - by apply Hfeatured. }
  split.
  { rewrite take_evaluate_length. simpl. by rewrite length_map_to_list. }
  split; [apply take_evaluate_NoDup, NoDup_map_to_list|].
  split.
  { intros o Ho. apply (elem_of_objects_all Event_ordering).
    by apply (take_evaluate_elem events 5). }
  intros a k e Ha Hk Hout.
  apply (descending_date_le Event.event_date a (k, e)).
  apply (order_le_first _ [descending (by_key Z.compare Event.created_at)]).
  apply (take_evaluate_first events 5 a (k, e)); try done.
  - apply Event_ordering_preorder.
  - by apply (elem_of_objects_all Event_ordering (Event_objects db) (k, e)).
Qed.

(** ** The event page, and the pages of a reef that was deleted *)

Lemma get_object_by_pk {row} slug_of (ordering : list (order_term row))
    (t : gmap Z row) k slug :
  get_object slug_of (objects_all ordering t) (Some k) slug =
    match t !! k with Some r => Ok (k, r) | None => Raise Http404 end.
Proof.
  unfold get_object, qs_get, qs_filter, objects_all. simpl.
  rewrite filter_pk_map_to_list. by destruct (t !! k).
Qed.

(** X2. The event page of an event of the table shows that event and
    exactly the gallery items that point at it, each once, the latest
    upload first; the page of a key that is not in the table is not
    found. *)
Theorem EventDetailView_context k slug db :
  match Event_objects db !! k with
  | Some e =>
      ∃ items,
        EventDetailView_get_context_data (Some k) slug db
        = Ok {| context_event := (k, e); event_gallery_items := items |} ∧
        NoDup items ∧
        (∀ o, o ∈ items ↔
              ImageGallery_objects db !! o.1 = Some o.2 ∧
              ImageGallery.event o.2 = Some k) ∧
        Sorted (λ a b, ImageGallery.uploaded_at b.2 ≤ ImageGallery.uploaded_at a.2)
          items
  | None =>
      EventDetailView_get_context_data (Some k) slug db = Raise Http404
  end.
Proof.
  unfold EventDetailView_get_context_data. rewrite get_object_by_pk.
  destruct (Event_objects db !! k) as [e|]; [|done]. simpl.
  set (qs := qs_filter (λ o : Z * ImageGallery.t, ImageGallery.event o.2 = Some k)
               (objects_all ImageGallery_ordering (ImageGallery_objects db))).
  exists (evaluate qs). split; [done|]. split; [|split].
  - apply evaluate_NoDup, NoDup_filter, NoDup_map_to_list.
  - intros o. rewrite elem_of_evaluate. unfold qs. simpl.
    rewrite list_elem_of_filter, elem_of_map_to_list'. tauto.
  - eapply Sorted_weaken; [|apply (evaluate_Sorted qs)].
    + intros a b. apply descending_Z_le.
    + apply preorder_terms_antisym, ImageGallery_ordering_preorder.
Qed.

Lemma ReefListView_object_list_total request db :
  ∃ rows, ReefListView_object_list request db = Ok rows.
Proof.
  destruct (ReefListView_get_queryset_spec request db)
    as (qs & request' & Hqs & _).
  unfold ReefListView_object_list. rewrite Hqs. by eexists.
Qed.

(** X3. Once a reef is deleted, its detail page is not found and the visit
    is not recorded in the session; the toggle endpoint answers not-found
    for it and writes nothing; no user has it bookmarked any more, and the
    pairs of the bookmark table stay unique; the detail pages of its events
    are not found; and every reef listing shows the reefs it showed before
    except that one. *)
Theorem Reef_delete_pages pk db :
  let db' := Reef_delete pk db in
  (∀ request slug,
     ReefDetailView_get_context_data request (Some pk) slug db'
     = Raise Http404) ∧
  (∀ request, view_reef db' request pk = request) ∧
  (∀ request, is_authenticated (user request) = true →
              bookmark_toggle request pk db' = Raise Http404) ∧
  (∀ request, toggle_step db' (request, pk) = db') ∧
  (∀ k e slug, Event_objects db !! k = Some e → Event.reef e = pk →
               EventDetailView_get_context_data (Some k) slug db'
               = Raise Http404) ∧
  (∀ u, ¬ bookmarked u pk db') ∧
  (unique_together (ReefBookmark_objects db) →
   unique_together (ReefBookmark_objects db')) ∧
  (∀ request, ∃ rows rows',
     ReefListView_object_list request db = Ok rows ∧
     ReefListView_object_list request db' = Ok rows' ∧
     ∀ o, o ∈ rows' ↔ o ∈ rows ∧ o.1 ≠ pk).
Proof.
  intros db'.
  assert (Reef_objects db' !! pk = None) as Hgone
    by (unfold db', Reef_delete; simpl; apply lookup_delete_eq).
  assert (∀ request slug,
            ReefDetailView_get_context_data request (Some pk) slug db'
            = Raise Http404) as Hdetail.
  { intros request slug. unfold ReefDetailView_get_context_data.
    by rewrite get_object_by_pk, Hgone. }
  assert (∀ request, is_authenticated (user request) = true →
                     bookmark_toggle request pk db' = Raise Http404) as Htoggle.
  { intros request Hauth. unfold bookmark_toggle.
    destruct (user request); [done|].
    by rewrite get_object_or_404_lookup, Hgone. }
  split; [done|]. split.
  { intros request. unfold view_reef. by rewrite Hdetail. }
  split; [done|]. split.
  { intros request. unfold toggle_step. simpl.
    destruct (is_authenticated (user request)) eqn:Hauth.
    - by rewrite Htoggle.
    - unfold bookmark_toggle. by destruct (user request). }
  split.
  { intros k e slug Hk Hreef. unfold EventDetailView_get_context_data.
    rewrite get_object_by_pk.
    assert (Event_objects db' !! k = None) as ->; [|done].
    unfold db', Reef_delete. simpl. apply map_lookup_filter_None. right.
    intros e' Hk' Hnot. apply Hnot. unfold event_of_reef. simpl. congruence. }
  split.
  { intros u (k & b & Hk & _ & Hr). unfold db', Reef_delete in Hk.
    simpl in *. by apply map_lookup_filter_Some in Hk as [_ Hk]. }
  split.
  { intros Huniq k1 k2 b1 b2 H1 H2. unfold db', Reef_delete in *. simpl in *.
    apply map_lookup_filter_Some in H1 as [H1 _].
    apply map_lookup_filter_Some in H2 as [H2 _]. by eapply Huniq. }
  intros request.
  destruct (ReefListView_object_list_total request db) as [rows Hrows].
  destruct (ReefListView_object_list_total request db') as [rows' Hrows'].
  exists rows, rows'. split; [done|]. split; [done|]. intros o.
  apply ReefListView_object_list_rows in Hrows as [_ ->].
  apply ReefListView_object_list_rows in Hrows' as [_ ->].
  unfold Reef_selected, db', Reef_delete. simpl.
  rewrite lookup_delete_Some. intuition congruence.
Qed.

Lemma Reef_delete_pages_witness :
  bookmark_toggle (example_request (CustomUser 7) [] []) 1
    (Reef_delete 1 example_db_events) = Raise Http404 ∧
  EventDetailView_get_context_data (Some 1) None (Reef_delete 1 example_db_events)
  = Raise Http404.
Proof.
  destruct (Reef_delete_pages 1 example_db_events)
    as (_ & _ & Htoggle & _ & Hevent & _).
  split.
  - apply Htoggle. reflexivity.
  - apply (Hevent 1 (example_event 1 "bleaching" "high" 2024)); reflexivity.
Defined.

(** ** The bookmark page and the toggle *)

Lemma ReefBookmark_ordering_preorder :
  Forall preorder_term ReefBookmark_ordering.
Proof.
  change ReefBookmark_ordering
    with [descending (by_key Z.compare ReefBookmark.created_at)].
  apply Forall_cons. split; [|by apply Forall_nil].
  apply preorder_descending, preorder_by_key;
    [apply Z.compare_antisym|apply Z_compare_preorder].
Qed.

Lemma elem_of_BookmarkListView_get_queryset u db o :
  o ∈ evaluate (BookmarkListView_get_queryset u db) ↔
  ReefBookmark_objects db !! o.1 = Some o.2 ∧ ReefBookmark.user o.2 = u.
Proof.
  rewrite elem_of_evaluate. unfold BookmarkListView_get_queryset. simpl.
  rewrite list_elem_of_filter, elem_of_map_to_list'. tauto.
Qed.

Lemma NoDup_BookmarkListView_get_queryset u db :
  NoDup (evaluate (BookmarkListView_get_queryset u db)).
Proof. apply evaluate_NoDup, NoDup_filter, NoDup_map_to_list. Qed.

(** X4. The bookmark page sends the anonymous visitor to the login page. To
    a logged-in user it lists exactly the bookmarks of that user, each
    once, the newest first; and where the pairs of the bookmark table are
    unique, no reef comes twice on the page. *)
Theorem BookmarkListView_page request db :
  match user request with
  | AnonymousUser => BookmarkListView_object_list request db = LoginRedirect
  | CustomUser u =>
      ∃ rows,
        BookmarkListView_object_list request db = Handled rows ∧
        NoDup rows ∧
        (∀ o, o ∈ rows ↔ ReefBookmark_objects db !! o.1 = Some o.2 ∧
                          ReefBookmark.user o.2 = u) ∧
        Sorted (λ a b, ReefBookmark.created_at b.2 ≤ ReefBookmark.created_at a.2)
          rows ∧
        (unique_together (ReefBookmark_objects db) →
         NoDup ((λ o, ReefBookmark.reef o.2) <$> rows))
  end.
Proof.
  unfold BookmarkListView_object_list.
  destruct (user request) as [|u]; [done|].
  exists (evaluate (BookmarkListView_get_queryset u db)).
  split; [done|]. split; [apply NoDup_BookmarkListView_get_queryset|].
  split; [apply elem_of_BookmarkListView_get_queryset|]. split.
  - eapply Sorted_weaken;
      [|apply (evaluate_Sorted (BookmarkListView_get_queryset u db))].
    + intros a b.
      apply (descending_Z_le ReefBookmark.created_at a b).
    + apply preorder_terms_antisym, ReefBookmark_ordering_preorder.
  - intros Huniq. apply NoDup_fmap_2_strong;
      [|apply NoDup_BookmarkListView_get_queryset].
    intros [k1 b1] [k2 b2] H1 H2 Hreef.
    apply elem_of_BookmarkListView_get_queryset in H1 as [H1 Hu1].
    apply elem_of_BookmarkListView_get_queryset in H2 as [H2 Hu2].
    simpl in *. assert (k1 = k2) as -> by (eapply Huniq; eauto; congruence).
    congruence.
Qed.

Lemma BookmarkListView_get_queryset_Permutation v db db' :
  (∀ k b, ReefBookmark.user b = v →
          ReefBookmark_objects db' !! k = Some b ↔
          ReefBookmark_objects db !! k = Some b) →
  evaluate (BookmarkListView_get_queryset v db')
  ≡ₚ evaluate (BookmarkListView_get_queryset v db).
Proof.
  intros Hsame. apply NoDup_Permutation;
    [apply NoDup_BookmarkListView_get_queryset..|].
  intros [k b]. rewrite !elem_of_BookmarkListView_get_queryset. simpl.
  split; intros [Hk Hv]; (split; [|done]); by apply (Hsame k b Hv).
Qed.

(** X5. A toggle by a logged-in user on an existing reef, in a database
    whose bookmark pairs are unique and whose bookmark sequence is ahead of
    the keys in use, answers, flips whether that user has the reef
    bookmarked, and touches nothing else: every bookmark row of another
    pair stays under its key as it was, the bookmark page of every other
    user keeps its rows, the reefs, events, articles and gallery items are
    as before, the session is not written, and one message is added to the
    visitor's messages. *)
Theorem bookmark_toggle_frame request u reef_id reef db :
  user request = CustomUser u →
  Reef_objects db !! reef_id = Some reef →
  unique_together (ReefBookmark_objects db) → keys_below_seq db →
  ∃ resp request' db',
    bookmark_toggle request reef_id db = Ok (resp, request', db') ∧
    (bookmarked u reef_id db' ↔ ¬ bookmarked u reef_id db) ∧
    (∀ k b, ¬ same_pair u reef_id (k, b) →
            ReefBookmark_objects db' !! k = Some b ↔
            ReefBookmark_objects db !! k = Some b) ∧
    (∀ v, v ≠ u →
          evaluate (BookmarkListView_get_queryset v db')
          ≡ₚ evaluate (BookmarkListView_get_queryset v db)) ∧
    Reef_objects db' = Reef_objects db ∧
    Event_objects db' = Event_objects db ∧
    Article_objects db' = Article_objects db ∧
    ImageGallery_objects db' = ImageGallery_objects db ∧
    session request' = session request ∧
    session_modified request' = session_modified request ∧
    ∃ message, messages request' = (messages request ++ [(SUCCESS, message)])%list.
Proof.
  intros Hu Hreef Huniq Hseq.
  pose proof (keys_below_seq_fresh _ Hseq) as Hfresh.
  assert (∀ db',
            (∀ k b, ¬ same_pair u reef_id (k, b) →
                    ReefBookmark_objects db' !! k = Some b ↔
                    ReefBookmark_objects db !! k = Some b) →
            ∀ v, v ≠ u →
                 evaluate (BookmarkListView_get_queryset v db')
                 ≡ₚ evaluate (BookmarkListView_get_queryset v db)) as Hothers.
  { intros db' Hrows v Hv. apply BookmarkListView_get_queryset_Permutation.
    intros k b Hb. apply Hrows. intros [Hu' _]. simpl in Hu'. congruence. }
  destruct (decide (bookmarked u reef_id db)) as [(k & b & Hk & HP)|Hno].
  - eexists _, _, _. split; [by eapply bookmark_toggle_existing|].
    assert (∀ k' b', ¬ same_pair u reef_id (k', b') →
                     ReefBookmark_objects (ReefBookmark_delete k db) !! k' = Some b' ↔
                     ReefBookmark_objects db !! k' = Some b') as Hrows.
    { intros k' b' Hnot. simpl. rewrite lookup_delete_Some.
      split; [tauto|]. intros Hk'. split; [|done]. intros <-.
      apply Hnot. by assert (b' = b) as -> by congruence. }
    split.
    { split; [intros Hyes; exfalso; by eapply bookmarked_delete|].
      intros Hnot. exfalso. apply Hnot. by exists k, b. }
    split; [done|]. split; [by apply Hothers|].
    repeat (split; [done|]). by eexists.
  - eexists _, _, _. split; [by eapply bookmark_toggle_absent|].
    assert (∀ k' b', ¬ same_pair u reef_id (k', b') →
                     <[ReefBookmark_seq db := new_bookmark u reef_id (now request)]>
                       (ReefBookmark_objects db) !! k' = Some b' ↔
                     ReefBookmark_objects db !! k' = Some b') as Hrows.
    { intros k' b' Hnot. rewrite lookup_insert_Some. split.
      - intros [[<- <-]|[_ Hk']]; [|done]. exfalso. by apply Hnot.
      - intros Hk'. right. split; [|done]. intros <-. congruence. }
    split.
    { split; [done|]. intros _.
      exists (ReefBookmark_seq db), (new_bookmark u reef_id (now request)).
      simpl. by rewrite lookup_insert_eq. }
    split; [done|]. split; [by apply (Hothers (set_bookmarks _ _ db))|].
    repeat (split; [done|]). by eexists.
Qed.

Lemma bookmark_toggle_frame_witness :
  ∃ resp request' db',
    bookmark_toggle (example_request (CustomUser 8) [] []) 1
      example_db_bookmarked = Ok (resp, request', db') ∧
    (bookmarked 8 1 db' ↔ ¬ bookmarked 8 1 example_db_bookmarked) ∧
    (∀ v, v ≠ 8 →
          evaluate (BookmarkListView_get_queryset v db')
          ≡ₚ evaluate (BookmarkListView_get_queryset v example_db_bookmarked)).
Proof.
  destruct (bookmark_toggle_frame (example_request (CustomUser 8) [] []) 8 1
              (example_reef "Ribbon Reef" "pacific" "good" 10)
              example_db_bookmarked)
    as (resp & request' & db' & Ht & Hflip & _ & Hothers & _).
  - reflexivity.
  - reflexivity.
  - apply unique_together_singleton.
  - intros k [b Hk]. simpl in Hk.
    apply lookup_singleton_Some in Hk as [<- _]. reflexivity.
  - by exists resp, request', db'.
Defined.

Lemma bookmark_toggle_Reef_objects request reef_id db resp request' db' :
  bookmark_toggle request reef_id db = Ok (resp, request', db') →
  Reef_objects db' = Reef_objects db.
Proof.
  unfold bookmark_toggle.
  destruct (user request) as [|u]; [by intros [= <- <- <-]|].
  destruct (get_object_or_404 _ _) as [reef|]; [|done]. simpl.
  assert (∀ o created db1,
            ReefBookmark_get_or_create u reef.1 (now request) db
            = Ok (o, created, db1) → Reef_objects db1 = Reef_objects db)
    as Hcreate.
  { intros o created db1. unfold ReefBookmark_get_or_create.
    destruct (ReefBookmark_get u reef.1 db) as [o1|e]; [by intros [= <- <- <-]|].
    destruct e; try done. unfold ReefBookmark_create.
    destruct (ReefBookmark_objects db !! ReefBookmark_seq db); [done|].
    destruct (filter _ _); [|done]. by intros [= <- <- <-]. }
  destruct (ReefBookmark_get_or_create _ _ _ _) as [[[o created] db1]|] eqn:Hg;
    [|done].
  simpl. specialize (Hcreate _ _ _ eq_refl).
  by destruct created; simpl; intros [= <- <- <-].
Qed.

(** What every run of toggle calls keeps. *)
Lemma toggle_all_invariant db calls :
  unique_together (ReefBookmark_objects db) → keys_below_seq db →
  unique_together (ReefBookmark_objects (toggle_all db calls)) ∧
  keys_below_seq (toggle_all db calls) ∧
  Reef_objects (toggle_all db calls) = Reef_objects db.
Proof.
  revert db. induction calls as [|call calls IH]; intros db Huniq Hseq; [done|].
  simpl. destruct (IH (toggle_step db call)) as (IH1 & IH2 & IH3).
  - by apply toggle_step_unique.
  - unfold toggle_step.
    destruct (bookmark_toggle _ _ _) as [[[resp request'] db']|] eqn:Ht; [|done].
    by eapply bookmark_toggle_keys_below_seq.
  - split; [done|]. split; [done|]. etrans; [exact IH3|].
    unfold toggle_step.
    destruct (bookmark_toggle _ _ _) as [[[resp request'] db']|] eqn:Ht; [|done].
    by eapply bookmark_toggle_Reef_objects.
Qed.

(** X6. From a database whose bookmark pairs are unique and whose bookmark
    sequence is ahead of the keys in use, after any run of toggle calls a
    toggle by a logged-in user fails in one way only, not-found for a reef
    that does not exist: for an existing reef it answers 200, never an
    integrity error nor more than one row found, the flag of the answer
    says whether the user has the reef bookmarked after the call, which is
    the opposite of before, and the message names the reef. *)
Theorem bookmark_toggle_after_toggles db calls request u reef_id :
  unique_together (ReefBookmark_objects db) → keys_below_seq db →
  user request = CustomUser u →
  let db1 := toggle_all db calls in
  match Reef_objects db !! reef_id with
  | None => bookmark_toggle request reef_id db1 = Raise Http404
  | Some reef =>
      ∃ flag db2,
        let message :=
          if flag : bool
          then "Added " +:+ Reef.name reef +:+ " to bookmarks"
          else "Removed " +:+ Reef.name reef +:+ " from bookmarks" in
        bookmark_toggle request reef_id db1 =
          Ok (toggle_response flag message, messages_success message request,
              db2) ∧
        (flag = true ↔ bookmarked u reef_id db2) ∧
        (flag = true ↔ ¬ bookmarked u reef_id db1)
  end.
Proof.
  intros Huniq Hseq Hu db1.
  destruct (toggle_all_invariant db calls Huniq Hseq) as (Huniq1 & Hseq1 & Hreefs).
  fold db1 in Huniq1, Hseq1, Hreefs.
  destruct (Reef_objects db !! reef_id) as [reef|] eqn:Hreef.
  - rewrite <- Hreefs in Hreef.
    destruct (decide (bookmarked u reef_id db1)) as [(k & b & Hk & HP)|Hno].
    + exists false, (ReefBookmark_delete k db1). simpl.
      split; [by eapply bookmark_toggle_existing|]. split.
      * split; [done|]. intros Hyes. exfalso. by eapply bookmarked_delete.
      * split; [done|]. intros Hnot. exfalso. apply Hnot. by exists k, b.
    + eexists true, _. simpl. split.
      * eapply bookmark_toggle_absent; eauto using keys_below_seq_fresh.
      * split; [|done]. split; [|done]. intros _.
        exists (ReefBookmark_seq db1), (new_bookmark u reef_id (now request)).
        simpl. by rewrite lookup_insert_eq.
  - unfold bookmark_toggle. rewrite Hu.
    by rewrite get_object_or_404_lookup, Hreefs, Hreef.
Qed.

Lemma bookmark_toggle_after_toggles_witness :
  ∃ flag db2,
    bookmark_toggle (example_request (CustomUser 7) [] []) 1
      (toggle_all example_db_bookmarked
         [(example_request (CustomUser 7) [] [], 1);
          (example_request (CustomUser 8) [] [], 2);
          (example_request (CustomUser 7) [] [], 9)]) =
      Ok (toggle_response flag
            (if flag : bool
             then "Added " +:+ "Ribbon Reef" +:+ " to bookmarks"
             else "Removed " +:+ "Ribbon Reef" +:+ " from bookmarks"),
          messages_success
            (if flag : bool
             then "Added " +:+ "Ribbon Reef" +:+ " to bookmarks"
             else "Removed " +:+ "Ribbon Reef" +:+ " from bookmarks")
            (example_request (CustomUser 7) [] []),
          db2) ∧
    (flag = true ↔ bookmarked 7 1 db2).
Proof.
  destruct (bookmark_toggle_after_toggles example_db_bookmarked
              [(example_request (CustomUser 7) [] [], 1);
               (example_request (CustomUser 8) [] [], 2);
               (example_request (CustomUser 7) [] [], 9)]
              (example_request (CustomUser 7) [] []) 7 1)
    as (flag & db2 & Ht & Hflag & _).
  - apply unique_together_singleton.
  - intros k [b Hk]. simpl in Hk.
    apply lookup_singleton_Some in Hk as [<- _]. reflexivity.
  - reflexivity.
  - by exists flag, db2.
Defined.

(** ** The two entries of the session *)

Lemma track_viewed_reef_cases x request :
  (∃ l,
     track_viewed_reef x request =
       Ok (set_session
             (<["viewed_reefs" := SList (take 10 (x :: remove_first x l))]>
                (session request))
             true request) ∧
     (session request !! "viewed_reefs" = Some (SList l) ∨
      session request !! "viewed_reefs" = None ∧ l = [])) ∨
  (∃ d, session request !! "viewed_reefs" = Some (SDict d) ∧
        track_viewed_reef x request = Raise AttributeError).
Proof.
  unfold track_viewed_reef.
  destruct (session request !! "viewed_reefs") as [[l|d]|] eqn:Hs.
  - left. exists l. split; [|by left].
    rewrite bool_decide_eq_true_2 by by eexists. rewrite Hs.
    case_bool_decide as Hin.
    + by rewrite list_remove_remove_first by done.
    + simpl. by rewrite remove_first_notin.
  - right. exists d. split; [done|].
    rewrite bool_decide_eq_true_2 by by eexists. by rewrite Hs.
  - left. exists []. split; [|by right].
    rewrite bool_decide_eq_false_2 by (intros [? ?]; done). simpl.
    rewrite lookup_insert_eq.
    rewrite bool_decide_eq_false_2 by apply not_elem_of_nil. simpl.
    unfold set_session. simpl. by rewrite insert_insert_eq.
Qed.

Lemma view_reef_session_other db request pk key :
  key ≠ "viewed_reefs" →
  session (view_reef db request pk) !! key = session request !! key.
Proof.
  intros Hkey. unfold view_reef, ReefDetailView_get_context_data.
  rewrite get_object_pk. destruct (Reef_objects db !! pk) as [reef|]; [|done].
  simpl.
  destruct (track_viewed_reef_cases pk request) as [(l & -> & _)|(d & _ & ->)];
    [|done].
  simpl. by rewrite lookup_insert_ne.
Qed.

Lemma view_reef_session_viewed db request1 request2 pk :
  session request1 !! "viewed_reefs" = session request2 !! "viewed_reefs" →
  session (view_reef db request1 pk) !! "viewed_reefs"
  = session (view_reef db request2 pk) !! "viewed_reefs".
Proof.
  intros Hsame. unfold view_reef, ReefDetailView_get_context_data.
  rewrite !get_object_pk. destruct (Reef_objects db !! pk) as [reef|]; [|done].
  simpl.
  destruct (track_viewed_reef_cases pk request1)
    as [(l1 & -> & H1)|(d1 & H1 & ->)],
     (track_viewed_reef_cases pk request2)
    as [(l2 & -> & H2)|(d2 & H2 & ->)]; simpl.
  - rewrite !lookup_insert_eq.
    assert (l1 = l2) as ->; [|done].
    destruct H1 as [H1|[H1 ->]], H2 as [H2|[H2 ->]]; congruence.
  - destruct H1 as [H1|[H1 _]]; congruence.
  - destruct H2 as [H2|[H2 _]]; congruence.
  - done.
Qed.

Lemma visit_ReefList_session db request get :
  session (visit db request (ReefList get)) =
    <["last_reef_filters" := SDict (reef_filters get)]> (session request).
Proof.
  simpl.
  destruct (ReefListView_get_queryset_spec (with_GET get request) db)
    as (qs & request' & Hqs & _).
  rewrite Hqs. revert Hqs. unfold ReefListView_get_queryset.
  destruct (if bool_decide _ then order_by _ _ _ else Ok _) as [q|]; [|done].
  simpl. by intros [= _ <-].
Qed.

Lemma browse_snoc db request pages p :
  browse db request (pages ++ [p]) = visit db (browse db request pages) p.
Proof. unfold browse. by rewrite foldl_snoc. Qed.

(** X7. A visitor goes through reef listings and reef pages in any order
    with one session. The list of viewed reefs is then what the reef pages
    alone would have left, the remembered filters are the search, region
    and health of the last listing request (an absent one as the empty
    string, the sort not among them), or what the session had when no
    listing was asked, and no other entry of the session is written. *)
Theorem browse_session db request pages :
  let request' := browse db request pages in
  viewed_reefs request'
  = viewed_reefs (view_reefs db request (detail_pks pages)) ∧
  session request' !! "last_reef_filters" =
    match last (listing_queries pages) with
    | Some get => Some (SDict (reef_filters get))
    | None => session request !! "last_reef_filters"
    end ∧
  ∀ key, key ≠ "viewed_reefs" → key ≠ "last_reef_filters" →
         session request' !! key = session request !! key.
Proof.
  intros request'. unfold request'. clear request'.
  assert (session (browse db request pages) !! "viewed_reefs"
          = session (view_reefs db request (detail_pks pages)) !! "viewed_reefs"
          ∧ session (browse db request pages) !! "last_reef_filters" =
            match last (listing_queries pages) with
            | Some get => Some (SDict (reef_filters get))
            | None => session request !! "last_reef_filters"
            end
          ∧ ∀ key, key ≠ "viewed_reefs" → key ≠ "last_reef_filters" →
                   session (browse db request pages) !! key
                   = session request !! key) as (Hv & Hf & Ho).
  2:{ split; [|done]. unfold viewed_reefs. by rewrite Hv. }
  induction pages as [|p pages (IHv & IHf & IHo)] using rev_ind; [done|].
  rewrite browse_snoc. unfold detail_pks, listing_queries in *.
  rewrite !omap_app. simpl. destruct p as [get|pk]; simpl omap.
  - rewrite !app_nil_r, last_snoc, visit_ReefList_session.
    split; [by rewrite lookup_insert_ne|]. split; [by rewrite lookup_insert_eq|].
    intros key Hk1 Hk2. rewrite lookup_insert_ne by done. by apply IHo.
  - rewrite !app_nil_r. rewrite view_reefs_snoc.
    change (visit db ?r (ReefDetail pk)) with (view_reef db r pk).
    split; [by apply view_reef_session_viewed|].
    split; [by rewrite view_reef_session_other|].
    intros key Hk1 Hk2. rewrite view_reef_session_other by done. by apply IHo.
Qed.

(** ** The reef page and the panel of recently viewed reefs *)

Lemma take_left_out {A} (l : list A) n o :
  o ∈ l → o ∉ take n l → length (take n l) = n.
Proof.
  intros Hin Hout. destruct (decide (length l ≤ n)%nat) as [Hle|Hgt].
  - by rewrite take_ge in Hout.
  - rewrite length_take. lia.
Qed.

Lemma Sorted_take {A} (R : relation A) l n : Sorted R l → Sorted R (take n l).
Proof.
  intros Hl. revert n. induction Hl as [|a l _ IH Hhd]; intros [|n]; simpl;
    try constructor; [apply IH|].
  destruct Hhd; destruct n; simpl; by constructor.
Qed.

Lemma take_evaluate_left_out {row} (qs : QuerySet row) n o :
  o ∈ qs_rows qs → o ∉ take n (evaluate qs) → length (take n (evaluate qs)) = n.
Proof. intros Hin. apply take_left_out. by apply elem_of_evaluate. Qed.

(** X8. The page of a reef of the table shows that reef, at most ten of its
    events and at most eight of its gallery items, none of another reef
    and none twice. When an event of the reef is left out the page shows
    ten, and none of them is dated before the one left out; when a gallery
    item of the reef is left out the page shows eight, and none of them
    was uploaded before the one left out. The request marks the session as
    modified and adds no message. *)
Theorem ReefDetailView_page request k slug db reef :
  Reef_objects db !! k = Some reef → not_a_dict request →
  ∃ events items request',
    ReefDetailView_get_context_data request (Some k) slug db
    = Ok ({| context_reef := (k, reef); context_events := events;
             context_gallery_items := items |}, request') ∧
    (length events ≤ 10)%nat ∧ NoDup events ∧
    (∀ o, o ∈ events →
          Event_objects db !! o.1 = Some o.2 ∧ Event.reef o.2 = k) ∧
    (∀ j e, Event_objects db !! j = Some e → Event.reef e = k →
            (j, e) ∉ events →
            length events = 10%nat ∧
            ∀ a, a ∈ events →
                 date_compare (Event.event_date e) (Event.event_date a.2) ≠ Gt) ∧
    (length items ≤ 8)%nat ∧ NoDup items ∧
    (∀ o, o ∈ items →
          ImageGallery_objects db !! o.1 = Some o.2 ∧
          ImageGallery.reef o.2 = Some k) ∧
    (∀ j g, ImageGallery_objects db !! j = Some g →
            ImageGallery.reef g = Some k → (j, g) ∉ items →
            length items = 8%nat ∧
            ∀ a, a ∈ items →
                 ImageGallery.uploaded_at g ≤ ImageGallery.uploaded_at a.2) ∧
    session_modified request' = true ∧
    messages request' = messages request.
Proof.
  intros Hreef Hok. unfold ReefDetailView_get_context_data.
  rewrite get_object_by_pk, Hreef. simpl.
  set (events := qs_filter (λ o : Z * Event.t, Event.reef o.2 = k)
                   (objects_all Event_ordering (Event_objects db))).
  set (items := qs_filter (λ o : Z * ImageGallery.t,
                             ImageGallery.reef o.2 = Some k)
                  (objects_all ImageGallery_ordering (ImageGallery_objects db))).
  assert (∀ o, o ∈ qs_rows events ↔
               Event_objects db !! o.1 = Some o.2 ∧ Event.reef o.2 = k)
    as Hevents.
  { intros o. unfold events. simpl.
    rewrite list_elem_of_filter, elem_of_map_to_list'. tauto. }
  assert (∀ o, o ∈ qs_rows items ↔
               ImageGallery_objects db !! o.1 = Some o.2 ∧
               ImageGallery.reef o.2 = Some k) as Hitems.
  { intros o. unfold items. simpl.
    rewrite list_elem_of_filter, elem_of_map_to_list'. tauto. }
  destruct (track_viewed_reef_cases k request) as [(l & -> & _)|(d & Hd & _)];
    [|by destruct (Hok d)].
  simpl. eexists _, _, _. split; [done|].
  split; [rewrite length_take; lia|].
  split; [apply take_evaluate_NoDup, NoDup_filter, NoDup_map_to_list|].
  split.
  { intros o Ho. by apply Hevents, (take_evaluate_elem events 10). }
  split.
  { intros j e Hj He Hout.
    assert ((j, e) ∈ qs_rows events) as Hin by by apply Hevents.
    split; [by apply (take_evaluate_left_out events 10 (j, e))|].
    intros a Ha. apply (descending_date_le Event.event_date a (j, e)).
    apply (order_le_first _ [descending (by_key Z.compare Event.created_at)]).
    apply (take_evaluate_first events 10 a (j, e)); try done.
    apply Event_ordering_preorder. }
  split; [rewrite length_take; lia|].
  split; [apply take_evaluate_NoDup, NoDup_filter, NoDup_map_to_list|].
  split.
  { intros o Ho. by apply Hitems, (take_evaluate_elem items 8). }
  split; [|done].
  intros j g Hj Hg Hout.
  assert ((j, g) ∈ qs_rows items) as Hin by by apply Hitems.
  split; [by apply (take_evaluate_left_out items 8 (j, g))|].
  intros a Ha. apply (descending_Z_le ImageGallery.uploaded_at a (j, g)).
  apply (take_evaluate_first items 8 a (j, g)); try done.
  apply ImageGallery_ordering_preorder.
Qed.

Lemma ReefDetailView_page_witness :
  ∃ events items request',
    ReefDetailView_get_context_data (example_request AnonymousUser [] [])
      (Some 1) None example_db_events
    = Ok ({| context_reef :=
               (1, example_reef "Ribbon Reef" "pacific" "good" 10);
             context_events := events; context_gallery_items := items |},
          request') ∧
    (length events ≤ 10)%nat ∧ NoDup events.
Proof.
  destruct (ReefDetailView_page (example_request AnonymousUser [] []) 1 None
              example_db_events
              (example_reef "Ribbon Reef" "pacific" "good" 10))
    as (events & items & request' & Hpage & Hlen & Hnd & _).
  - reflexivity.
  - intros d. discriminate.
  - by exists events, items, request'.
Defined.

(** X9. The listing page shows no panel of recently viewed reefs when the
    session has no viewed reef. Otherwise the panel holds at most five
    reefs, each once, each a viewed reef that is still in the table; when a
    viewed reef of the table is left out the panel holds five, and they
    are the latest created among the viewed reefs, whatever the order they
    were viewed in. The page also hands back the query string and the sort
    it was asked with, [-created_at] when none was given. *)
Theorem ReefListView_recently_viewed request db :
  not_a_dict request →
  ∃ context,
    ReefListView_get_context_data request db = Ok context ∧
    current_filters context = GET request ∧
    current_sort context = default "-created_at" (GET request !! "sort") ∧
    match viewed_reefs request with
    | [] => recently_viewed context = None
    | _ :: _ =>
        ∃ panel,
          recently_viewed context = Some panel ∧
          (length panel ≤ 5)%nat ∧ NoDup panel ∧
          Sorted (λ a b, Reef.created_at b.2 ≤ Reef.created_at a.2) panel ∧
          (∀ o, o ∈ panel →
                o.1 ∈ viewed_reefs request ∧ Reef_objects db !! o.1 = Some o.2) ∧
          (∀ j r, j ∈ viewed_reefs request → Reef_objects db !! j = Some r →
                  (j, r) ∉ panel →
                  length panel = 5%nat ∧
                  ∀ a, a ∈ panel → Reef.created_at r ≤ Reef.created_at a.2)
    end.
Proof.
  intros Hok. unfold ReefListView_get_context_data, viewed_reefs.
  destruct (session request !! "viewed_reefs") as [[l|d]|] eqn:Hs;
    [|by destruct (Hok d)|].
  2:{ simpl. by eexists. }
  simpl. destruct l as [|x l].
  { simpl. by eexists. }
  rewrite bool_decide_eq_true_2 by done. simpl.
  set (qs := qs_filter (λ o : Z * Reef.t, o.1 ∈ x :: l)
               (objects_all Reef_ordering (Reef_objects db))).
  assert (∀ o, o ∈ qs_rows qs ↔
               o.1 ∈ x :: l ∧ Reef_objects db !! o.1 = Some o.2) as Hrows.
  { intros o. unfold qs. simpl.
    rewrite list_elem_of_filter, elem_of_map_to_list'. tauto. }
  eexists. split; [done|]. simpl. split; [done|]. split; [done|].
  eexists. split; [done|].
  split; [rewrite length_take; lia|].
  split; [apply take_evaluate_NoDup, NoDup_filter, NoDup_map_to_list|].
  split.
  { eapply Sorted_weaken; [|apply Sorted_take, (evaluate_Sorted qs)].
    - intros a b. apply (descending_Z_le Reef.created_at a b).
    - apply preorder_terms_antisym, Reef_ordering_preorder. }
  split.
  { intros o Ho. by apply Hrows, (take_evaluate_elem qs 5). }
  intros j r Hj Hr Hout.
  assert ((j, r) ∈ qs_rows qs) as Hin by by apply Hrows.
  split; [by apply (take_evaluate_left_out qs 5 (j, r))|].
  intros a Ha. apply (descending_Z_le Reef.created_at a (j, r)).
  apply (take_evaluate_first qs 5 a (j, r)); try done.
  apply Reef_ordering_preorder.
Qed.

Lemma ReefListView_recently_viewed_witness :
  ∃ context,
    ReefListView_get_context_data
      (view_reefs example_db (example_request AnonymousUser [] []) [3; 1])
      example_db = Ok context ∧
    current_sort context = "-created_at".
Proof.
  destruct (ReefListView_recently_viewed
              (view_reefs example_db (example_request AnonymousUser [] []) [3; 1])
              example_db)
    as (context & Hcontext & _ & Hsort & _).
  - intros d. vm_compute. discriminate.
  - by exists context.
Defined.

(** ** The menus and the selections of the listings *)


#[local] Instance later_year_total : Total later_year.
Proof. intros a b. unfold later_year. lia. Qed.


Lemma elem_of_Event_years db y :
  y ∈ Event_years db ↔
  ∃ k e, Event_objects db !! k = Some e ∧ year (Event.event_date e) = y.
Proof.
  unfold Event_years. rewrite merge_sort_Permutation, elem_of_remove_dups.
  rewrite list_elem_of_fmap. split.
  - intros ([k e] & -> & Ho). apply elem_of_map_to_list in Ho. by exists k, e.
  - intros (k & e & Hk & <-). exists (k, e). split; [done|].
    by apply elem_of_map_to_list.
Qed.





(** X12. Whatever its parameters, the article listing shows each article at
    most once, and shows an article exactly when it is published, has the
    category asked for when one is given, and has the search text, case
    ignored, in its title, content or excerpt when one is given. *)
Theorem ArticleListView_selects request db :
  let search := QueryDict_get (GET request) "search" "" in
  let category := QueryDict_get (GET request) "category" "" in
  ∃ rows,
    ArticleListView_object_list request db = Ok rows ∧ NoDup rows ∧
    ∀ k a,
      (k, a) ∈ rows ↔
      Article_objects db !! k = Some a ∧ Article.published a = true ∧
      (search ≠ "" →
         contains_ignoring_case (Article.title a) search ∨
         contains_ignoring_case (Article.content a) search ∨
         contains_ignoring_case (Article.excerpt a) search) ∧
      (category ≠ "" → Article.category a = category).
Proof.
  intros search category.
  destruct (ArticleListView_get_queryset_spec request db) as (qs & Hqs & _).
  assert (ArticleListView_object_list request db = Ok (evaluate qs)) as Hrows
    by (unfold ArticleListView_object_list; by rewrite Hqs).
  exists (evaluate qs). split; [done|].
  apply ArticleListView_object_list_rows in Hrows as [Hnd Hrows].
  split; [done|]. intros k a. rewrite Hrows. unfold Article_selected.
  fold search category. unfold Article_search. simpl.
  rewrite !icontains_spec. tauto.
Qed.

Lemma qs_get_one {row} (qs : QuerySet row) o :
  NoDup (qs_rows qs) → o ∈ qs_rows qs → (∀ o', o' ∈ qs_rows qs → o' = o) →
  qs_get qs = Ok o.
Proof.
  intros Hnd Hin Hall. unfold qs_get.
  destruct (qs_rows qs) as [|o1 [|o2 l]].
  - by apply elem_of_nil in Hin.
  - f_equal. apply Hall. left.
  - exfalso. apply NoDup_cons in Hnd as [Hnot _]. apply Hnot.
    rewrite (Hall o1) by left. rewrite (Hall o2) by (right; left). left.
Qed.

Lemma qs_get_two {row} (qs : QuerySet row) o1 o2 :
  o1 ∈ qs_rows qs → o2 ∈ qs_rows qs → o1 ≠ o2 →
  qs_get qs = Raise MultipleObjectsReturned.
Proof.
  intros H1 H2 Hne. unfold qs_get.
  destruct (qs_rows qs) as [|a [|b l]]; [by apply elem_of_nil in H1| |done].
  apply list_elem_of_singleton in H1, H2. congruence.
Qed.

(** X13. A published article is found by its key, whatever slug comes with
    the key, and by its slug when no other published article has that
    slug; when another published article has it, the lookup by slug fails
    with more than one object found; and a request with neither key nor
    slug is an attribute error. *)
Theorem ArticleDetailView_finds k a db :
  Article_objects db !! k = Some a → Article.published a = true →
  (∀ slug, ArticleDetailView_get_object (Some k) slug db = Ok (k, a)) ∧
  ((∀ k' a', Article_objects db !! k' = Some a' →
             Article.published a' = true →
             Article.slug a' = Article.slug a → k' = k) →
   ArticleDetailView_get_object None (Some (Article.slug a)) db = Ok (k, a)) ∧
  (∀ k' a', Article_objects db !! k' = Some a' →
            Article.published a' = true →
            Article.slug a' = Article.slug a → k' ≠ k →
            ArticleDetailView_get_object None (Some (Article.slug a)) db
            = Raise MultipleObjectsReturned) ∧
  ArticleDetailView_get_object None None db = Raise AttributeError.
Proof.
  intros Hk Hpub.
  assert ((k, a) ∈ qs_rows (ArticleDetailView_get_queryset db)) as Hin
    by by apply elem_of_ArticleDetailView_get_queryset.
  split; [|split; [|split]].
  - intros slug. unfold ArticleDetailView_get_object, get_object. simpl.
    erewrite (qs_get_one _ (k, a)); [done|..].
    + simpl. apply NoDup_filter, NoDup_filter, NoDup_map_to_list.
    + simpl. by apply list_elem_of_filter.
    + intros [k' a'] Ho. simpl in Ho.
      apply list_elem_of_filter in Ho as [Hk' Ho]. simpl in Hk'. subst k'.
      apply elem_of_ArticleDetailView_get_queryset in Ho as [Ho _].
      simpl in Ho. congruence.
  - intros Huniq. unfold ArticleDetailView_get_object, get_object. simpl.
    erewrite (qs_get_one _ (k, a)); [done|..].
    + simpl. apply NoDup_filter, NoDup_filter, NoDup_map_to_list.
    + simpl. by apply list_elem_of_filter.
    + intros [k' a'] Ho. simpl in Ho.
      apply list_elem_of_filter in Ho as [Hs Ho]. simpl in Hs.
      apply elem_of_ArticleDetailView_get_queryset in Ho as [Ho Hp].
      simpl in *. assert (k' = k) as -> by by eapply Huniq. congruence.
  - intros k' a' Hk' Hpub' Hslug Hne.
    unfold ArticleDetailView_get_object, get_object. simpl.
    erewrite (qs_get_two _ (k, a) (k', a')); [done|..].
    + simpl. by apply list_elem_of_filter.
    + simpl. apply list_elem_of_filter. split; [done|].
      by apply elem_of_ArticleDetailView_get_queryset.
    + congruence.
  - done.
Qed.

Lemma ArticleDetailView_finds_witness :
  ArticleDetailView_get_object (Some 1) (Some "draft") example_db_articles
  = Ok (1, example_article "Bleaching" "bleaching" true).
Proof.
  destruct (ArticleDetailView_finds 1
              (example_article "Bleaching" "bleaching" true)
              example_db_articles) as [Hfound _].
  - reflexivity.
  - reflexivity.
  - apply Hfound.
Defined.

(** ** What a stored report looks like *)


Section stored_report.
Variable strptime_date : string → option date.







End stored_report.


(** ** Uploads *)



Lemma lower_ascii_idemp c : lower_ascii (lower_ascii c) = lower_ascii c.
Proof.
  unfold lower_ascii.
  destruct ((65 <=? nat_of_ascii c) && (nat_of_ascii c <=? 90))%nat eqn:Hc;
    [|by rewrite Hc].
  apply andb_true_iff in Hc as [H1%Nat.leb_le H2%Nat.leb_le].
  rewrite nat_ascii_embedding by lia.
  replace (nat_of_ascii c + 32 <=? 90)%nat with false
    by (symmetry; apply Nat.leb_gt; lia).
  by rewrite andb_false_r.
Qed.

Lemma lower_idemp s : lower (lower s) = lower s.
Proof.
  induction s as [|c s IH]; [done|]. simpl. by rewrite lower_ascii_idemp, IH.
Qed.



Section upload_store.
Variable strptime_date : string → option date.
Variable FileValidator : UploadedFile → option string.
Variable generate_filename : Z → string → string.











End upload_store.


(** ** Deleting a user *)

Lemma set_null_not u fk : set_null u fk ≠ Some u.
Proof. unfold set_null. case_bool_decide; congruence. Qed.

Lemma nulled_author_fmap {row} (author : row → option Z)
    (set_author : option Z → row → row) u (t : gmap Z row) :
  (∀ v r, author (set_author v r) = v) →
  (∀ r, set_author (author r) r = r) →
  (∀ v w r, set_author v (set_author w r) = set_author v r) →
  nulled_author author set_author u t
    ((λ r, set_author (set_null u (author r)) r) <$> t).
Proof.
  intros Hget Hset Hsetset k. rewrite lookup_fmap.
  destruct (t !! k) as [r|]; [|done]. simpl.
  eexists. split; [done|]. rewrite Hget. split; [apply set_null_not|].
  unfold set_null. destruct (decide (author r = Some u)) as [Hu|Hu].
  - rewrite bool_decide_eq_true_2 by done. split; [done|].
    by rewrite Hsetset, <- Hu, Hset.
  - rewrite bool_decide_eq_false_2 by done. apply Hset.
Qed.

(** X17. Deleting a user removes the bookmarks of that user and no other,
    and keeps every reef, event, article and gallery item under its key:
    the rows the user made lose their author and are otherwise as they
    were, the other rows are untouched. Afterwards no row refers to the
    user, the bookmark page of every other user has the rows it had, and
    the pairs of the bookmark table are unique if they were. *)
Theorem CustomUser_delete_effects u db :
  let db' := CustomUser_delete u db in
  nulled_author Reef.created_by Reef_set_created_by u
    (Reef_objects db) (Reef_objects db') ∧
  nulled_author Event.reported_by Event_set_reported_by u
    (Event_objects db) (Event_objects db') ∧
  nulled_author Article.author Article_set_author u
    (Article_objects db) (Article_objects db') ∧
  nulled_author ImageGallery.uploaded_by ImageGallery_set_uploaded_by u
    (ImageGallery_objects db) (ImageGallery_objects db') ∧
  (∀ k b, ReefBookmark_objects db' !! k = Some b ↔
          ReefBookmark_objects db !! k = Some b ∧ ReefBookmark.user b ≠ u) ∧
  (∀ v, v ≠ u →
        evaluate (BookmarkListView_get_queryset v db')
        ≡ₚ evaluate (BookmarkListView_get_queryset v db)) ∧
  evaluate (BookmarkListView_get_queryset u db') = [] ∧
  (unique_together (ReefBookmark_objects db) →
   unique_together (ReefBookmark_objects db')).
Proof.
  intros db'. unfold db', CustomUser_delete. simpl.
  split; [apply nulled_author_fmap; try done; by intros []|].
  split; [apply nulled_author_fmap; try done; by intros []|].
  split; [apply nulled_author_fmap; try done; by intros []|].
  split; [apply nulled_author_fmap; try done; by intros []|].
  assert (∀ k b,
            filter (λ o : Z * ReefBookmark.t, ReefBookmark.user o.2 ≠ u)
              (ReefBookmark_objects db) !! k = Some b ↔
            ReefBookmark_objects db !! k = Some b ∧ ReefBookmark.user b ≠ u)
    as Hrows by (intros k b; apply map_lookup_filter_Some).
  split; [done|]. split; [|split].
  - intros v Hv. apply BookmarkListView_get_queryset_Permutation.
    intros k b Hb. simpl. rewrite Hrows. split; [tauto|]. intros Hk.
    split; [done|]. congruence.
  - apply elem_of_nil_inv. intros o Ho.
    apply elem_of_BookmarkListView_get_queryset in Ho as [Ho Hu]. simpl in Ho.
    apply Hrows in Ho as [_ Hne]. done.
  - intros Huniq k1 k2 b1 b2 H1 H2.
    apply Hrows in H1 as [H1 _]. apply Hrows in H2 as [H2 _]. by eapply Huniq.
Qed.

(** ** A stored report on the pages *)

Lemma PollutionReportCreateView_post_redirect strptime_date request db url
    request' db' :
  PollutionReportCreateView_post strptime_date request db
  = Ok (HttpResponseRedirect url, request', db') →
  ∃ e, Event_objects db !! Event_seq db = None ∧
       db' = set_events (<[Event_seq db := e]> (Event_objects db))
               (Event_seq db + 1) db ∧
       Event.event_type e = "pollution".
Proof.
  unfold PollutionReportCreateView_post.
  destruct (is_authenticated (user request)); simpl; [|done].
  destruct (is_valid _); [|done].
  unfold PollutionReportCreateView_form_valid.
  destruct (Event_form_save _ _ _) as [[[pk e] db1]|] eqn:Hsave; [|done].
  simpl. intros [= _ _ <-].
  apply Event_form_save_Ok in Hsave as (_ & -> & Hrow & Hfree & ->).
  exists e. split; [done|]. split; [done|].
  apply Event_row_Some in Hrow as (Htype & _). simpl in Htype.
  rewrite lookup_insert_eq in Htype. by injection Htype as <-.
Qed.

(** X18. A pollution report that was stored is shown: its page is found
    under the key it was given, without gallery items where every gallery
    item of the database pointed at an event of the table; the home page
    counts one event more; the year of the report is in the years menu;
    and the events listing shows it, asked without parameters or asked for
    the pollution events. *)
Theorem stored_report_is_shown strptime_date request db url request' db' :
  PollutionReportCreateView_post strptime_date request db
  = Ok (HttpResponseRedirect url, request', db') →
  ∃ e,
    Event_objects db' !! Event_seq db = Some e ∧
    (∀ slug, ∃ items,
       EventDetailView_get_context_data (Some (Event_seq db)) slug db'
       = Ok {| context_event := (Event_seq db, e);
               event_gallery_items := items |} ∧
       (gallery_events_exist db → items = [])) ∧
    event_count (HomeView_get_context_data db')
    = S (event_count (HomeView_get_context_data db)) ∧
    (∀ listing,
       year (Event.event_date e)
       ∈ years (EventListView_get_context_data listing db')) ∧
    (∀ listing,
       GET listing = ∅ ∨ GET listing = {[ "event_type" := "pollution" ]} →
       ∃ rows, EventListView_object_list listing db' = Ok rows ∧
               (Event_seq db, e) ∈ rows).
Proof.
  intros Hpost.
  apply PollutionReportCreateView_post_redirect in Hpost
    as (e & Hfree & -> & Htype).
  exists e. simpl. split; [apply lookup_insert_eq|]. split; [|split; [|split]].
  - intros slug. unfold EventDetailView_get_context_data.
    rewrite get_object_by_pk. simpl. rewrite lookup_insert_eq. simpl.
    eexists. split; [done|]. intros Hexist.
    apply elem_of_nil_inv. intros o Ho. apply elem_of_evaluate in Ho.
    simpl in Ho. apply list_elem_of_filter in Ho as [Hevent Ho].
    apply elem_of_map_to_list' in Ho. simpl in Hevent.
    destruct (Hexist _ _ _ Ho Hevent) as [e' He']. congruence.
  - unfold qs_count. simpl. rewrite !length_map_to_list.
    by rewrite map_size_insert_None.
  - intros listing. simpl. apply elem_of_Event_years.
    exists (Event_seq db), e. simpl. by rewrite lookup_insert_eq.
  - intros listing Hget.
    assert (year_accepted listing) as Hacc.
    { left. unfold QueryDict_get. by destruct Hget as [->| ->]. }
    apply (proj2 (EventListView_is_ok _
                    (set_events (<[Event_seq db:=e]> (Event_objects db))
                       (Event_seq db + 1) db))) in Hacc.
    destruct (EventListView_object_list listing _) as [rows|] eqn:Hrows;
      [|done].
    exists rows. split; [done|].
    apply EventListView_object_list_rows in Hrows as [_ Hrows].
    apply Hrows. unfold Event_selected, QueryDict_get. simpl.
    rewrite lookup_insert_eq.
    destruct Hget as [->| ->]; (split; [done|]).
    + rewrite !lookup_empty. simpl. repeat (split; [done|]).
      rewrite !elem_of_cons, elem_of_nil. intros [?|[?|[]]]; done.
    + rewrite lookup_singleton_eq. rewrite !lookup_singleton_ne by done. simpl.
      repeat (split; [done|]).
      rewrite !elem_of_cons, elem_of_nil. intros [?|[?|[]]]; done.
Qed.

Lemma stored_report_is_shown_witness :
  ∃ db' e,
    Event_objects db' !! 1 = Some e ∧
    event_count (HomeView_get_context_data db') = 1%nat.
Proof.
  destruct (PollutionReportCreateView_post example_strptime
              (example_request (CustomUser 7) [] example_report) example_db)
    as [[[resp request'] db']|] eqn:Hpost; [|by vm_compute in Hpost].
  destruct resp as [|url_name|template form]; [by vm_compute in Hpost| |
    by vm_compute in Hpost].
  destruct (stored_report_is_shown example_strptime _ _ _ _ _ Hpost)
    as (e & Hstored & _ & Hcount & _).
  by exists db', e.
Defined.

(** ** What a stored sighting looks like *)

Section stored_sighting.
Variable strptime_date : string → option date.


End stored_sighting.

